(** * Animated background visuals: cellular automaton, particle field, node graph

    A shallow embedding of [src/lib/GameOfLife.ts] (classes [GameOfLife],
    [ParticleAttractor], [Particle]) and [src/lib/NetworkGraph.ts] (classes
    [NetworkGraph], [Node]), and the properties of the specification checked
    against it.

    Conventions of the embedding.
    - Integer-valued JavaScript numbers (grid indices, cell states, surface
      sizes, frame handles) are [Z]; the sizes the DOM hands out
      ([clientWidth], [innerWidth], ...) are unsigned and are [N].
    - In the grid automaton the only fractional numbers are pointer
      coordinates and [Math.random()] draws, and the only operations on them
      are subtraction, division by the cell size, [Math.floor]/[Math.ceil] and
      comparison; they are rationals ([Q]), which keeps the model executable.
    - The particle field and the node graph use [Math.sqrt], [Math.cos],
      [Math.sin] and [Math.atan2]; their numbers are idealised as reals ([R]):
      rounding, overflow and [NaN] are not modelled.
    - [Math.random()] reads the next element of a stream of draws; the stream
      is an input, the cursor is threaded through the code.
    - A computation that the source could only perform by reading or writing
      outside an array (a [TypeError], an [undefined] operand, an array that
      grows) yields [None]. *)

From Stdlib Require Import String ZArith QArith Qround Reals Qreals List Lia
  Lqa Lra Bool.
Import ListNotations.

(** ** JavaScript primitives used by the sources *)

Module JS.

Local Open Scope Z_scope.

(** [a % b] on integers: the remainder has the sign of the dividend, and
    the result is [NaN] (here [None]) when the divisor is [0]. *)
Definition rem (a b : Z) : option Z :=
  if b =? 0 then None else Some (Z.rem a b).

(** [a[i]] for an integer [i]: [undefined] (here [None]) unless
    [0 <= i < a.length]. *)
Definition get {A : Type} (a : list A) (i : Z) : option A :=
  if i <? 0 then None else nth_error a (Z.to_nat i).

(** [a[i] = v] for an index inside the array. Outside, JavaScript would
    grow the array or add a property; that is [None] here. *)
Fixpoint set_nat {A : Type} (a : list A) (i : nat) (v : A) : option (list A) :=
  match a, i with
  | [], _ => None
  | _ :: t, O => Some (v :: t)
  | h :: t, S k =>
      match set_nat t k v with
      | Some t' => Some (h :: t')
      | None => None
      end
  end.

Definition set {A : Type} (a : list A) (i : Z) (v : A) : option (list A) :=
  if i <? 0 then None else set_nat a (Z.to_nat i) v.

(** [Math.floor] and [Math.ceil]. *)
Definition floor (q : Q) : Z := Qfloor q.
Definition ceil (q : Q) : Z := Qceiling q.

(** [a < b] and [a > b] on numbers. *)
Definition ltb (a b : Q) : bool := negb (Qle_bool b a).
Definition gtb (a b : Q) : bool := ltb b a.

(** [for (let i = lo; i < hi; i++)]: the indices visited, in order. *)
Definition range (lo hi : Z) : list Z :=
  map (fun k => lo + Z.of_nat k) (seq 0 (Z.to_nat (hi - lo))).

(** A loop body threads a state and may fail; the loop stops at the first
    failure. *)
Fixpoint forM {S : Type} (idx : list Z) (body : Z -> S -> option S) (s : S)
  : option S :=
  match idx with
  | [] => Some s
  | i :: rest =>
      match body i s with
      | Some s' => forM rest body s'
      | None => None
      end
  end.

(** How a call that assigns to array elements ends: it returns; it throws
    (a [TypeError], from indexing [undefined]); or it goes on in a state that
    a list does not represent: an assignment to an index outside the array,
    where JavaScript adds a property to the array or grows it. *)
Inductive Completion (A : Type) : Type :=
| Returns (a : A)
| Throws
| Unrepresented.
Arguments Returns {A} a.
Arguments Throws {A}.
Arguments Unrepresented {A}.

(** What the call returned, if it did. *)
Definition returned {A : Type} (c : Completion A) : option A :=
  match c with
  | Returns a => Some a
  | _ => None
  end.

(** A loop whose body ends in one of these ways; it stops at the first
    body that does not return. *)
Fixpoint forC {S : Type} (idx : list Z) (body : Z -> S -> Completion S) (s : S)
  : Completion S :=
  match idx with
  | [] => Returns s
  | i :: rest =>
      match body i s with
      | Returns s' => forC rest body s'
      | Throws => Throws
      | Unrepresented => Unrepresented
      end
  end.

End JS.

(** ** The host: [Math.random] and the DOM layout *)

Record Rng := mkRng { draws : nat -> Q; cursor : nat }.

(** [Math.random()]. *)
Definition random (r : Rng) : Q * Rng :=
  (draws r (cursor r), mkRng (draws r) (S (cursor r))).

(** What a method reads from the DOM when it runs: the client size of the
    canvas' parent element ([None] when the canvas has no parent), the inner
    size of the window, and the top-left corner of the canvas' bounding
    rectangle. *)
Record Dom := mkDom {
  parentElement : option (N * N);
  innerWidth : N;
  innerHeight : N;
  rect_left : Q;
  rect_top : Q
}.

Record MouseEvent := mkMouseEvent { clientX : Q; clientY : Q }.

(** A drawing surface as the constructors see it: [getContext('2d')] gives a
    context or [null] (here [None]), and the canvas has a size. *)
Record Ctx := Context2D { ctx_id : nat }.

Record Canvas := mkCanvas {
  getContext2d : option Ctx;
  canvas_width : N;
  canvas_height : N
}.

(** What a constructor call produces: the new instance, or the [Error] it
    throws. *)
Inductive Constructed (A : Type) : Type :=
| Instance (a : A)
| Error (message : string).
Arguments Instance {A} a.
Arguments Error {A} message.

(** Calls on the drawing context, over the number type [num] of the
    coordinates. A stroked segment
    [strokeStyle = s; beginPath(); moveTo(x1, y1); lineTo(x2, y2); stroke()]
    is one [StrokeLine]; a filled disc
    [beginPath(); arc(x, y, r, 0, 2 * Math.PI); fill()] is one [FillCircle]. *)
Inductive Style (num : Type) : Type :=
| Hex (color : string)
| Rgba (color : string) (alpha : num).
Arguments Hex {num} color.
Arguments Rgba {num} color alpha.

Inductive CanvasOp (num : Type) : Type :=
| ClearRect (x y w h : num)
| SetFillStyle (s : Style num)
| SetGlobalAlpha (a : num)
| SetCompositeOperation (mode : string)
| SetLineWidth (w : num)
| FillRect (x y w h : num)
| StrokeLine (s : Style num) (x1 y1 x2 y2 : num)
| FillCircle (x y r : num).
Arguments ClearRect {num} x y w h.
Arguments SetFillStyle {num} s.
Arguments SetGlobalAlpha {num} a.
Arguments SetCompositeOperation {num} mode.
Arguments SetLineWidth {num} w.
Arguments FillRect {num} x y w h.
Arguments StrokeLine {num} s x1 y1 x2 y2.
Arguments FillCircle {num} x y r.

(** The size [resize] gives the canvas. *)
Definition surface_size (dom : Dom) : Z * Z :=
  match parentElement dom with
  | Some (w, h) => (Z.of_N w, Z.of_N h)
  | None => (Z.of_N (innerWidth dom), Z.of_N (innerHeight dom))
  end.

(** ** [class GameOfLife] *)

Module GameOfLife.

Local Open Scope Z_scope.

Definition Grid := list (list Z).

Record t := mk {
  ctx : Ctx;
  width : Z;
  height : Z;
  cols : Z;
  rows : Z;
  grid : Grid;
  animationId : option Z;
  color : string
}.

Definition cellSize : Z := 8.

Definition set_grid (g : t) (gr : Grid) : t :=
  mk (ctx g) (width g) (height g) (cols g) (rows g) gr (animationId g)
     (color g).

(** [grid[c][r]] *)
Definition get2 (gr : Grid) (c r : Z) : option Z :=
  match JS.get gr c with
  | Some column => JS.get column r
  | None => None
  end.

(** [grid[c][r] = v] *)
Definition set2 (gr : Grid) (c r : Z) (v : Z) : option Grid :=
  match JS.get gr c with
  | Some column =>
      match JS.set column r v with
      | Some column' => JS.set gr c column'
      | None => None
      end
  | None => None
  end.

(** [createGrid]: [cols] columns of [rows] zeros. *)
Definition createGrid (g : t) : t :=
  set_grid g (repeat (repeat 0 (Z.to_nat (rows g))) (Z.to_nat (cols g))).

(** [seed]: every cell, column by column, gets its own draw. *)
Definition seed (rng : Rng) (g : t) : option (Rng * t) :=
  match
    JS.forM (JS.range 0 (cols g)) (fun i =>
      JS.forM (JS.range 0 (rows g)) (fun j '(rng, gr) =>
        let (u, rng') := random rng in
        match set2 gr i j (if JS.ltb u (15 # 100) then 1 else 0) with
        | Some gr' => Some (rng', gr')
        | None => None
        end))
      (rng, grid g)
  with
  | Some (rng', gr') => Some (rng', set_grid g gr')
  | None => None
  end.

(** [resize] *)
Definition resize (dom : Dom) (rng : Rng) (g : t) : option (Rng * t) :=
  let (w, h) := surface_size dom in
  let c := JS.ceil (inject_Z w / inject_Z cellSize) in
  let r := JS.ceil (inject_Z h / inject_Z cellSize) in
  seed rng
    (createGrid (mk (ctx g) w h c r (grid g) (animationId g) (color g))).

(** [constructor]: the grid is empty and the sizes are the canvas' until
    [resize] runs. *)
Definition constructor (canvas : Canvas) (color : string) (dom : Dom)
    (rng : Rng) : option (Constructed (Rng * t)) :=
  match getContext2d canvas with
  | None => Some (Error "Could not get canvas context")
  | Some context =>
      let g := mk context (Z.of_N (canvas_width canvas))
                 (Z.of_N (canvas_height canvas)) 0 0 [] None color in
      match resize dom rng g with
      | Some r => Some (Instance r)
      | None => None
      end
  end.

(** The guard [this.grid[c] && this.grid[c][r] !== undefined]; an index
    that is [NaN] names no column and no cell. *)
Definition cell_exists (gr : Grid) (c r : option Z) : bool :=
  match c, r with
  | Some c, Some r =>
      match JS.get gr c with
      | Some column =>
          match JS.get column r with Some _ => true | None => false end
      | None => false
      end
  | _, _ => false
  end.

(** The body of the two loops of [handleMouseMove] at offset [(i, j)]. *)
Definition paint (g : t) (col row i j : Z) (st : Rng * Grid)
  : option (Rng * Grid) :=
  let '(rng, gr) := st in
  let c := JS.rem (col + i + cols g) (cols g) in
  let r := JS.rem (row + j + rows g) (rows g) in
  if cell_exists gr c r then
    let (u, rng') := random rng in
    if JS.gtb u (3 # 10) then
      match c, r with
      | Some c, Some r =>
          match set2 gr c r 1 with
          | Some gr' => Some (rng', gr')
          | None => None
          end
      | _, _ => None
      end
    else Some (rng', gr)
  else Some (rng, gr).

(** [handleMouseMove] *)
Definition handleMouseMove (e : MouseEvent) (dom : Dom) (rng : Rng) (g : t)
  : option (Rng * t) :=
  let x := (clientX e - rect_left dom)%Q in
  let y := (clientY e - rect_top dom)%Q in
  let col := JS.floor (x / inject_Z cellSize) in
  let row := JS.floor (y / inject_Z cellSize) in
  match
    JS.forM (JS.range (-1) 2) (fun i =>
      JS.forM (JS.range (-1) 2) (fun j => paint g col row i j))
      (rng, grid g)
  with
  | Some (rng', gr') => Some (rng', set_grid g gr')
  | None => None
  end.

(** The neighbour count of [update] for cell [(i, j)]: the two inner loops
    over [x] and [y], skipping [(0, 0)], reading [this.grid]. *)
Definition count_neighbors (g : t) (i j : Z) : option Z :=
  JS.forM (JS.range (-1) 2) (fun x =>
    JS.forM (JS.range (-1) 2) (fun y neighbors =>
      if (x =? 0) && (y =? 0) then Some neighbors
      else
        match JS.rem (i + x + cols g) (cols g),
              JS.rem (j + y + rows g) (rows g) with
        | Some col, Some row =>
            match get2 (grid g) col row with
            | Some v => Some (neighbors + v)
            | None => None
            end
        | _, _ => None
        end))
    0.

(** Conway's rules as [update] writes them. *)
Definition rules (state neighbors : Z) : Z :=
  if (state =? 0) && (neighbors =? 3) then 1
  else if (state =? 1) && ((neighbors <? 2) || (neighbors >? 3)) then 0
  else state.

(** [update]: [next] starts as a copy of the grid, every cell of [next] is
    written from reads of [this.grid], then [next] replaces the grid. *)
Definition update (g : t) : option t :=
  let next := map (fun arr => arr) (grid g) in
  match
    JS.forM (JS.range 0 (cols g)) (fun i =>
      JS.forM (JS.range 0 (rows g)) (fun j next =>
        match get2 (grid g) i j, count_neighbors g i j with
        | Some state, Some neighbors => set2 next i j (rules state neighbors)
        | _, _ => None
        end))
      next
  with
  | Some next' => Some (set_grid g next')
  | None => None
  end.

(** [draw]: a square of side [cellSize - 1] for every live cell. Reading
    a cell of a missing column throws; a missing cell compares unequal
    to [1]. *)
Definition draw (g : t) : option (list (CanvasOp Q)) :=
  match
    JS.forM (JS.range 0 (cols g)) (fun i =>
      JS.forM (JS.range 0 (rows g)) (fun j ops =>
        match JS.get (grid g) i with
        | None => None
        | Some column =>
            match JS.get column j with
            | Some 1 =>
                Some (ops ++ [SetGlobalAlpha (4 # 10)%Q;
                              FillRect (inject_Z (i * cellSize))
                                       (inject_Z (j * cellSize))
                                       (inject_Z (cellSize - 1))
                                       (inject_Z (cellSize - 1))])
            | _ => Some ops
            end
        end))
      [ClearRect 0%Q 0%Q (inject_Z (width g)) (inject_Z (height g));
       SetFillStyle (Hex (color g))]
  with
  | Some ops => Some (ops ++ [SetGlobalAlpha 1%Q])
  | None => None
  end.

(** The glider of the [patterns] table. *)
Definition glider : list (list Z) := [[0; 1; 0]; [0; 0; 1]; [1; 1; 1]].

(** [this.grid[c][r] = v], with the ways it ends told apart: indexing the
    missing column [this.grid[c]] throws; a row index outside the column is
    an assignment the lists do not represent. *)
Definition assign2 (gr : Grid) (c r : Z) (v : Z) : JS.Completion Grid :=
  match JS.get gr c with
  | None => JS.Throws
  | Some column =>
      match JS.set column r v with
      | Some column' =>
          match JS.set gr c column' with
          | Some gr' => JS.Returns gr'
          | None => JS.Unrepresented
          end
      | None => JS.Unrepresented
      end
  end.

(** [placePattern]. The loops stay below [pattern.length] and
    [pattern[i].length], so [pattern[i]] and [pattern[i][j]] are there. *)
Definition placePattern (x y : Z) (pattern : list (list Z)) (g : t)
  : JS.Completion t :=
  match
    JS.forC (JS.range 0 (Z.of_nat (length pattern))) (fun i gr =>
      match JS.get pattern i with
      | None => JS.Throws
      | Some line =>
          JS.forC (JS.range 0 (Z.of_nat (length line))) (fun j gr =>
            if (x + i <? cols g) && (y + j <? rows g) then
              match JS.get line j with
              | Some v => assign2 gr (x + i) (y + j) v
              | None => JS.Unrepresented
              end
            else JS.Returns gr) gr
      end)
      (grid g)
  with
  | JS.Returns gr' => JS.Returns (set_grid g gr')
  | JS.Throws => JS.Throws
  | JS.Unrepresented => JS.Unrepresented
  end.

(** [n] frames' worth of [update]. *)
Fixpoint updates (n : nat) (g : t) : option t :=
  match n with
  | O => Some g
  | S k =>
      match update g with
      | Some g' => updates k g'
      | None => None
      end
  end.

(** *** Vocabulary of the specification *)

(** The lengths of the columns of a grid. *)
Definition shape (gr : Grid) : list nat := map (@length Z) gr.

(** The grid has [cols] columns of [rows] cells. *)
Definition well_formed (g : t) : Prop :=
  0 <= cols g /\ 0 <= rows g /\
  shape (grid g) = repeat (Z.to_nat (rows g)) (Z.to_nat (cols g)).

(** The state of a cell of the grid ([0] outside the grid). *)
Definition cell (gr : Grid) (c r : Z) : Z :=
  match get2 gr c r with Some v => v | None => 0 end.

(** The eight offsets to the neighbours of a cell. *)
Definition neighbourhood : list (Z * Z) :=
  [(-1, -1); (-1, 0); (-1, 1); (0, -1); (0, 1); (1, -1); (1, 0); (1, 1)].

(** The nine offsets of the 3 x 3 block around a cell, in the order the
    pointer handler visits them. *)
Definition block : list (Z * Z) :=
  [(-1, -1); (-1, 0); (-1, 1); (0, -1); (0, 0); (0, 1); (1, -1); (1, 0);
   (1, 1)].

(** The cell at offset [(x, y)] from [(i, j)] on the torus. *)
Definition wrapped (g : t) (i j : Z) (o : Z * Z) : Z * Z :=
  ((i + fst o) mod cols g, (j + snd o) mod rows g).

(** The number of live cells among the eight toroidal neighbours of
    [(i, j)]. *)
Definition alive_neighbours (g : t) (i j : Z) : Z :=
  fold_right Z.add 0
    (map (fun o => cell (grid g) (fst (wrapped g i j o)) (snd (wrapped g i j o)))
         neighbourhood).

(** The cell the pointer at surface coordinates [(x, y)] covers. *)
Definition covered (x y : Q) : Z * Z :=
  (JS.floor (x / 8), JS.floor (y / 8)).

(** The cell of a grid seeded from the draw [u]. *)
Definition sample (u : Q) : Z := if JS.ltb u (15 # 100) then 1 else 0.

(** The iterations of the two loops of [handleMouseMove] one after the
    other, for a list of offsets. *)
Fixpoint paint_each (g : t) (col row : Z) (offsets : list (Z * Z))
    (st : Rng * Grid) : option (Rng * Grid) :=
  match offsets with
  | [] => Some st
  | o :: rest =>
      match paint g col row (fst o) (snd o) st with
      | Some st' => paint_each g col row rest st'
      | None => None
      end
  end.

(** [gr'] has the shape of [gr], and every cell of [gr'] is as in [gr] or
    is a cell of [gr] that has been set to [1]. *)
Definition only_revives (gr gr' : Grid) : Prop :=
  shape gr' = shape gr /\
  forall c r,
    get2 gr' c r = get2 gr c r \/
    ((exists old, get2 gr c r = Some old) /\ get2 gr' c r = Some 1).

Definition same_cell (p q : Z * Z) : bool :=
  (fst p =? fst q) && (snd p =? snd q).

(** Painting the toroidal block around [(col, row)], one draw per offset
    starting at draw number [cur]: the cell [(a, b)] is set alive when an
    offset wraps to it and the draw of that offset exceeds [0.3]. *)
Fixpoint painted (g : t) (col row : Z) (u : nat -> Q) (cur : nat)
    (offsets : list (Z * Z)) (a b : Z) : bool :=
  match offsets with
  | [] => false
  | o :: rest =>
      (same_cell (wrapped g col row o) (a, b) && JS.gtb (u cur) (3 # 10))
      || painted g col row u (S cur) rest a b
  end.

(** The pointer handler as the specification words it: around the covered
    cell, each of the nine toroidally wrapped cells gets its own draw and is
    set alive when the draw exceeds [0.3]; every other cell, and every cell
    whose draws are all lower, is unchanged. *)
Definition paints_wrapped_block (e : MouseEvent) (dom : Dom) (rng : Rng)
    (g : t) : Prop :=
  let (col, row) :=
    covered (clientX e - rect_left dom)%Q (clientY e - rect_top dom)%Q in
  exists rng' g',
    handleMouseMove e dom rng g = Some (rng', g') /\
    shape (grid g') = shape (grid g) /\
    forall a b, 0 <= a < cols g -> 0 <= b < rows g ->
      get2 (grid g') a b
      = Some (if painted g col row (draws rng) (cursor rng) block a b
              then 1 else cell (grid g) a b).

(** Every cell of the grid holds [0] or [1]. *)
Definition binary (gr : Grid) : Prop :=
  forall c r v, get2 gr c r = Some v -> v = 0 \/ v = 1.

(** No cell of the grid is alive. *)
Definition dead (gr : Grid) : Prop :=
  forall c r v, get2 gr c r = Some v -> v = 0.


(** [g'] is [g] moved on the torus: it has the dimensions of [g], and the
    cell [(c, r)] of [g'] is the cell [(c + a, r + b)] of [g], the indices
    taken modulo the dimensions. *)
Definition shifted (a b : Z) (g g' : t) : Prop :=
  cols g' = cols g /\ rows g' = rows g /\
  forall c r, 0 <= c < cols g -> 0 <= r < rows g ->
    cell (grid g') c r
    = cell (grid g) ((c + a) mod cols g) ((r + b) mod rows g).

(** The value [pattern[i][j]], when there is one. *)
Definition pattern_cell (pattern : list (list Z)) (i j : Z) : option Z :=
  match JS.get pattern i with
  | Some line => JS.get line j
  | None => None
  end.

End GameOfLife.

(** ** Real-number primitives of the particle field and the node graph *)

Module RMath.

Local Open Scope R_scope.

(** [a < b] and [a > b] on numbers. *)
Definition ltb (a b : R) : bool := if Rlt_dec a b then true else false.
Definition gtb (a b : R) : bool := ltb b a.

(** [Math.atan2(y, x)]: the angle of the vector [(x, y)], in [(-PI, PI]];
    [0] for the null vector. *)
Definition atan2 (y x : R) : R :=
  if Rlt_dec 0 x then atan (y / x)
  else if Rlt_dec x 0 then
    if Rle_dec 0 y then atan (y / x) + PI else atan (y / x) - PI
  else if Rlt_dec 0 y then PI / 2
  else if Rlt_dec y 0 then - (PI / 2)
  else 0.

(** [a / b] on numbers, where it is a number: [0 / 0] is [NaN] (here
    [None]), and [a / 0] for another [a] is an infinity, which no division
    of this program produces (a divisor that is [0] is the length of a vector
    whose components are the dividends). *)
Definition div (a b : R) : option R :=
  if Req_EM_T b 0 then None else Some (a / b).

(** A [Math.random()] draw as a real number. *)
Definition randomR (rng : Rng) : R * Rng :=
  let (u, rng') := random rng in (Q2R u, rng').

End RMath.

(** ** [class Particle] and [class ParticleAttractor] *)

Module Particle.

Local Open Scope R_scope.

Record t := mk { x : R; y : R; vx : R; vy : R; size : R }.

(** [reset(w, h)] *)
Definition reset (w h : R) (rng : Rng) (p : t) : Rng * t :=
  let (u1, rng1) := RMath.randomR rng in
  let angle := u1 * PI * 2 in
  let (u2, rng2) := RMath.randomR rng1 in
  let r := Rmin w h / 2 + u2 * 50 in
  let (u3, rng3) := RMath.randomR rng2 in
  let speed := u3 * 2 + 1 in
  (rng3, mk (w / 2 + cos angle * r) (h / 2 + sin angle * r)
            (- sin angle * speed) (cos angle * speed) (size p)).

(** [constructor(w, h)] *)
Definition constructor (w h : R) (rng : Rng) : Rng * t :=
  let (u0, rng0) := RMath.randomR rng in
  let p := mk 0 0 0 0 (u0 * 2 + 1) in
  let (rng1, p1) := reset w h rng0 p in
  let (ux, rng2) := RMath.randomR rng1 in
  let (uy, rng3) := RMath.randomR rng2 in
  (rng3, mk (ux * w) (uy * h) (vx p1) (vy p1) (size p1)).

(** A particle as the field holds it from one frame to the next. Its [size]
    is a number. Its [x], [y], [vx] and [vy] are numbers, or all four are
    [NaN]: [update] makes them so together (a [NaN] velocity is added to the
    position), and only [reset], which assigns all four, ends it. *)
Inductive state :=
| Numbers (p : t)
| NaNs (size : R).

Definition radius (s : state) : R :=
  match s with
  | Numbers p => size p
  | NaNs r => r
  end.

(** [reset(w, h)] on a particle in either state: it assigns [x], [y], [vx]
    and [vy] and reads none of them. *)
Definition reset_state (w h : R) (rng : Rng) (s : state) : Rng * state :=
  let (rng', p) :=
    match s with
    | Numbers p => reset w h rng p
    | NaNs r => reset w h rng (mk 0 0 0 0 r)
    end in
  (rng', Numbers p).

End Particle.

Module ParticleAttractor.

Local Open Scope R_scope.

Record t := mk {
  ctx : Ctx;
  width : Z;
  height : Z;
  particles : list Particle.state;
  animationId : option Z;
  color : string;
  particleCount : Z;
  mouse : R * R
}.

(** The pointer position before the first pointer move. *)
Definition default_mouse : R * R := (-1000, -1000).

Definition set_particles (a : t) (ps : list Particle.state) : t :=
  mk (ctx a) (width a) (height a) ps (animationId a) (color a)
     (particleCount a) (mouse a).

(** [handleMouseMove] *)
Definition handleMouseMove (e : MouseEvent) (dom : Dom) (a : t) : t :=
  mk (ctx a) (width a) (height a) (particles a) (animationId a) (color a)
     (particleCount a)
     (Q2R (clientX e - rect_left dom), Q2R (clientY e - rect_top dom)).

(** The loop of [createParticles]: [n] pushes of a new particle. *)
Fixpoint push_particles (n : nat) (w h : R) (rng : Rng)
    (ps : list Particle.state) : Rng * list Particle.state :=
  match n with
  | O => (rng, ps)
  | S k =>
      let (rng', p) := Particle.constructor w h rng in
      push_particles k w h rng' (ps ++ [Particle.Numbers p])
  end.

(** [createParticles] *)
Definition createParticles (rng : Rng) (a : t) : Rng * t :=
  let (rng', ps) :=
    push_particles (Z.to_nat (particleCount a)) (IZR (width a))
                   (IZR (height a)) rng [] in
  (rng', set_particles a ps).

(** [resize]: [Math.floor(area / 2000)] on integers is [Z.div]. *)
Definition resize (dom : Dom) (rng : Rng) (a : t) : Rng * t :=
  let (w, h) := surface_size dom in
  let area := (w * h)%Z in
  let count := Z.min 600 (area / 2000)%Z in
  createParticles rng
    (mk (ctx a) w h (particles a) (animationId a) (color a) count (mouse a)).

(** [constructor] *)
Definition constructor (canvas : Canvas) (color : string) (dom : Dom)
    (rng : Rng) : Constructed (Rng * t) :=
  match getContext2d canvas with
  | None => Error "Could not get canvas context"
  | Some context =>
      Instance
        (resize dom rng
           (mk context (Z.of_N (canvas_width canvas))
               (Z.of_N (canvas_height canvas)) [] None color 200
               default_mouse))
  end.

(** The callback of [this.particles.forEach] in [update], for a particle
    [p] whose coordinates are numbers; [w] and [h] are [this.width] and
    [this.height]. With the pointer exactly on the particle, [mdx / mDist]
    and [mdy / mDist] are [0 / 0]: the velocity, and with it the position,
    become [NaN]. Every comparison with [NaN] is false, so the second test
    leaves such a particle as it is. *)
Definition update_particle (w h : R) (mouse : R * R) (rng : Rng)
    (p : Particle.t) : Rng * Particle.state :=
  let centerX := w / 2 in
  let centerY := h / 2 in
  let dx := centerX - Particle.x p in
  let dy := centerY - Particle.y p in
  let distSq := dx * dx + dy * dy in
  let dist := sqrt distSq in
  let force := 1000 / (dist + 50) in
  let angle := RMath.atan2 dy dx in
  let vx1 := Particle.vx p + cos angle * force * 0.5 in
  let vy1 := Particle.vy p + sin angle * force * 0.5 in
  let mdx := fst mouse - Particle.x p in
  let mdy := snd mouse - Particle.y p in
  let mDist := sqrt (mdx * mdx + mdy * mdy) in
  let v2 :=
    if RMath.ltb mDist 200 then
      let repForce := (200 - mDist) * 0.05 in
      match RMath.div mdx mDist, RMath.div mdy mDist with
      | Some ux, Some uy => Some (vx1 - ux * repForce, vy1 - uy * repForce)
      | _, _ => None
      end
    else Some (vx1, vy1) in
  let s1 :=
    match v2 with
    | Some (vx2, vy2) =>
        let vx3 := vx2 * 0.95 in
        let vy3 := vy2 * 0.95 in
        Particle.Numbers
          (Particle.mk (Particle.x p + vx3) (Particle.y p + vy3) vx3 vy3
                       (Particle.size p))
    | None => Particle.NaNs (Particle.size p)
    end in
  let (rng1, s2) :=
    if RMath.ltb dist 10 then Particle.reset_state w h rng s1 else (rng, s1) in
  match s2 with
  | Particle.Numbers p2 =>
      if RMath.ltb (Particle.x p2) (-200) || RMath.gtb (Particle.x p2) (w + 200)
         || RMath.ltb (Particle.y p2) (-200)
         || RMath.gtb (Particle.y p2) (h + 200)
      then Particle.reset_state w h rng1 s2
      else (rng1, s2)
  | Particle.NaNs _ => (rng1, s2)
  end.

(** The same callback for a particle in either state. From [NaN]
    coordinates every sum, product and square root of the callback is [NaN]
    and each of its three tests is false: nothing is assigned but [NaN]s, no
    draw is read. *)
Definition update_state (w h : R) (mouse : R * R) (rng : Rng)
    (s : Particle.state) : Rng * Particle.state :=
  match s with
  | Particle.Numbers p => update_particle w h mouse rng p
  | Particle.NaNs _ => (rng, s)
  end.

(** [forEach] over the particles, in order, threading the draws. *)
Fixpoint forEach (f : Rng -> Particle.state -> Rng * Particle.state)
    (rng : Rng) (ps : list Particle.state) : Rng * list Particle.state :=
  match ps with
  | [] => (rng, [])
  | p :: rest =>
      let (rng1, p') := f rng p in
      let (rng2, rest') := forEach f rng1 rest in
      (rng2, p' :: rest')
  end.

(** [update] *)
Definition update (rng : Rng) (a : t) : Rng * t :=
  let (rng', ps) :=
    forEach (update_state (IZR (width a)) (IZR (height a)) (mouse a))
            rng (particles a) in
  (rng', set_particles a ps).

(** [draw]: the fading fill, then one disc per particle. [arc] returns at
    once when an argument is [NaN], and [fill] then has no path to paint. *)
Definition draw (a : t) : list (CanvasOp R) :=
  [SetCompositeOperation "destination-out";
   SetFillStyle (Rgba "#ffffff" 0.1);
   FillRect 0 0 (IZR (width a)) (IZR (height a));
   SetCompositeOperation "source-over";
   SetFillStyle (Hex (color a))]
  ++ flat_map
       (fun s =>
          match s with
          | Particle.Numbers p =>
              [FillCircle (Particle.x p) (Particle.y p) (Particle.size p)]
          | Particle.NaNs _ => []
          end)
       (particles a).

(** [n] frames' worth of [update]. *)
Fixpoint updates (n : nat) (rng : Rng) (a : t) : Rng * t :=
  match n with
  | O => (rng, a)
  | S k => let (rng', a') := update rng a in updates k rng' a'
  end.

(** *** Vocabulary of the specification *)

(** [Math.random()] returns a number in [[0, 1)]. *)
Definition unit_draws (rng : Rng) : Prop :=
  forall k, 0 <= Q2R (draws rng k) < 1.

Definition distance_to_center (w h : R) (p : Particle.t) : R :=
  sqrt ((w / 2 - Particle.x p) * (w / 2 - Particle.x p)
        + (h / 2 - Particle.y p) * (h / 2 - Particle.y p)).

Definition distance_to_pointer (mouse : R * R) (p : Particle.t) : R :=
  sqrt ((fst mouse - Particle.x p) * (fst mouse - Particle.x p)
        + (snd mouse - Particle.y p) * (snd mouse - Particle.y p)).

(** The magnitude of the velocity. *)
Definition speed (p : Particle.t) : R :=
  sqrt (Particle.vx p * Particle.vx p + Particle.vy p * Particle.vy p).

(** Step 1: gravity toward the centre of the surface. *)
Definition gravity (w h : R) (p : Particle.t) : Particle.t :=
  let force := 1000 / (distance_to_center w h p + 50) in
  let angle := RMath.atan2 (h / 2 - Particle.y p) (w / 2 - Particle.x p) in
  Particle.mk (Particle.x p) (Particle.y p)
    (Particle.vx p + cos angle * force * 0.5)
    (Particle.vy p + sin angle * force * 0.5) (Particle.size p).

(** Step 2: repulsion from a pointer closer than 200. *)
Definition repulsion (mouse : R * R) (p : Particle.t) : Particle.t :=
  let d := distance_to_pointer mouse p in
  if Rlt_dec d 200 then
    Particle.mk (Particle.x p) (Particle.y p)
      (Particle.vx p - (fst mouse - Particle.x p) / d * ((200 - d) * 0.05))
      (Particle.vy p - (snd mouse - Particle.y p) / d * ((200 - d) * 0.05))
      (Particle.size p)
  else p.

(** Step 3: damping. *)
Definition damping (p : Particle.t) : Particle.t :=
  Particle.mk (Particle.x p) (Particle.y p) (Particle.vx p * 0.95)
    (Particle.vy p * 0.95) (Particle.size p).

(** Step 4: the position advances by the velocity. *)
Definition integrate (p : Particle.t) : Particle.t :=
  Particle.mk (Particle.x p + Particle.vx p) (Particle.y p + Particle.vy p)
    (Particle.vx p) (Particle.vy p) (Particle.size p).

(** Steps 1 to 4, in that order. *)
Definition physics (w h : R) (mouse : R * R) (p : Particle.t) : Particle.t :=
  integrate (damping (repulsion mouse (gravity w h p))).

(** The two respawn conditions of step 5. *)
Definition event_horizon (w h : R) (p : Particle.t) : Prop :=
  distance_to_center w h p < 10.

Definition lost_in_space (w h : R) (p : Particle.t) : Prop :=
  Particle.x p < -200 \/ Particle.x p > w + 200 \/
  Particle.y p < -200 \/ Particle.y p > h + 200.

(** The particle [p] is what the reset policy makes of the three draws
    [u1], [u2], [u3]: on the ring of radius [min(w, h) / 2 + 50 u2] around the
    centre at the angle [2 PI u1], moving along the tangent at the speed
    [1 + 2 u3]. *)
Definition respawned (w h u1 u2 u3 : R) (p : Particle.t) : Prop :=
  let theta := 2 * PI * u1 in
  let r := Rmin w h / 2 + 50 * u2 in
  let s := 1 + 2 * u3 in
  (0 <= theta < 2 * PI) /\ (0 <= 50 * u2 < 50) /\ (1 <= s < 3) /\
  Particle.x p = w / 2 + cos theta * r /\
  Particle.y p = h / 2 + sin theta * r /\
  Particle.vx p = - sin theta * s /\
  Particle.vy p = cos theta * s.

(** Step 5: the two respawn tests, for the particle [p] the call started
    from and the particle [q] that steps 1 to 4 made of it. *)
Definition respawn_tests (w h : R) (rng : Rng) (p q : Particle.t)
  : Rng * Particle.t :=
  let (rng1, q1) :=
    if RMath.ltb (distance_to_center w h p) 10 then Particle.reset w h rng q
    else (rng, q) in
  if RMath.ltb (Particle.x q1) (-200) || RMath.gtb (Particle.x q1) (w + 200)
     || RMath.ltb (Particle.y q1) (-200) || RMath.gtb (Particle.y q1) (h + 200)
  then Particle.reset w h rng1 q1
  else (rng1, q1).

(** Steps 1 to 5 on numbers. *)
Definition step (w h : R) (mouse : R * R) (rng : Rng) (p : Particle.t)
  : Rng * Particle.t :=
  respawn_tests w h rng p (physics w h mouse p).

Definition as_numbers (r : Rng * Particle.t) : Rng * Particle.state :=
  (fst r, Particle.Numbers (snd r)).

(** The coordinates of the particle are numbers, and they satisfy [P]. *)
Definition numbers (P : Particle.t -> Prop) (s : Particle.state) : Prop :=
  match s with
  | Particle.Numbers p => P p
  | Particle.NaNs _ => False
  end.

(** The particle at index [i] of the field. *)
Definition particle (a : t) (i : nat) : option Particle.state :=
  nth_error (particles a) i.

(** The stream of draws as the call of [update] on the field [a] hands it
    to the particle at index [i]: after the draws of the particles before
    it. *)
Definition stream_at (rng : Rng) (a : t) (i : nat) : Rng :=
  fst (forEach (update_state (IZR (width a)) (IZR (height a)) (mouse a)) rng
               (firstn i (particles a))).

(** The field with the pointer elsewhere. *)
Definition with_mouse (a : t) (m : R * R) : t :=
  mk (ctx a) (width a) (height a) (particles a) (animationId a) (color a)
     (particleCount a) m.

End ParticleAttractor.

(** ** [class Node] and [class NetworkGraph] *)

Module Node.

Local Open Scope R_scope.

Record t := mk { x : R; y : R; vx : R; vy : R; size : R }.

(** [constructor(w, h)] *)
Definition constructor (w h : R) (rng : Rng) : Rng * t :=
  let (ux, rng1) := RMath.randomR rng in
  let (uy, rng2) := RMath.randomR rng1 in
  let speed := 0.5 in
  let (uvx, rng3) := RMath.randomR rng2 in
  let (uvy, rng4) := RMath.randomR rng3 in
  let (us, rng5) := RMath.randomR rng4 in
  (rng5, mk (ux * w) (uy * h) ((uvx - 0.5) * speed) ((uvy - 0.5) * speed)
            (us * 2 + 1.5)).

End Node.

Module NetworkGraph.

Local Open Scope R_scope.

Record t := mk {
  ctx : Ctx;
  width : Z;
  height : Z;
  particles : list Node.t;
  animationId : option Z;
  color : string;
  particleCount : Z;
  mouse : R * R;
  connectionDistance : R
}.

Definition default_mouse : R * R := (-1000, -1000).

Definition set_particles (a : t) (ps : list Node.t) : t :=
  mk (ctx a) (width a) (height a) ps (animationId a) (color a)
     (particleCount a) (mouse a) (connectionDistance a).

(** [handleMouseMove] *)
Definition handleMouseMove (e : MouseEvent) (dom : Dom) (a : t) : t :=
  mk (ctx a) (width a) (height a) (particles a) (animationId a) (color a)
     (particleCount a)
     (Q2R (clientX e - rect_left dom), Q2R (clientY e - rect_top dom))
     (connectionDistance a).

(** The loop of [createParticles]. *)
Fixpoint push_nodes (n : nat) (w h : R) (rng : Rng) (ps : list Node.t)
  : Rng * list Node.t :=
  match n with
  | O => (rng, ps)
  | S k =>
      let (rng', p) := Node.constructor w h rng in
      push_nodes k w h rng' (ps ++ [p])
  end.

(** [createParticles] *)
Definition createParticles (rng : Rng) (a : t) : Rng * t :=
  let (rng', ps) :=
    push_nodes (Z.to_nat (particleCount a)) (IZR (width a)) (IZR (height a))
               rng [] in
  (rng', set_particles a ps).

(** [resize] *)
Definition resize (dom : Dom) (rng : Rng) (a : t) : Rng * t :=
  let (w, h) := surface_size dom in
  let area := (w * h)%Z in
  let isMobile := (w <? 768)%Z in
  let '(count, distance) :=
    if isMobile then (Z.min 50 (area / 10000)%Z, 120)
    else (Z.min 150 (area / 6000)%Z, 180) in
  let count := if (count <? 20)%Z then 20%Z else count in
  createParticles rng
    (mk (ctx a) w h (particles a) (animationId a) (color a) count (mouse a)
        distance).

(** [constructor] *)
Definition constructor (canvas : Canvas) (color : string) (dom : Dom)
    (rng : Rng) : Constructed (Rng * t) :=
  match getContext2d canvas with
  | None => Error "Could not get canvas context"
  | Some context =>
      Instance
        (resize dom rng
           (mk context (Z.of_N (canvas_width canvas))
               (Z.of_N (canvas_height canvas)) [] None color 60
               default_mouse 150))
  end.

(** [hexToRgba(hex, alpha)]: the colour with the given alpha. *)
Definition hexToRgba (hex : string) (alpha : R) : Style R := Rgba hex alpha.

Definition distance (x1 y1 x2 y2 : R) : R :=
  let dx := x1 - x2 in
  let dy := y1 - y2 in
  sqrt (dx * dx + dy * dy).

(** The inner loop of [draw] for the node [p1]: [rest] are the nodes of
    higher index, in order. *)
Fixpoint connect_peers (a : t) (p1 : Node.t) (rest : list Node.t)
  : list (CanvasOp R) :=
  match rest with
  | [] => []
  | p2 :: rest' =>
      let dist := distance (Node.x p1) (Node.y p1) (Node.x p2) (Node.y p2) in
      (if RMath.ltb dist (connectionDistance a) then
         let opacity := 1 - dist / connectionDistance a in
         [StrokeLine (hexToRgba (color a) (opacity * 0.5))
                     (Node.x p1) (Node.y p1) (Node.x p2) (Node.y p2)]
       else [])
      ++ connect_peers a p1 rest'
  end.

(** "Connect to mouse" for the node [p1]. *)
Definition connect_mouse (a : t) (p1 : Node.t) : list (CanvasOp R) :=
  let mDist :=
    distance (fst (mouse a)) (snd (mouse a)) (Node.x p1) (Node.y p1) in
  if RMath.ltb mDist (connectionDistance a + 50) then
    let opacity := 1 - mDist / (connectionDistance a + 50) in
    [StrokeLine (hexToRgba (color a) (opacity * 0.8))
                (Node.x p1) (Node.y p1) (fst (mouse a)) (snd (mouse a))]
  else [].

(** The outer loop of [draw] over the nodes from index [i] on. *)
Fixpoint connections (a : t) (ps : list Node.t) : list (CanvasOp R) :=
  match ps with
  | [] => []
  | p1 :: rest =>
      connect_peers a p1 rest ++ connect_mouse a p1 ++ connections a rest
  end.

Definition nodes (a : t) : list (CanvasOp R) :=
  map (fun p => FillCircle (Node.x p) (Node.y p) (Node.size p)) (particles a).

(** [draw] *)
Definition draw (a : t) : list (CanvasOp R) :=
  [ClearRect 0 0 (IZR (width a)) (IZR (height a)); SetLineWidth 1]
  ++ connections a (particles a)
  ++ [SetFillStyle (Hex (color a))]
  ++ nodes a.

(** The callback of [forEach] in [update]. *)
Definition update_node (w h : R) (p : Node.t) : Node.t :=
  let x1 := Node.x p + Node.vx p in
  let y1 := Node.y p + Node.vy p in
  let vx1 :=
    if RMath.ltb x1 0 || RMath.gtb x1 w then Node.vx p * -1 else Node.vx p in
  let vy1 :=
    if RMath.ltb y1 0 || RMath.gtb y1 h then Node.vy p * -1 else Node.vy p in
  Node.mk x1 y1 vx1 vy1 (Node.size p).

(** [update] *)
Definition update (a : t) : t :=
  set_particles a
    (map (update_node (IZR (width a)) (IZR (height a))) (particles a)).

(** *** Vocabulary of the specification *)

(** The alpha of the line between two nodes at distance [d], and of the line
    from a node to the pointer at distance [d], for the threshold [cd]. *)
Definition peer_alpha (cd d : R) : R := (1 - d / cd) * 0.5.
Definition pointer_alpha (cd d : R) : R := (1 - d / (cd + 50)) * 0.8.

(** The node at index [i]. *)
Definition node (a : t) (i : nat) : option Node.t := nth_error (particles a) i.

(** The line [draw] strokes between the nodes [p] and [q]. *)
Definition peer_line (a : t) (p q : Node.t) : CanvasOp R :=
  StrokeLine
    (Rgba (color a)
       (peer_alpha (connectionDistance a)
          (distance (Node.x p) (Node.y p) (Node.x q) (Node.y q))))
    (Node.x p) (Node.y p) (Node.x q) (Node.y q).

(** The line [draw] strokes from the node [p] to the pointer. *)
Definition pointer_line (a : t) (p : Node.t) : CanvasOp R :=
  StrokeLine
    (Rgba (color a)
       (pointer_alpha (connectionDistance a)
          (distance (fst (mouse a)) (snd (mouse a)) (Node.x p) (Node.y p))))
    (Node.x p) (Node.y p) (fst (mouse a)) (snd (mouse a)).

(** The lines of [draw] as the specification lists them, by indices: for
    the node at index [i], the line to each node at an index [j > i] that is
    closer than the threshold, [j] ascending, then the line to the pointer if
    it is closer than the threshold plus 50; and that for every index [i],
    ascending. *)
Definition line_between (a : t) (p q : Node.t) : list (CanvasOp R) :=
  if RMath.ltb (distance (Node.x p) (Node.y p) (Node.x q) (Node.y q))
               (connectionDistance a)
  then [peer_line a p q] else [].

Definition line_to_pointer (a : t) (p : Node.t) : list (CanvasOp R) :=
  if RMath.ltb
       (distance (fst (mouse a)) (snd (mouse a)) (Node.x p) (Node.y p))
       (connectionDistance a + 50)
  then [pointer_line a p] else [].

Definition lines_from (a : t) (i : nat) : list (CanvasOp R) :=
  match node a i with
  | Some p =>
      flat_map (fun j => match node a j with
                         | Some q => line_between a p q
                         | None => []
                         end)
               (seq (S i) (length (particles a) - S i))
      ++ line_to_pointer a p
  | None => []
  end.

Definition lines (a : t) : list (CanvasOp R) :=
  flat_map (lines_from a) (seq 0 (length (particles a))).

(** The node is on the surface, and within [m] of it. *)
Definition inside (w h : R) (p : Node.t) : Prop :=
  0 <= Node.x p <= w /\ 0 <= Node.y p <= h.

Definition near (w h m : R) (p : Node.t) : Prop :=
  - m <= Node.x p <= w + m /\ - m <= Node.y p <= h + m.

(** Along one axis of length [w]: the coordinate [x] is on the surface, or
    it is off it by less than one step of the velocity [v], which points
    back. *)
Definition returning (w x v : R) : Prop :=
  0 <= x <= w \/ (x < 0 /\ 0 <= x + v) \/ (w < x /\ x + v <= w).

(** A node in flight: on each axis it is on the surface or coming back to
    it, and no velocity component is above [m] in magnitude. *)
Definition in_flight (w h m : R) (p : Node.t) : Prop :=
  returning w (Node.x p) (Node.vx p) /\ returning h (Node.y p) (Node.vy p) /\
  Rabs (Node.vx p) <= m /\ Rabs (Node.vy p) <= m.

Definition is_line (op : CanvasOp R) : Prop :=
  match op with StrokeLine _ _ _ _ _ => True | _ => False end.

Definition is_circle (op : CanvasOp R) : Prop :=
  match op with FillCircle _ _ _ => True | _ => False end.

End NetworkGraph.

(** ** The window: animation frames and event listeners *)

Inductive EventType := ev_resize | ev_mousemove.

(** The two bound methods an instance registers. *)
Inductive Listener := bound_resize | bound_handleMouseMove.

(** The part of [window] an instance acts on: the counter the next frame
    handle comes from, the handles of its pending frame callbacks, and its
    registered listeners. *)
Record Window := mkWindow {
  frame_counter : Z;
  frames : list Z;
  listeners : list (EventType * Listener)
}.

Definition same_listener (a b : EventType * Listener) : bool :=
  match a, b with
  | (ev_resize, bound_resize), (ev_resize, bound_resize) => true
  | (ev_resize, bound_handleMouseMove), (ev_resize, bound_handleMouseMove) => true
  | (ev_mousemove, bound_resize), (ev_mousemove, bound_resize) => true
  | (ev_mousemove, bound_handleMouseMove),
    (ev_mousemove, bound_handleMouseMove) => true
  | _, _ => false
  end.

(** [requestAnimationFrame(this.loop)]: handles are positive and increase. *)
Definition requestAnimationFrame (w : Window) : Z * Window :=
  let h := (frame_counter w + 1)%Z in
  (h, mkWindow h (frames w ++ [h]) (listeners w)).

(** [cancelAnimationFrame(h)] *)
Definition cancelAnimationFrame (h : Z) (w : Window) : Window :=
  mkWindow (frame_counter w) (filter (fun k => negb (k =? h)%Z) (frames w))
           (listeners w).

(** [window.addEventListener(ty, l)]: a listener already registered for the
    type is not registered twice. *)
Definition addEventListener (ty : EventType) (l : Listener) (w : Window)
  : Window :=
  if existsb (same_listener (ty, l)) (listeners w) then w
  else mkWindow (frame_counter w) (frames w) (listeners w ++ [(ty, l)]).

(** [window.removeEventListener(ty, l)] *)
Definition removeEventListener (ty : EventType) (l : Listener) (w : Window)
  : Window :=
  mkWindow (frame_counter w) (frames w)
           (filter (fun k => negb (same_listener (ty, l) k)) (listeners w)).

(** ** The lifecycle of a visual

    [init], [destroy], [loop], [start] and [stop] are the same text in the
    three classes, up to the first statements of [init]; they are modelled once,
    over what they use of a class. *)

Module Visual.

Class Methods (T num : Type) := {
  animationId : T -> option Z;
  set_animationId : option Z -> T -> T;
  (** the statements of [init] before [this.start()] *)
  setup : Dom -> Rng -> T -> option (Rng * T);
  update : Rng -> T -> option (Rng * T);
  draw : T -> option (list (CanvasOp num));
  resize : Dom -> Rng -> T -> option (Rng * T);
  handleMouseMove : MouseEvent -> Dom -> Rng -> T -> option (Rng * T)
}.

Record World (T num : Type) := mkWorld {
  rng : Rng;
  window : Window;
  self : T;
  (** the calls [draw] has made on the drawing context so far *)
  screen : list (CanvasOp num)
}.
Arguments mkWorld {T num} rng window self screen.
Arguments rng {T num} w.
Arguments window {T num} w.
Arguments self {T num} w.
Arguments screen {T num} w.

(** JavaScript truthiness of [this.animationId]: [null] and [0] are falsy. *)
Definition truthy (a : option Z) : bool :=
  match a with
  | None => false
  | Some h => negb (h =? 0)%Z
  end.

Section Lifecycle.

Context {T num : Type} {M : Methods T num}.

(** [loop] *)
Definition loop (w : World T num) : option (World T num) :=
  match update (rng w) (self w) with
  | None => None
  | Some (rng1, s1) =>
      match draw s1 with
      | None => None
      | Some ops =>
          let (h, win) := requestAnimationFrame (window w) in
          Some (mkWorld rng1 win (set_animationId (Some h) s1)
                        (screen w ++ ops))
      end
  end.

(** [start] *)
Definition start (w : World T num) : option (World T num) :=
  if negb (truthy (animationId (self w))) then loop w else Some w.

(** [stop] *)
Definition stop (w : World T num) : World T num :=
  match animationId (self w) with
  | Some h =>
      if truthy (Some h) then
        mkWorld (rng w) (cancelAnimationFrame h (window w))
                (set_animationId None (self w)) (screen w)
      else w
  | None => w
  end.

(** [init] *)
Definition init (dom : Dom) (w : World T num) : option (World T num) :=
  match setup dom (rng w) (self w) with
  | None => None
  | Some (rng1, s1) =>
      match start (mkWorld rng1 (window w) s1 (screen w)) with
      | None => None
      | Some w1 =>
          Some (mkWorld (rng w1)
                  (addEventListener ev_mousemove bound_handleMouseMove
                     (addEventListener ev_resize bound_resize (window w1)))
                  (self w1) (screen w1))
      end
  end.

(** [destroy] *)
Definition destroy (w : World T num) : World T num :=
  let w1 := stop w in
  mkWorld (rng w1)
    (removeEventListener ev_mousemove bound_handleMouseMove
       (removeEventListener ev_resize bound_resize (window w1)))
    (self w1) (screen w1).

(** What can happen to an instance: the page calls a public method, or
    the host runs a pending frame callback or dispatches an event to the
    listeners registered for it. *)
Inductive Event :=
| CallInit (dom : Dom)
| CallStart
| CallStop
| CallDestroy
| AnimationFrame (h : Z)
| WindowResize (dom : Dom)
| MouseMove (e : MouseEvent) (dom : Dom).

Definition listening (ty : EventType) (l : Listener) (w : World T num) : bool :=
  existsb (same_listener (ty, l)) (listeners (window w)).

Definition with_self (w : World T num) (r : option (Rng * T))
  : option (World T num) :=
  match r with
  | Some (rng1, s1) => Some (mkWorld rng1 (window w) s1 (screen w))
  | None => None
  end.

Definition step (e : Event) (w : World T num) : option (World T num) :=
  match e with
  | CallInit dom => init dom w
  | CallStart => start w
  | CallStop => Some (stop w)
  | CallDestroy => Some (destroy w)
  | AnimationFrame h =>
      if existsb (Z.eqb h) (frames (window w)) then
        loop (mkWorld (rng w) (cancelAnimationFrame h (window w)) (self w)
                      (screen w))
      else Some w
  | WindowResize dom =>
      if listening ev_resize bound_resize w then
        with_self w (resize dom (rng w) (self w))
      else Some w
  | MouseMove e dom =>
      if listening ev_mousemove bound_handleMouseMove w then
        with_self w (handleMouseMove e dom (rng w) (self w))
      else Some w
  end.

(** An event of the host, as opposed to a call by the page. *)
Definition host_event (e : Event) : bool :=
  match e with
  | AnimationFrame _ | WindowResize _ | MouseMove _ _ => true
  | _ => false
  end.

(** The states an instance goes through: from a freshly constructed
    instance (no frame requested, nothing registered), by any events. *)
Definition fresh (valid : T -> Prop) (w : World T num) : Prop :=
  valid (self w) /\ animationId (self w) = None /\
  (0 <= frame_counter (window w))%Z /\
  frames (window w) = [] /\ listeners (window w) = [].

Inductive reachable (valid : T -> Prop) : World T num -> Prop :=
| reach_fresh w : fresh valid w -> reachable valid w
| reach_step e w w' :
    reachable valid w -> step e w = Some w' -> reachable valid w'.

(** What the lifecycle needs of a class: [valid] is an invariant of its
    methods, under which none of them throws, and only the lifecycle
    touches [animationId]. *)
Record Laws (valid : T -> Prop) : Prop := {
  get_set : forall a s, animationId (set_animationId a s) = a;
  valid_set : forall a s, valid s -> valid (set_animationId a s);
  setup_ok : forall dom r s, valid s ->
      exists r' s', setup dom r s = Some (r', s') /\ valid s' /\
                    animationId s' = animationId s;
  update_ok : forall r s, valid s ->
      exists r' s', update r s = Some (r', s') /\ valid s' /\
                    animationId s' = animationId s;
  draw_ok : forall s, valid s -> exists ops, draw s = Some ops;
  resize_ok : forall dom r s, valid s ->
      exists r' s', resize dom r s = Some (r', s') /\ valid s' /\
                    animationId s' = animationId s;
  handleMouseMove_ok : forall e dom r s, valid s ->
      exists r' s', handleMouseMove e dom r s = Some (r', s') /\ valid s' /\
                    animationId s' = animationId s
}.

(** The events of a list, one after the other. *)
Fixpoint run (es : list Event) (w : World T num) : option (World T num) :=
  match es with
  | [] => Some w
  | e :: rest =>
      match step e w with
      | Some w' => run rest w'
      | None => None
      end
  end.

(** The handle and the loop agree: [animationId] is a positive handle
    exactly when that handle is the one pending frame callback, and [null]
    exactly when no frame callback is pending; and only the two bound methods
    are registered, each for its own event. *)
Definition consistent (valid : T -> Prop) (w : World T num) : Prop :=
  valid (self w) /\
  (0 <= frame_counter (window w))%Z /\
  match animationId (self w) with
  | Some h => (0 < h <= frame_counter (window w))%Z /\ frames (window w) = [h]
  | None => frames (window w) = []
  end /\
  Forall (fun l => l = (ev_resize, bound_resize) \/
                   l = (ev_mousemove, bound_handleMouseMove))
         (listeners (window w)).

End Lifecycle.

End Visual.

(** ** The three classes as visuals *)

Module Visuals.

Definition GameOfLife_set_animationId (a : option Z) (g : GameOfLife.t)
  : GameOfLife.t :=
  GameOfLife.mk (GameOfLife.ctx g) (GameOfLife.width g) (GameOfLife.height g)
    (GameOfLife.cols g) (GameOfLife.rows g) (GameOfLife.grid g) a
    (GameOfLife.color g).

#[export] Instance GameOfLife_methods : Visual.Methods GameOfLife.t Q := {|
  Visual.animationId := GameOfLife.animationId;
  Visual.set_animationId := GameOfLife_set_animationId;
  Visual.setup := fun _ rng g => GameOfLife.seed rng (GameOfLife.createGrid g);
  Visual.update := fun rng g =>
    match GameOfLife.update g with
    | Some g' => Some (rng, g')
    | None => None
    end;
  Visual.draw := GameOfLife.draw;
  Visual.resize := GameOfLife.resize;
  Visual.handleMouseMove := GameOfLife.handleMouseMove
|}.

Definition ParticleAttractor_set_animationId (a : option Z)
    (s : ParticleAttractor.t) : ParticleAttractor.t :=
  ParticleAttractor.mk (ParticleAttractor.ctx s) (ParticleAttractor.width s)
    (ParticleAttractor.height s) (ParticleAttractor.particles s) a
    (ParticleAttractor.color s) (ParticleAttractor.particleCount s)
    (ParticleAttractor.mouse s).

#[export] Instance ParticleAttractor_methods
  : Visual.Methods ParticleAttractor.t R := {|
  Visual.animationId := ParticleAttractor.animationId;
  Visual.set_animationId := ParticleAttractor_set_animationId;
  Visual.setup := fun dom rng s => Some (ParticleAttractor.resize dom rng s);
  Visual.update := fun rng s => Some (ParticleAttractor.update rng s);
  Visual.draw := fun s => Some (ParticleAttractor.draw s);
  Visual.resize := fun dom rng s => Some (ParticleAttractor.resize dom rng s);
  Visual.handleMouseMove := fun e dom rng s =>
    Some (rng, ParticleAttractor.handleMouseMove e dom s)
|}.

Definition NetworkGraph_set_animationId (a : option Z) (s : NetworkGraph.t)
  : NetworkGraph.t :=
  NetworkGraph.mk (NetworkGraph.ctx s) (NetworkGraph.width s)
    (NetworkGraph.height s) (NetworkGraph.particles s) a (NetworkGraph.color s)
    (NetworkGraph.particleCount s) (NetworkGraph.mouse s)
    (NetworkGraph.connectionDistance s).

#[export] Instance NetworkGraph_methods : Visual.Methods NetworkGraph.t R := {|
  Visual.animationId := NetworkGraph.animationId;
  Visual.set_animationId := NetworkGraph_set_animationId;
  Visual.setup := fun dom rng s => Some (NetworkGraph.resize dom rng s);
  Visual.update := fun rng s => Some (rng, NetworkGraph.update s);
  Visual.draw := fun s => Some (NetworkGraph.draw s);
  Visual.resize := fun dom rng s => Some (NetworkGraph.resize dom rng s);
  Visual.handleMouseMove := fun e dom rng s =>
    Some (rng, NetworkGraph.handleMouseMove e dom s)
|}.

End Visuals.

(** ** The factory [createRandomVisual] *)

Module VisualFactory.

(** [type VisualInstance] *)
Inductive VisualInstance :=
| IsGameOfLife (g : GameOfLife.t)
| IsParticleAttractor (a : ParticleAttractor.t)
| IsNetworkGraph (n : NetworkGraph.t).

(** [createRandomVisual]: an error thrown by the constructor it picks is
    thrown by the factory. *)
Definition createRandomVisual (canvas : Canvas) (color : string) (dom : Dom)
    (rng : Rng) : option (Constructed (Rng * VisualInstance)) :=
  let (rand, rng1) := random rng in
  if JS.ltb rand (33 # 100) then
    match GameOfLife.constructor canvas color dom rng1 with
    | Some (Instance (rng2, g)) => Some (Instance (rng2, IsGameOfLife g))
    | Some (Error message) => Some (Error message)
    | None => None
    end
  else if JS.ltb rand (66 # 100) then
    match ParticleAttractor.constructor canvas color dom rng1 with
    | Instance (rng2, a) => Some (Instance (rng2, IsParticleAttractor a))
    | Error message => Some (Error message)
    end
  else
    match NetworkGraph.constructor canvas color dom rng1 with
    | Instance (rng2, n) => Some (Instance (rng2, IsNetworkGraph n))
    | Error message => Some (Error message)
    end.

(** The drawing context an instance holds. *)
Definition context (v : VisualInstance) : Ctx :=
  match v with
  | IsGameOfLife g => GameOfLife.ctx g
  | IsParticleAttractor a => ParticleAttractor.ctx a
  | IsNetworkGraph n => NetworkGraph.ctx n
  end.

End VisualFactory.

(** The two registrations [init] makes, in the order it makes them. *)
Definition attached : list (EventType * Listener) :=
  [(ev_resize, bound_resize); (ev_mousemove, bound_handleMouseMove)].

(** * Properties *)

(** ** Arrays and loops *)

Module JSFacts.

Local Open Scope Z_scope.

Lemma range_nil lo hi : hi <= lo -> JS.range lo hi = [].
Proof.
  intros H. unfold JS.range.
  replace (Z.to_nat (hi - lo)) with O by lia. reflexivity.
Qed.

Lemma range_cons lo hi :
  lo < hi -> JS.range lo hi = lo :: JS.range (lo + 1) hi.
Proof.
  intros H. unfold JS.range.
  replace (Z.to_nat (hi - lo)) with (S (Z.to_nat (hi - (lo + 1)))) by lia.
  cbn [seq map]. f_equal; [lia|].
  rewrite <- seq_shift, map_map.
  apply map_ext. intros k. lia.
Qed.

(** A loop returns what the loop over the returned values of its bodies
    gives. *)
Lemma returned_forC {S : Type} (idx : list Z)
    (bodyC : Z -> S -> JS.Completion S) (bodyM : Z -> S -> option S) :
  (forall i s, JS.returned (bodyC i s) = bodyM i s) ->
  forall s, JS.returned (JS.forC idx bodyC s) = JS.forM idx bodyM s.
Proof.
  intros Hbody. induction idx as [|i rest IH]; intros s; [reflexivity|].
  cbn [JS.forC JS.forM]. rewrite <- (Hbody i s).
  destruct (bodyC i s); cbn [JS.returned]; [apply IH | reflexivity..].
Qed.

(** The rule of the counting loop: an invariant [I k] ("the indices below
    [k] are done") that every iteration re-establishes holds at the end,
    and the loop does not fail. *)
Lemma forM_range {S : Type} (I : Z -> S -> Prop) (body : Z -> S -> option S)
    (lo hi : Z) (s0 : S) :
  lo <= hi ->
  I lo s0 ->
  (forall k s, lo <= k < hi -> I k s ->
               exists s', body k s = Some s' /\ I (k + 1) s') ->
  exists s', JS.forM (JS.range lo hi) body s0 = Some s' /\ I hi s'.
Proof.
  intros Hle. remember (Z.to_nat (hi - lo)) as n eqn:Hn.
  revert lo s0 Hle Hn. induction n as [|n IH]; intros lo s0 Hle Hn H0 Hstep.
  - assert (lo = hi) by lia. subst lo.
    rewrite range_nil by lia. exists s0. split; [reflexivity | assumption].
  - rewrite range_cons by lia. cbn [JS.forM].
    destruct (Hstep lo s0 ltac:(lia) H0) as [s1 [Hb H1]]. rewrite Hb.
    apply IH; [lia | lia | assumption |].
    intros k s Hk. apply Hstep. lia.
Qed.

Lemma get_Some {A : Type} (a : list A) i :
  0 <= i < Z.of_nat (length a) -> exists v, JS.get a i = Some v.
Proof.
  intros H. unfold JS.get.
  destruct (Z.ltb_spec i 0); [lia|].
  destruct (nth_error a (Z.to_nat i)) eqn:E; [eauto|].
  apply nth_error_None in E. lia.
Qed.

Lemma get_range {A : Type} (a : list A) i v :
  JS.get a i = Some v -> 0 <= i < Z.of_nat (length a).
Proof.
  unfold JS.get. destruct (Z.ltb_spec i 0); [discriminate|].
  intros E. assert (nth_error a (Z.to_nat i) <> None) as Hn by congruence.
  apply nth_error_Some in Hn. lia.
Qed.

Lemma set_nat_Some {A : Type} (a : list A) n v :
  (n < length a)%nat -> exists a', JS.set_nat a n v = Some a'.
Proof.
  revert n. induction a as [|h t IH]; intros n H; cbn in *; [lia|].
  destruct n as [|n]; [eauto|].
  destruct (IH n ltac:(lia)) as [t' E]. rewrite E. eauto.
Qed.

Lemma set_nat_length {A : Type} (a a' : list A) n v :
  JS.set_nat a n v = Some a' -> length a' = length a.
Proof.
  revert n a'. induction a as [|h t IH]; intros n a' H; cbn in *;
    [discriminate|].
  destruct n as [|n].
  - injection H as <-. reflexivity.
  - destruct (JS.set_nat t n v) eqn:E; [|discriminate].
    injection H as <-. cbn. f_equal. eapply IH. exact E.
Qed.

Lemma set_nat_nth {A : Type} (a a' : list A) n v k :
  JS.set_nat a n v = Some a' ->
  nth_error a' k = if Nat.eqb k n then Some v else nth_error a k.
Proof.
  revert n a' k. induction a as [|h t IH]; intros n a' k H; cbn in *;
    [discriminate|].
  destruct n as [|n].
  - injection H as <-. destruct k; reflexivity.
  - destruct (JS.set_nat t n v) eqn:E; [|discriminate].
    injection H as <-. destruct k as [|k]; [reflexivity|].
    cbn. eapply IH. exact E.
Qed.

Lemma set_Some {A : Type} (a : list A) i v :
  0 <= i < Z.of_nat (length a) -> exists a', JS.set a i v = Some a'.
Proof.
  intros H. unfold JS.set. destruct (Z.ltb_spec i 0); [lia|].
  apply set_nat_Some. lia.
Qed.

Lemma set_length {A : Type} (a a' : list A) i v :
  JS.set a i v = Some a' -> length a' = length a.
Proof.
  unfold JS.set. destruct (i <? 0); [discriminate|]. apply set_nat_length.
Qed.

Lemma get_set {A : Type} (a a' : list A) i v k :
  JS.set a i v = Some a' ->
  JS.get a' k = if k =? i then Some v else JS.get a k.
Proof.
  unfold JS.set, JS.get. destruct (Z.ltb_spec i 0); [discriminate|].
  intros E. destruct (Z.ltb_spec k 0).
  - destruct (Z.eqb_spec k i); [lia | reflexivity].
  - rewrite (set_nat_nth _ _ _ _ (Z.to_nat k) E).
    destruct (Nat.eqb_spec (Z.to_nat k) (Z.to_nat i)),
             (Z.eqb_spec k i); try reflexivity; lia.
Qed.

(** [%] wraps a non-negative dividend into [[0, n)]. *)
Lemma rem_wrap a n : 0 < n -> 0 <= a -> JS.rem a n = Some (a mod n).
Proof.
  intros Hn Ha. unfold JS.rem.
  destruct (Z.eqb_spec n 0); [lia|].
  rewrite Z.rem_mod_nonneg by lia. reflexivity.
Qed.

(** [Math.ceil(q)] is the least integer not below [q]. *)
Lemma ceil_spec (q : Q) :
  (q <= inject_Z (JS.ceil q) /\ inject_Z (JS.ceil q) < q + 1)%Q.
Proof.
  unfold JS.ceil. split; [apply Qle_ceiling|].
  pose proof (Qceiling_lt q) as H.
  unfold Z.sub in H. rewrite inject_Z_plus in H.
  change (inject_Z (- (1))) with (-1 # 1)%Q in H. Lqa.lra.
Qed.

End JSFacts.

(** ** The grid automaton *)

Module GridFacts.

Import GameOfLife.
Local Open Scope Z_scope.

Lemma set_nat_map_same {A B : Type} (f : A -> B) (a a' : list A) n v old :
  JS.set_nat a n v = Some a' -> nth_error a n = Some old -> f v = f old ->
  map f a' = map f a.
Proof.
  revert n a'. induction a as [|h t IH]; intros n a' H Hn Hf; cbn in *;
    [discriminate|].
  destruct n as [|n]; cbn in Hn.
  - injection H as <-. injection Hn as ->. cbn. now rewrite Hf.
  - destruct (JS.set_nat t n v) eqn:E; [|discriminate].
    injection H as <-. cbn. f_equal. eapply IH; eauto.
Qed.

Lemma set2_shape gr c r v gr' : set2 gr c r v = Some gr' -> shape gr' = shape gr.
Proof.
  unfold set2. destruct (JS.get gr c) as [column|] eqn:Ec; [|discriminate].
  destruct (JS.set column r v) as [column'|] eqn:Er; [|discriminate].
  intros E. unfold JS.set in E. unfold JS.get in Ec.
  destruct (c <? 0); [discriminate|].
  unfold shape. eapply set_nat_map_same; eauto.
  eapply JSFacts.set_length; eauto.
Qed.

Lemma set2_Some gr c r v x :
  get2 gr c r = Some x -> exists gr', set2 gr c r v = Some gr'.
Proof.
  unfold get2, set2. destruct (JS.get gr c) as [column|] eqn:Ec; [|discriminate].
  intros Er. apply JSFacts.get_range in Er.
  destruct (JSFacts.set_Some column r v Er) as [column' ->].
  apply JSFacts.set_Some. eapply JSFacts.get_range; eauto.
Qed.

Lemma get2_set2 gr c r v gr' c' r' :
  set2 gr c r v = Some gr' ->
  get2 gr' c' r' = if (c' =? c) && (r' =? r) then Some v else get2 gr c' r'.
Proof.
  unfold set2, get2. destruct (JS.get gr c) as [column|] eqn:Ec; [|discriminate].
  destruct (JS.set column r v) as [column'|] eqn:Er; [|discriminate].
  intros E. rewrite (JSFacts.get_set _ _ _ _ c' E).
  destruct (Z.eqb_spec c' c) as [->|Hc]; cbn [andb]; [|reflexivity].
  rewrite Ec, (JSFacts.get_set _ _ _ _ r' Er).
  destruct (r' =? r); reflexivity.
Qed.

(** A cell of a grid of the right shape exists exactly inside the grid. *)
Lemma get2_inside gr (cols rows : Z) c r :
  shape gr = repeat (Z.to_nat rows) (Z.to_nat cols) ->
  0 <= c < cols -> 0 <= r < rows -> exists v, get2 gr c r = Some v.
Proof.
  intros Hs Hc Hr. unfold get2.
  assert (length gr = Z.to_nat cols) as Hl.
  { unfold shape in Hs. apply (f_equal (@length nat)) in Hs.
    now rewrite length_map, repeat_length in Hs. }
  destruct (JSFacts.get_Some gr c ltac:(lia)) as [column Ec]. rewrite Ec.
  apply JSFacts.get_Some.
  unfold JS.get in Ec. destruct (c <? 0); [discriminate|].
  assert (nth_error (shape gr) (Z.to_nat c) = Some (length column)) as Hn.
  { unfold shape. now rewrite nth_error_map, Ec. }
  rewrite Hs in Hn. apply nth_error_In, repeat_spec in Hn. lia.
Qed.

Lemma cell_get2 gr c r v : get2 gr c r = Some v -> cell gr c r = v.
Proof. unfold cell. now intros ->. Qed.

(** Inside a well-formed grid, the neighbour count of [update] succeeds
    and is the number of live toroidal neighbours. *)
Lemma count_neighbors_alive g i j :
  well_formed g -> 0 <= i < cols g -> 0 <= j < rows g ->
  count_neighbors g i j = Some (alive_neighbours g i j).
Proof.
  intros (Hc & Hr & Hs) Hi Hj.
  assert (forall x, -1 <= x <= 1 ->
            JS.rem (i + x + cols g) (cols g) = Some ((i + x) mod cols g))
    as Hcol.
  { intros x Hx. rewrite JSFacts.rem_wrap by lia.
    replace (i + x + cols g) with (i + x + 1 * cols g) by lia.
    now rewrite Z.mod_add by lia. }
  assert (forall y, -1 <= y <= 1 ->
            JS.rem (j + y + rows g) (rows g) = Some ((j + y) mod rows g))
    as Hrow.
  { intros y Hy. rewrite JSFacts.rem_wrap by lia.
    replace (j + y + rows g) with (j + y + 1 * rows g) by lia.
    now rewrite Z.mod_add by lia. }
  assert (forall x y,
            get2 (grid g) ((i + x) mod cols g) ((j + y) mod rows g)
            = Some (cell (grid g) ((i + x) mod cols g) ((j + y) mod rows g)))
    as Hread.
  { intros x y.
    destruct (get2_inside (grid g) (cols g) (rows g)
                ((i + x) mod cols g) ((j + y) mod rows g) Hs) as [v Hv].
    - apply Z.mod_pos_bound. lia.
    - apply Z.mod_pos_bound. lia.
    - now rewrite (cell_get2 _ _ _ _ Hv). }
  unfold count_neighbors, alive_neighbours, neighbourhood, wrapped.
  change (JS.range (-1) 2) with [-1; 0; 1].
  cbn [JS.forM Z.eqb andb map fold_right fst snd].
  rewrite !Hcol, !Hrow by lia. rewrite !Hread.
  f_equal. lia.
Qed.

(** Two nested counting loops whose iteration [(i, j)] writes cell
    [(i, j)] of the grid they thread: on a grid of [cols] columns of [rows]
    cells no write fails, the shape is kept, and in the end every cell holds
    the value written to it. [Aux n] is what else is known of the state
    after [n] iterations. *)
Lemma fill_loop {S : Type} (gridOf : S -> Grid) (Aux : Z -> S -> Prop)
    (val : Z -> Z -> Z) (body : Z -> Z -> S -> option S)
    (cols rows : Z) (s0 : S) :
  0 <= cols -> 0 <= rows ->
  shape (gridOf s0) = repeat (Z.to_nat rows) (Z.to_nat cols) ->
  Aux 0 s0 ->
  (forall i j s gr',
      0 <= i < cols -> 0 <= j < rows -> Aux (i * rows + j) s ->
      set2 (gridOf s) i j (val i j) = Some gr' ->
      exists s', body i j s = Some s' /\ gridOf s' = gr' /\
                 Aux (i * rows + j + 1) s') ->
  exists s',
    JS.forM (JS.range 0 cols) (fun i => JS.forM (JS.range 0 rows) (body i)) s0
    = Some s' /\
    Aux (cols * rows) s' /\
    shape (gridOf s') = shape (gridOf s0) /\
    forall i j, 0 <= i < cols -> 0 <= j < rows ->
                get2 (gridOf s') i j = Some (val i j).
Proof.
  intros Hc Hr Hs H0 Hbody.
  pose (Inner := fun (k r : Z) (s : S) =>
    Aux (k * rows + r) s /\ shape (gridOf s) = shape (gridOf s0) /\
    (forall i j, 0 <= i < k -> 0 <= j < rows ->
                 get2 (gridOf s) i j = Some (val i j)) /\
    (forall j, 0 <= j < r -> get2 (gridOf s) k j = Some (val k j))).
  destruct (JSFacts.forM_range (fun k s => Inner k 0 s)
              (fun i => JS.forM (JS.range 0 rows) (body i)) 0 cols s0 Hc)
    as (s' & Hrun & HA & Hsh & Hdone & _).
  - repeat split; [exact H0 | intros; lia | intros; lia].
  - intros k s Hk Hin.
    destruct (JSFacts.forM_range (Inner k) (body k) 0 rows s Hr Hin)
      as (s1 & Hrun1 & HA1 & Hsh1 & Hprev1 & Hcol1).
    + intros r t Hrr (HAt & Hsht & Hprevt & Hcolt).
      destruct (get2_inside (gridOf t) cols rows k r) as [x Hx];
        [congruence | lia | lia |].
      destruct (set2_Some _ _ _ (val k r) _ Hx) as [gr' Hset].
      destruct (Hbody k r t gr' Hk Hrr HAt Hset) as (t' & Hb & Hg & HA').
      exists t'. split; [exact Hb|]. subst gr'. repeat split.
      * now replace (k * rows + (r + 1)) with (k * rows + r + 1) by lia.
      * rewrite <- Hsht. eapply set2_shape; eauto.
      * intros i j Hi Hj. rewrite (get2_set2 _ _ _ _ _ i j Hset).
        destruct (Z.eqb_spec i k); [lia|]. cbn [andb]. now apply Hprevt.
      * intros j Hj. rewrite (get2_set2 _ _ _ _ _ k j Hset).
        rewrite Z.eqb_refl. cbn [andb].
        destruct (Z.eqb_spec j r) as [->|]; [reflexivity|].
        apply Hcolt. lia.
    + exists s1. split; [exact Hrun1|]. repeat split.
      * now replace ((k + 1) * rows + 0) with (k * rows + rows) by lia.
      * exact Hsh1.
      * intros i j Hi Hj. destruct (Z.eq_dec i k) as [->|];
          [now apply Hcol1 | apply Hprev1; lia].
      * intros; lia.
  - exists s'. split; [exact Hrun|]. repeat split.
    + now replace (cols * rows) with (cols * rows + 0) by lia.
    + exact Hsh.
    + exact Hdone.
Qed.

(** [update] on a well-formed grid: it does not fail, the grid keeps its
    dimensions, and every cell is the rule applied to its previous state
    and to its number of live neighbours in the previous grid. *)
Lemma update_rules g :
  well_formed g ->
  exists next,
    update g = Some (set_grid g next) /\
    shape next = shape (grid g) /\
    forall i j, 0 <= i < cols g -> 0 <= j < rows g ->
      get2 next i j
      = Some (rules (cell (grid g) i j) (alive_neighbours g i j)).
Proof.
  intros Hwf. pose proof Hwf as (Hc & Hr & Hs).
  unfold update. rewrite map_id.
  destruct (fill_loop (fun gr : Grid => gr) (fun _ _ => True)
              (fun i j => rules (cell (grid g) i j) (alive_neighbours g i j))
              (fun i j next =>
                 match get2 (grid g) i j, count_neighbors g i j with
                 | Some state, Some neighbors =>
                     set2 next i j (rules state neighbors)
                 | _, _ => None
                 end)
              (cols g) (rows g) (grid g) Hc Hr Hs I)
    as (next & Hrun & _ & Hsh & Hcells).
  - intros i j s gr' Hi Hj _ Hset.
    destruct (get2_inside (grid g) (cols g) (rows g) i j Hs Hi Hj) as [v Hv].
    rewrite Hv, (count_neighbors_alive g i j Hwf Hi Hj).
    rewrite (cell_get2 _ _ _ _ Hv) in Hset. eauto.
  - exists next. rewrite Hrun. auto.
Qed.

(** C1. One [update] of a grid of [cols] x [rows] cells does not fail and
    keeps the dimensions; for every cell, with [n] the number of live cells
    among its eight toroidally wrapped neighbours in the grid before the
    update: a dead cell with [n = 3] becomes alive, a live cell with
    [n < 2] or [n > 3] becomes dead, and every other cell keeps its state.
    The counts are all taken in the previous grid. *)
Theorem update_conway (g : t) :
  well_formed g ->
  exists g',
    update g = Some g' /\
    well_formed g' /\ cols g' = cols g /\ rows g' = rows g /\
    forall i j, 0 <= i < cols g -> 0 <= j < rows g ->
      let state := cell (grid g) i j in
      let n := alive_neighbours g i j in
      get2 (grid g) i j = Some state /\
      (state = 0 -> n = 3 -> get2 (grid g') i j = Some 1) /\
      (state = 1 -> n < 2 \/ n > 3 -> get2 (grid g') i j = Some 0) /\
      (~ (state = 0 /\ n = 3) -> ~ (state = 1 /\ (n < 2 \/ n > 3)) ->
       get2 (grid g') i j = Some state).
Proof.
  intros Hwf. destruct (update_rules g Hwf) as (next & Hrun & Hsh & Hcells).
  pose proof Hwf as (Hc & Hr & Hs).
  exists (set_grid g next). split; [exact Hrun|].
  split; [|split; [reflexivity|split; [reflexivity|]]].
  - unfold well_formed. cbn [grid cols rows set_grid]. rewrite Hsh. auto.
  - intros i j Hi Hj state n. cbn [grid set_grid].
    rewrite (Hcells i j Hi Hj). fold state n.
    destruct (get2_inside (grid g) (cols g) (rows g) i j Hs Hi Hj) as [v Hv].
    split; [rewrite Hv; f_equal; symmetry; now apply cell_get2|].
    clearbody state n. unfold rules. repeat split.
    + intros -> ->. reflexivity.
    + intros -> Hn. cbn [Z.eqb andb].
      destruct (Z.ltb_spec n 2), (Z.gtb_spec n 3); cbn; try reflexivity; lia.
    + intros H1 H2.
      destruct (Z.eqb_spec state 0), (Z.eqb_spec n 3),
               (Z.eqb_spec state 1), (Z.ltb_spec n 2), (Z.gtb_spec n 3);
        cbn; try reflexivity; try lia; exfalso;
        first [apply H1; split; assumption | apply H2; split; [assumption|lia]].
Qed.

(** A vertical blinker on a 5 x 5 torus turns horizontal. *)
Lemma update_conway_witness :
  let g := mk (Context2D 0) 40 40 5 5
             [[0;0;0;0;0]; [0;0;1;0;0]; [0;0;1;0;0]; [0;0;1;0;0]; [0;0;0;0;0]]
             None "#8b5cf6" in
  well_formed g /\
  exists g', update g = Some g' /\ get2 (grid g') 2 1 = Some 1.
Proof.
  intros g.
  assert (well_formed g) as Hwf by (repeat split; cbn; lia).
  split; [exact Hwf|].
  destruct (update_conway g Hwf) as (g' & Hrun & _ & _ & _ & Hcells).
  exists g'. split; [exact Hrun|].
  destruct (Hcells 2 1 ltac:(cbn; lia) ltac:(cbn; lia)) as (_ & Hbirth & _).
  apply Hbirth; reflexivity.
Defined.

(** A glider on an otherwise empty 20 x 20 torus is, after four updates,
    the same glider one cell further along both axes. *)
Example glider_translates :
  let empty := createGrid (mk (Context2D 0) 160 160 20 20 [] None "#8b5cf6") in
  match placePattern 5 7 glider empty with
  | JS.Returns g => updates 4 g
  | _ => None
  end
  = JS.returned (placePattern 6 8 glider empty).
Proof. vm_compute. reflexivity. Qed.

(** [seed] on a grid of the right shape: cell [(i, j)] is sampled from the
    draw number [i * rows + j] after the cursor. *)
Lemma seed_samples rng g :
  well_formed g ->
  exists rng' gr',
    seed rng g = Some (rng', set_grid g gr') /\
    draws rng' = draws rng /\
    cursor rng' = (cursor rng + Z.to_nat (cols g * rows g))%nat /\
    shape gr' = shape (grid g) /\
    forall i j, 0 <= i < cols g -> 0 <= j < rows g ->
      get2 gr' i j
      = Some (sample (draws rng (cursor rng + Z.to_nat (i * rows g + j))%nat)).
Proof.
  intros (Hc & Hr & Hs).
  destruct (fill_loop (@snd Rng Grid)
              (fun n s => draws (fst s) = draws rng /\
                          cursor (fst s) = (cursor rng + Z.to_nat n)%nat)
              (fun i j =>
                 sample (draws rng (cursor rng + Z.to_nat (i * rows g + j))%nat))
              (fun i j '(rng, gr) =>
                 let (u, rng') := random rng in
                 match set2 gr i j (if JS.ltb u (15 # 100) then 1 else 0) with
                 | Some gr' => Some (rng', gr')
                 | None => None
                 end)
              (cols g) (rows g) (rng, grid g) Hc Hr Hs)
    as ([rng' gr'] & Hrun & (Hd & Hcur) & Hsh & Hcells).
  - cbn. split; [reflexivity | lia].
  - intros i j [r gr] gr1 Hi Hj (Hd & Hcur) Hset. cbn [fst snd] in *.
    unfold random. rewrite Hd, Hcur. unfold sample in Hset. rewrite Hset.
    eexists. split; [reflexivity|]. cbn [fst snd draws cursor].
    repeat split. lia.
  - exists rng', gr'. unfold seed. cbv beta in Hrun. rewrite Hrun.
    cbn [fst snd] in *. auto.
Qed.

Lemma createGrid_well_formed g :
  0 <= cols g -> 0 <= rows g -> well_formed (createGrid g).
Proof.
  intros Hc Hr. unfold well_formed, createGrid, shape.
  cbn [cols rows grid set_grid]. repeat split; try assumption.
  rewrite map_repeat, repeat_length. reflexivity.
Qed.

(** [Math.ceil] of a non-negative quotient is not negative. *)
Lemma ceil_nonneg (w : N) : 0 <= JS.ceil (inject_Z (Z.of_N w) / inject_Z cellSize).
Proof.
  unfold JS.ceil.
  transitivity (Qceiling (inject_Z 0)); [now rewrite Qceiling_Z|].
  apply Qceiling_resp_le.
  apply Qle_shift_div_l; [reflexivity|].
  rewrite Qmult_0_l. change 0%Q with (inject_Z 0). rewrite <- Zle_Qle. lia.
Qed.

(** [resize] never fails and leaves a well-formed grid. *)
Lemma resize_well_formed dom rng g :
  exists rng' g', resize dom rng g = Some (rng', g') /\ well_formed g'.
Proof.
  unfold resize.
  assert (exists w h : N, surface_size dom = (Z.of_N w, Z.of_N h)) as (w & h & ->).
  { unfold surface_size. destruct (parentElement dom) as [[w h]|]; eauto. }
  set (g0 := mk _ _ _ _ _ _ _ _).
  assert (well_formed (createGrid g0)) as Hwf
    by (apply createGrid_well_formed; apply ceil_nonneg).
  destruct (seed_samples rng (createGrid g0) Hwf)
    as (rng' & gr' & Hrun & _ & _ & Hsh & _).
  exists rng', (set_grid (createGrid g0) gr'). split; [exact Hrun|].
  destruct Hwf as (Hc & Hr & Hs). unfold well_formed.
  cbn [cols rows grid set_grid createGrid] in *. rewrite Hsh. auto.
Qed.

(** C6. Every [resize] sets [cols] and [rows] to the ceilings of the surface
    width and height over the cell size 8, leaves a grid of exactly
    [cols] x [rows] cells, and gives each cell its own [Math.random()] draw,
    alive exactly when the draw is below [0.15]; the result does not depend
    on the grid there was before. *)
Theorem resize_reseeds (dom : Dom) (rng : Rng) (g : t) :
  exists rng' g',
    resize dom rng g = Some (rng', g') /\
    (width g', height g') = surface_size dom /\
    (inject_Z (width g') / 8 <= inject_Z (cols g')
     /\ inject_Z (cols g') < inject_Z (width g') / 8 + 1)%Q /\
    (inject_Z (height g') / 8 <= inject_Z (rows g')
     /\ inject_Z (rows g') < inject_Z (height g') / 8 + 1)%Q /\
    well_formed g' /\
    (forall i j, 0 <= i < cols g' -> 0 <= j < rows g' ->
       get2 (grid g') i j
       = Some (if JS.ltb (draws rng (cursor rng + Z.to_nat (i * rows g' + j))%nat)
                         (15 # 100)
               then 1 else 0)) /\
    (forall i j i' j', 0 <= i < cols g' -> 0 <= j < rows g' ->
       0 <= i' < cols g' -> 0 <= j' < rows g' ->
       i * rows g' + j = i' * rows g' + j' -> i = i' /\ j = j') /\
    (forall old, resize dom rng (set_grid g old) = resize dom rng g).
Proof.
  unfold resize.
  assert (exists w h : N, surface_size dom = (Z.of_N w, Z.of_N h)) as (w & h & Hsz).
  { unfold surface_size. destruct (parentElement dom) as [[w h]|]; eauto. }
  rewrite Hsz.
  set (c := JS.ceil (inject_Z (Z.of_N w) / inject_Z cellSize)).
  set (r := JS.ceil (inject_Z (Z.of_N h) / inject_Z cellSize)).
  set (g0 := mk (ctx g) (Z.of_N w) (Z.of_N h) c r (grid g) (animationId g) (color g)).
  assert (well_formed (createGrid g0)) as Hwf
    by (apply createGrid_well_formed; apply ceil_nonneg).
  destruct (seed_samples rng (createGrid g0) Hwf)
    as (rng' & gr' & Hrun & Hd & Hcur & Hsh & Hcells).
  exists rng', (set_grid (createGrid g0) gr'). split; [exact Hrun|].
  cbn [width height cols rows grid set_grid createGrid g0].
  split; [reflexivity|]. split; [|split]; [| |split; [|split; [|split]]].
  - apply (JSFacts.ceil_spec (inject_Z (Z.of_N w) / inject_Z cellSize)).
  - apply (JSFacts.ceil_spec (inject_Z (Z.of_N h) / inject_Z cellSize)).
  - destruct Hwf as (Hc & Hr & Hs). unfold well_formed.
    cbn [cols rows grid set_grid createGrid g0] in *.
    rewrite Hsh. auto.
  - exact Hcells.
  - intros i j i' j' Hi Hj Hi' Hj' E.
    destruct (Z.lt_trichotomy i i') as [H|[H|H]]; [nia | subst; lia | nia].
  - intros old. reflexivity.
Qed.

Lemma only_revives_refl gr : only_revives gr gr.
Proof. split; [reflexivity | intros; now left]. Qed.

Lemma only_revives_trans gr1 gr2 gr3 :
  only_revives gr1 gr2 -> only_revives gr2 gr3 -> only_revives gr1 gr3.
Proof.
  intros [S12 H12] [S23 H23]. split; [congruence|].
  intros c r.
  destruct (H23 c r) as [E23|[[old2 O2] E23]], (H12 c r) as [E12|[O1 E12]].
  - left. congruence.
  - right. split; [exact O1 | congruence].
  - right. split; [exists old2; congruence | exact E23].
  - right. split; [exact O1 | exact E23].
Qed.

(** A loop whose iterations all succeed and keep [P] succeeds and keeps
    [P], whatever the indices. *)
Lemma forM_preserve {S : Type} (P : S -> Prop) (body : Z -> S -> option S)
    (idx : list Z) (s0 : S) :
  P s0 ->
  (forall i s, P s -> exists s', body i s = Some s' /\ P s') ->
  exists s', JS.forM idx body s0 = Some s' /\ P s'.
Proof.
  intros H0 Hstep. revert s0 H0.
  induction idx as [|i rest IH]; intros s0 H0; cbn [JS.forM]; [eauto|].
  destruct (Hstep i s0 H0) as (s1 & -> & H1). now apply IH.
Qed.

Lemma cell_exists_true gr c r :
  cell_exists gr c r = true ->
  exists c' r' old, c = Some c' /\ r = Some r' /\ get2 gr c' r' = Some old.
Proof.
  unfold cell_exists, get2.
  destruct c as [c'|], r as [r'|]; try discriminate.
  destruct (JS.get gr c') as [column|] eqn:Ec; [|discriminate].
  destruct (JS.get column r') as [old|] eqn:Er; [|discriminate].
  intros _. exists c', r', old. now rewrite Ec, Er.
Qed.

(** One iteration of the pointer handler never fails, keeps the draws, and
    changes at most one existing cell, to [1]. *)
Lemma paint_safe g col row i j rng gr :
  exists rng' gr',
    paint g col row i j (rng, gr) = Some (rng', gr') /\
    draws rng' = draws rng /\ only_revives gr gr'.
Proof.
  unfold paint.
  destruct (cell_exists gr _ _) eqn:Ex.
  - apply cell_exists_true in Ex. destruct Ex as (c' & r' & old & -> & -> & Hold).
    unfold random. destruct (JS.gtb _ _).
    + destruct (set2_Some gr c' r' 1 old Hold) as [gr' Hset]. rewrite Hset.
      exists (mkRng (draws rng) (S (cursor rng))), gr'.
      repeat split; [eapply set2_shape; eauto|].
      intros c r. rewrite (get2_set2 _ _ _ _ _ c r Hset).
      destruct (Z.eqb_spec c c') as [->|], (Z.eqb_spec r r') as [->|];
        cbn [andb]; eauto.
    + eexists _, gr. repeat split. apply only_revives_refl.
  - exists rng, gr. repeat split. apply only_revives_refl.
Qed.

(** The pointer handler never fails and only revives existing cells. *)
Lemma handleMouseMove_revives e dom rng g :
  exists rng' gr',
    handleMouseMove e dom rng g = Some (rng', set_grid g gr') /\
    only_revives (grid g) gr'.
Proof.
  unfold handleMouseMove.
  set (col := JS.floor ((clientX e - rect_left dom) / inject_Z cellSize)).
  set (row := JS.floor ((clientY e - rect_top dom) / inject_Z cellSize)).
  pose (P := fun st : Rng * Grid =>
               draws (fst st) = draws rng /\ only_revives (grid g) (snd st)).
  destruct (forM_preserve P
              (fun i => JS.forM (JS.range (-1) 2)
                          (fun j => paint g col row i j))
              (JS.range (-1) 2) (rng, grid g))
    as ([rng' gr'] & Hrun & Hd & Hrev).
  - split; [reflexivity | apply only_revives_refl].
  - intros i s Hs. apply forM_preserve; [exact Hs|].
    intros j [r gr] [Hd Hrev]. cbn [fst snd] in *.
    destruct (paint_safe g col row i j r gr) as (r' & gr' & -> & Hd' & Hrev').
    exists (r', gr'). split; [reflexivity|]. split; cbn [fst snd].
    + congruence.
    + eapply only_revives_trans; eauto.
  - rewrite Hrun. exists rng', gr'. cbn [fst snd] in *. auto.
Qed.

(** C10. For every pointer event, layout, stream of draws and grid (of any
    shape), [handleMouseMove] returns normally; [cols], [rows] and the length
    of every column are unchanged; and every cell is either as before or an
    already existing cell that now holds [1]. *)
Theorem handleMouseMove_safe (e : MouseEvent) (dom : Dom) (rng : Rng) (g : t) :
  exists rng' g',
    handleMouseMove e dom rng g = Some (rng', g') /\
    cols g' = cols g /\ rows g' = rows g /\
    shape (grid g') = shape (grid g) /\
    forall c r,
      get2 (grid g') c r = get2 (grid g) c r \/
      ((exists old, get2 (grid g) c r = Some old) /\
       get2 (grid g') c r = Some 1).
Proof.
  destruct (handleMouseMove_revives e dom rng g)
    as (rng' & gr' & Hrun & Hsh & Hcells).
  exists rng', (set_grid g gr'). split; [exact Hrun|].
  cbn [cols rows grid set_grid].
  split; [reflexivity|]. split; [reflexivity|]. split; [exact Hsh|].
  intros c r. destruct (Hcells c r) as [Hsame|[Hold Hone]].
  - left. exact Hsame.
  - right. split; [exact Hold | exact Hone].
Qed.

(** The two loops of [handleMouseMove] visit the nine offsets of [block],
    in order. *)
Lemma handleMouseMove_block g col row st :
  JS.forM (JS.range (-1) 2)
    (fun i => JS.forM (JS.range (-1) 2) (fun j => paint g col row i j)) st
  = paint_each g col row block st.
Proof.
  change (JS.range (-1) 2) with [-1; 0; 1].
  cbn [JS.forM paint_each block fst snd].
  repeat match goal with
  | |- context [paint g col row ?i ?j ?s] =>
      destruct (paint g col row i j s); [|reflexivity]
  end.
  reflexivity.
Qed.

(** When the wrap expression has a non-negative dividend, one iteration
    finds the toroidally wrapped cell, consumes one draw, and sets the cell
    alive exactly when the draw exceeds [0.3]. *)
Lemma paint_wraps g col row i j rng gr :
  0 < cols g -> 0 < rows g ->
  shape gr = repeat (Z.to_nat (rows g)) (Z.to_nat (cols g)) ->
  0 <= col + i + cols g -> 0 <= row + j + rows g ->
  exists gr',
    paint g col row i j (rng, gr)
    = Some (mkRng (draws rng) (S (cursor rng)), gr') /\
    shape gr' = shape gr /\
    forall a b, 0 <= a < cols g -> 0 <= b < rows g ->
      get2 gr' a b
      = Some (if same_cell (wrapped g col row (i, j)) (a, b)
                 && JS.gtb (draws rng (cursor rng)) (3 # 10)
              then 1 else cell gr a b).
Proof.
  intros Hc Hr Hs Hi Hj. unfold paint, wrapped, same_cell. cbn [fst snd].
  rewrite !JSFacts.rem_wrap by lia.
  replace (col + i + cols g) with (col + i + 1 * cols g) by lia.
  replace (row + j + rows g) with (row + j + 1 * rows g) by lia.
  rewrite !Z.mod_add by lia.
  set (c := (col + i) mod cols g). set (r := (row + j) mod rows g).
  assert (0 <= c < cols g) as Hcr by (apply Z.mod_pos_bound; lia).
  assert (0 <= r < rows g) as Hrr by (apply Z.mod_pos_bound; lia).
  destruct (get2_inside gr (cols g) (rows g) c r Hs Hcr Hrr) as [old Hold].
  assert (cell_exists gr (Some c) (Some r) = true) as ->.
  { unfold cell_exists. unfold get2 in Hold.
    destruct (JS.get gr c); [|discriminate]. now rewrite Hold. }
  unfold random. destruct (JS.gtb _ _).
  - destruct (set2_Some gr c r 1 old Hold) as [gr' Hset]. rewrite Hset.
    exists gr'. repeat split; [eapply set2_shape; eauto|].
    intros a b Ha Hb. rewrite (get2_set2 _ _ _ _ _ a b Hset).
    rewrite (Z.eqb_sym c a), (Z.eqb_sym r b), andb_true_r.
    destruct ((a =? c) && (b =? r)); [reflexivity|].
    destruct (get2_inside gr (cols g) (rows g) a b Hs Ha Hb) as [v Hv].
    now rewrite Hv, (cell_get2 _ _ _ _ Hv).
  - exists gr. repeat split. intros a b Ha Hb. rewrite andb_false_r.
    destruct (get2_inside gr (cols g) (rows g) a b Hs Ha Hb) as [v Hv].
    now rewrite Hv, (cell_get2 _ _ _ _ Hv).
Qed.

Lemma paint_each_wraps g col row offsets :
  0 < cols g -> 0 < rows g -> 1 - cols g <= col -> 1 - rows g <= row ->
  Forall (fun o => -1 <= fst o /\ -1 <= snd o) offsets ->
  forall rng gr,
    shape gr = repeat (Z.to_nat (rows g)) (Z.to_nat (cols g)) ->
    exists rng' gr',
      paint_each g col row offsets (rng, gr) = Some (rng', gr') /\
      shape gr' = shape gr /\
      forall a b, 0 <= a < cols g -> 0 <= b < rows g ->
        get2 gr' a b
        = Some (if painted g col row (draws rng) (cursor rng) offsets a b
                then 1 else cell gr a b).
Proof.
  intros Hc Hr Hcol Hrow Hoff.
  induction Hoff as [|[i j] rest [Hi Hj] _ IH]; intros rng gr Hs.
  - exists rng, gr. repeat split. intros a b Ha Hb. cbn [painted].
    destruct (get2_inside gr (cols g) (rows g) a b Hs Ha Hb) as [v Hv].
    now rewrite Hv, (cell_get2 _ _ _ _ Hv).
  - cbn [fst snd] in Hi, Hj. cbn [paint_each fst snd].
    destruct (paint_wraps g col row i j rng gr Hc Hr Hs ltac:(lia) ltac:(lia))
      as (gr1 & -> & Hs1 & Hcells1).
    destruct (IH (mkRng (draws rng) (S (cursor rng))) gr1 ltac:(congruence))
      as (rng' & gr' & -> & Hs' & Hcells').
    exists rng', gr'. repeat split; [congruence|].
    intros a b Ha Hb. rewrite (Hcells' a b Ha Hb). cbn [painted draws cursor].
    rewrite (cell_get2 _ _ _ _ (Hcells1 a b Ha Hb)).
    destruct (same_cell _ _ && JS.gtb _ _); cbn [orb]; [|reflexivity].
    now destruct (painted _ _ _ _ _ _ _ _).
Qed.

(** C7, as amended. On a well-formed grid, when the covered cell has
    [col >= 1 - cols] and [row >= 1 - rows] (the pointer is on the surface,
    right of it or below it, or less than the surface's extent left of or
    above it), the handler paints the toroidally wrapped 3 x 3 block around
    the covered cell: each of the nine offsets has its own draw and sets its
    wrapped cell alive exactly when the draw exceeds [0.3], and no other cell
    changes. *)
Theorem handleMouseMove_wraps (e : MouseEvent) (dom : Dom) (rng : Rng) (g : t) :
  well_formed g ->
  1 - cols g
  <= fst (covered (clientX e - rect_left dom)%Q (clientY e - rect_top dom)%Q) ->
  1 - rows g
  <= snd (covered (clientX e - rect_left dom)%Q (clientY e - rect_top dom)%Q) ->
  paints_wrapped_block e dom rng g.
Proof.
  intros (Hc0 & Hr0 & Hs) Hcol Hrow.
  destruct (Z_lt_le_dec 0 (cols g)) as [Hc|Hc];
    [destruct (Z_lt_le_dec 0 (rows g)) as [Hr|Hr]|].
  - unfold paints_wrapped_block, handleMouseMove, covered in *.
    cbn [fst snd] in Hcol, Hrow.
    change (inject_Z cellSize) with 8%Q.
    set (col := JS.floor ((clientX e - rect_left dom) / 8)) in *.
    set (row := JS.floor ((clientY e - rect_top dom) / 8)) in *.
    rewrite handleMouseMove_block.
    destruct (paint_each_wraps g col row block Hc Hr Hcol Hrow) with (rng := rng)
      (gr := grid g) as (rng' & gr' & -> & Hs' & Hcells).
    + unfold block. repeat constructor; cbn; lia.
    + exact Hs.
    + exists rng', (set_grid g gr'). repeat split; assumption.
  - unfold paints_wrapped_block, covered.
    destruct (handleMouseMove_revives e dom rng g) as (rng' & gr' & E & Hsh & _).
    exists rng', (set_grid g gr'). split; [exact E|]. split; [exact Hsh|].
    intros a b Ha Hb. lia.
  - unfold paints_wrapped_block, covered.
    destruct (handleMouseMove_revives e dom rng g) as (rng' & gr' & E & Hsh & _).
    exists rng', (set_grid g gr'). split; [exact E|]. split; [exact Hsh|].
    intros a b Ha Hb. lia.
Qed.

(** On a 3 x 2 grid of dead cells, a pointer at [(4, 4)] with every draw
    at [0.9] paints around cell [(0, 0)], wrapping to column 2. *)
Lemma handleMouseMove_wraps_witness :
  let g := mk (Context2D 0) 24 16 3 2 [[0; 0]; [0; 0]; [0; 0]] None "#8b5cf6" in
  paints_wrapped_block (mkMouseEvent 4 4) (mkDom None 24 16 0 0)
    (mkRng (fun _ => 9 # 10) 0) g.
Proof.
  intros g. apply (handleMouseMove_wraps (mkMouseEvent 4 4)
    (mkDom None 24 16 0 0) (mkRng (fun _ => 9 # 10) 0) g).
  - repeat split; cbn; lia.
  - vm_compute. discriminate.
  - vm_compute. discriminate.
Defined.

(** C7 as stated fails far left of the surface. A 24 x 16 canvas whose
    left edge is 100 right of the pointer, a 3 x 2 grid of dead cells, every
    draw at [0.9]: the pointer covers column [-13], which the torus wraps to
    column 2, so the specification has cell [(2, 0)] painted; but
    [(-13 + 0 + 3) % 3] is [-1], no column, and the cell stays dead. *)
Lemma handleMouseMove_far_left_counterexample :
  ~ paints_wrapped_block (mkMouseEvent 0 0) (mkDom None 24 16 100 0)
      (mkRng (fun _ => 9 # 10) 0)
      (mk (Context2D 0) 24 16 3 2 [[0; 0]; [0; 0]; [0; 0]] None "#8b5cf6").
Proof.
  unfold paints_wrapped_block.
  intros (rng' & g' & Hrun & _ & Hcells).
  vm_compute in Hrun. injection Hrun as _ <-.
  specialize (Hcells 2 0 ltac:(cbn; lia) ltac:(cbn; lia)).
  vm_compute in Hcells. discriminate.
Qed.

End GridFacts.

(** ** The particle field *)

Module ParticleFacts.

Import ParticleAttractor.
Local Open Scope R_scope.

Lemma ltb_true a b : RMath.ltb a b = true <-> a < b.
Proof.
  unfold RMath.ltb.
  destruct (Rlt_dec a b); split; intros; (discriminate || easy).
Qed.

Lemma ltb_false a b : RMath.ltb a b = false <-> ~ a < b.
Proof.
  unfold RMath.ltb.
  destruct (Rlt_dec a b); split; intros; (discriminate || easy).
Qed.

Lemma Rabs_le_inv a b : Rabs a <= b -> - b <= a <= b.
Proof. unfold Rabs. destruct (Rcase_abs a); lra. Qed.

Lemma sqrt_le_bound a B : 0 <= B -> a <= B * B -> sqrt a <= B.
Proof.
  intros HB Ha. rewrite <- (sqrt_square B HB). now apply sqrt_le_1_alt.
Qed.

Lemma sqrt_ge_bound a c : 0 <= c -> c * c <= a -> c <= sqrt a.
Proof.
  intros Hc Ha. rewrite <- (sqrt_square c Hc). now apply sqrt_le_1_alt.
Qed.

(** The boolean test of the "lost in space" branch. *)
Lemma lost_in_space_test w h p :
  RMath.ltb (Particle.x p) (-200) || RMath.gtb (Particle.x p) (w + 200)
  || RMath.ltb (Particle.y p) (-200) || RMath.gtb (Particle.y p) (h + 200)
  = true <-> lost_in_space w h p.
Proof.
  unfold lost_in_space, RMath.gtb.
  rewrite !orb_true_iff, !ltb_true. unfold Rgt. tauto.
Qed.

(** ** One particle: the callback and steps 1 to 5 *)

Lemma div_number a b : b <> 0 -> RMath.div a b = Some (a / b).
Proof.
  intros Hb. unfold RMath.div. destruct (Req_EM_T b 0); [contradiction|].
  reflexivity.
Qed.

Lemma div_NaN a : RMath.div a 0 = None.
Proof.
  unfold RMath.div. destruct (Req_EM_T 0 0) as [_|H]; [reflexivity|].
  now contradiction H.
Qed.

(** [reset] reads nothing of the particle but its radius. *)
Lemma reset_radius w h rng q q' :
  Particle.size q = Particle.size q' ->
  Particle.reset w h rng q = Particle.reset w h rng q'.
Proof. intros E. unfold Particle.reset. now rewrite E. Qed.

Lemma physics_size w h mouse p :
  Particle.size (physics w h mouse p) = Particle.size p.
Proof.
  unfold physics, integrate, damping. cbn [Particle.size].
  unfold repulsion. destruct (Rlt_dec _ 200); reflexivity.
Qed.

Lemma step_physics w h mouse rng p :
  step w h mouse rng p =
  let q := physics w h mouse p in
  let (rng1, q1) :=
    if RMath.ltb (distance_to_center w h p) 10 then Particle.reset w h rng q
    else (rng, q) in
  if RMath.ltb (Particle.x q1) (-200) || RMath.gtb (Particle.x q1) (w + 200)
     || RMath.ltb (Particle.y q1) (-200) || RMath.gtb (Particle.y q1) (h + 200)
  then Particle.reset w h rng1 q1
  else (rng1, q1).
Proof. reflexivity. Qed.

(** What the callback makes of a particle before its two respawn tests:
    steps 1 to 4 when the pointer is not on the particle, [NaN]s when it
    is. *)
Lemma update_particle_tests w h mouse rng p :
  update_particle w h mouse rng p =
  let s1 :=
    if Req_EM_T (distance_to_pointer mouse p) 0
    then Particle.NaNs (Particle.size p)
    else Particle.Numbers (physics w h mouse p) in
  let (rng1, s2) :=
    if RMath.ltb (distance_to_center w h p) 10
    then Particle.reset_state w h rng s1 else (rng, s1) in
  match s2 with
  | Particle.Numbers p2 =>
      if RMath.ltb (Particle.x p2) (-200) || RMath.gtb (Particle.x p2) (w + 200)
         || RMath.ltb (Particle.y p2) (-200)
         || RMath.gtb (Particle.y p2) (h + 200)
      then Particle.reset_state w h rng1 s2
      else (rng1, s2)
  | Particle.NaNs _ => (rng1, s2)
  end.
Proof.
  unfold update_particle, physics, integrate, damping, repulsion, gravity,
    distance_to_center, distance_to_pointer.
  cbn [Particle.x Particle.y Particle.vx Particle.vy Particle.size].
  set (mDist := sqrt ((fst mouse - Particle.x p) * (fst mouse - Particle.x p)
                      + (snd mouse - Particle.y p) * (snd mouse - Particle.y p))).
  cbv zeta.
  destruct (Req_EM_T mDist 0) as [E0|Hn0].
  - assert (RMath.ltb mDist 200 = true) as -> by (apply ltb_true; lra).
    rewrite E0, div_NaN. reflexivity.
  - rewrite !div_number by exact Hn0.
    destruct (Rlt_dec mDist 200) as [Hlt|Hge].
    + rewrite (proj2 (ltb_true mDist 200) Hlt). reflexivity.
    + rewrite (proj2 (ltb_false mDist 200) Hge). reflexivity.
Qed.

(** The callback is steps 1 to 5 on numbers, unless the pointer is exactly
    on a particle outside the event horizon. *)
Lemma update_particle_step w h mouse rng p :
  distance_to_pointer mouse p <> 0 \/ event_horizon w h p ->
  update_particle w h mouse rng p = as_numbers (step w h mouse rng p).
Proof.
  intros Hcase. rewrite update_particle_tests, step_physics. cbv zeta.
  destruct (RMath.ltb (distance_to_center w h p) 10) eqn:Eh.
  - assert (Particle.reset_state w h rng
              (if Req_EM_T (distance_to_pointer mouse p) 0
               then Particle.NaNs (Particle.size p)
               else Particle.Numbers (physics w h mouse p))
            = as_numbers (Particle.reset w h rng (physics w h mouse p))) as ->.
    { unfold Particle.reset_state, as_numbers.
      destruct (Req_EM_T _ 0).
      - rewrite (reset_radius w h rng _ (physics w h mouse p))
          by (now rewrite physics_size).
        now destruct (Particle.reset _ _ _ _).
      - now destruct (Particle.reset _ _ _ _). }
    destruct (Particle.reset w h rng (physics w h mouse p)) as [r1 q1].
    unfold as_numbers at 1. cbn [fst snd].
    destruct (_ || _); [|reflexivity].
    unfold Particle.reset_state, as_numbers.
    now destruct (Particle.reset _ _ _ _).
  - destruct Hcase as [Hn0|Heh];
      [|apply ltb_false in Eh; contradiction].
    destruct (Req_EM_T _ 0); [contradiction|].
    destruct (_ || _); [|reflexivity].
    unfold Particle.reset_state, as_numbers.
    now destruct (Particle.reset _ _ _ _).
Qed.

(** With the pointer exactly on a particle outside the event horizon, the
    callback leaves [NaN] coordinates and reads no draw. *)
Lemma update_particle_NaN w h mouse rng p :
  distance_to_pointer mouse p = 0 -> ~ event_horizon w h p ->
  update_particle w h mouse rng p = (rng, Particle.NaNs (Particle.size p)).
Proof.
  intros E0 Heh. rewrite update_particle_tests. cbv zeta.
  apply ltb_false in Heh. unfold event_horizon in Heh. rewrite Heh.
  destruct (Req_EM_T _ 0); [reflexivity | contradiction].
Qed.


Lemma cos_sin_unit a : cos a * cos a + sin a * sin a = 1.
Proof. pose proof (sin2_cos2 a) as H. unfold Rsqr in H. lra. Qed.

(** The force of gravity is positive and at most [1000 / 50]. *)
Lemma force_bound d : 0 <= d -> 0 < 1000 / (d + 50) <= 20.
Proof.
  intros Hd. assert (0 < 1000 / (d + 50)) as Hpos
    by (apply Rdiv_lt_0_compat; lra).
  split; [exact Hpos|].
  assert (1000 / (d + 50) * (d + 50) = 1000) as E by (field; lra).
  nra.
Qed.

(** Gravity adds at most [1000 / 50 * 0.5 = 10] to each velocity
    component. *)
Lemma gravity_increment w h p :
  Rabs (Particle.vx (gravity w h p) - Particle.vx p) <= 10 /\
  Rabs (Particle.vy (gravity w h p) - Particle.vy p) <= 10.
Proof.
  unfold gravity. cbn [Particle.vx Particle.vy].
  set (angle := RMath.atan2 _ _).
  destruct (force_bound (distance_to_center w h p)) as [Hf0 Hf20];
    [apply sqrt_pos|].
  set (force := 1000 / _) in *.
  pose proof (COS_bound angle) as [Hc1 Hc2].
  pose proof (SIN_bound angle) as [Hs1 Hs2].
  split; apply Rabs_le; split; nra.
Qed.

(** Gravity followed by damping contracts the speed toward a bound:
    [|v'| <= 0.95 (|v| + 10)]. *)
Lemma gravity_damping_contracts w h p :
  speed (damping (gravity w h p)) <= 0.95 * (speed p + 10).
Proof.
  unfold speed, damping, gravity. cbn [Particle.vx Particle.vy].
  set (angle := RMath.atan2 _ _).
  destruct (force_bound (distance_to_center w h p)) as [Hf0 Hf20];
    [apply sqrt_pos|].
  set (force := 1000 / _) in *.
  set (vx := Particle.vx p). set (vy := Particle.vy p).
  set (c := cos angle). set (s := sin angle).
  assert (c * c + s * s = 1) as Hunit by apply cos_sin_unit.
  assert (0 <= vx * vx + vy * vy) as Hv2 by nra.
  pose proof (sqrt_pos (vx * vx + vy * vy)) as HV.
  pose proof (sqrt_sqrt _ Hv2) as HVV.
  set (V := sqrt (vx * vx + vy * vy)) in *.
  set (F := force * 0.5).
  assert (0 <= F <= 10) as HF by (unfold F; lra).
  assert (vx * c + vy * s <= V) as HE.
  { assert ((vx * c + vy * s) * (vx * c + vy * s) <= V * V) as Hsq.
    { rewrite HVV.
      assert ((vx * vx + vy * vy) * (c * c + s * s)
              - (vx * c + vy * s) * (vx * c + vy * s)
              = (vx * s - vy * c) * (vx * s - vy * c)) as Hid by ring.
      pose proof (Rle_0_sqr (vx * s - vy * c)) as Hsq0. unfold Rsqr in Hsq0.
      rewrite Hunit in Hid. lra. }
    clearbody V. nra. }
  replace (c * force * 0.5) with (c * F) by (unfold F; ring).
  replace (s * force * 0.5) with (s * F) by (unfold F; ring).
  clearbody F V vx vy c s.
  apply sqrt_le_bound; [nra|].
  assert ((vx + c * F) * (vx + c * F) + (vy + s * F) * (vy + s * F)
          <= (V + 10) * (V + 10)) as Hstep.
  { replace ((vx + c * F) * (vx + c * F) + (vy + s * F) * (vy + s * F))
      with (V * V + 2 * F * (vx * c + vy * s) + F * F * (c * c + s * s))
      by (rewrite HVV; ring).
    rewrite Hunit. nra. }
  nra.
Qed.

(** A pointer at least 200 away does not act. *)
Lemma repulsion_far mouse p :
  200 <= distance_to_pointer mouse p -> repulsion mouse p = p.
Proof.
  intros H. unfold repulsion. destruct (Rlt_dec _ 200); [lra | reflexivity].
Qed.

(** With the pointer at its default position, a particle no more than 200
    left of and above the surface is at least 200 from the pointer. *)
Lemma default_pointer_far p :
  -200 <= Particle.x p -> -200 <= Particle.y p ->
  200 <= distance_to_pointer default_mouse p.
Proof.
  intros Hx Hy. unfold distance_to_pointer, default_mouse. cbn [fst snd].
  apply sqrt_ge_bound; nra.
Qed.

(** [Particle.reset] consumes three draws and respawns the particle on the
    ring. *)
Lemma reset_respawned w h rng q :
  unit_draws rng ->
  exists p',
    Particle.reset w h rng q
    = (mkRng (draws rng) (S (S (S (cursor rng)))), p') /\
    Particle.size p' = Particle.size q /\
    respawned w h (Q2R (draws rng (cursor rng)))
      (Q2R (draws rng (S (cursor rng))))
      (Q2R (draws rng (S (S (cursor rng))))) p'.
Proof.
  intros Hu. unfold Particle.reset, RMath.randomR, random.
  cbn [draws cursor]. eexists. split; [reflexivity|]. split; [reflexivity|].
  unfold respawned. cbn [Particle.x Particle.y Particle.vx Particle.vy].
  pose proof (Hu (cursor rng)) as H1. pose proof (Hu (S (cursor rng))) as H2.
  pose proof (Hu (S (S (cursor rng)))) as H3.
  set (u1 := Q2R _) in *. set (u2 := Q2R _) in *. set (u3 := Q2R _) in *.
  pose proof PI_RGT_0 as Hpi.
  replace (u1 * PI * 2) with (2 * PI * u1) by ring.
  replace (u2 * 50) with (50 * u2) by ring.
  replace (u3 * 2 + 1) with (1 + 2 * u3) by ring.
  repeat split; try reflexivity; nra.
Qed.

(** A respawned particle is inside the surface enlarged by 50 on every
    side, and its speed is below 3. *)
Lemma respawned_inside w h u1 u2 u3 p :
  0 <= w -> 0 <= h -> respawned w h u1 u2 u3 p ->
  (-50 <= Particle.x p <= w + 50) /\ (-50 <= Particle.y p <= h + 50) /\
  speed p <= 3.
Proof.
  intros Hw Hh (Ht & Hr & Hs & Hx & Hy & Hvx & Hvy).
  pose proof (COS_bound (2 * PI * u1)) as [Hc1 Hc2].
  pose proof (SIN_bound (2 * PI * u1)) as [Hs1 Hs2].
  pose proof (cos_sin_unit (2 * PI * u1)) as Hunit.
  pose proof (Rmin_l w h) as Hml. pose proof (Rmin_r w h) as Hmr.
  assert (0 <= Rmin w h) as Hm0 by (apply Rmin_glb; assumption).
  set (c := cos _) in *. set (s := sin _) in *. set (m := Rmin w h) in *.
  repeat split.
  - rewrite Hx. nra.
  - rewrite Hx. nra.
  - rewrite Hy. nra.
  - rewrite Hy. nra.
  - unfold speed. rewrite Hvx, Hvy. apply sqrt_le_bound; [lra|].
    replace (- s * (1 + 2 * u3) * (- s * (1 + 2 * u3))
             + c * (1 + 2 * u3) * (c * (1 + 2 * u3)))
      with ((c * c + s * s) * ((1 + 2 * u3) * (1 + 2 * u3))) by ring.
    rewrite Hunit. nra.
Qed.

Lemma reset_draws w h rng q : draws (fst (Particle.reset w h rng q)) = draws rng.
Proof. reflexivity. Qed.

Lemma respawned_not_lost w h u1 u2 u3 p :
  0 <= w -> 0 <= h -> respawned w h u1 u2 u3 p -> ~ lost_in_space w h p.
Proof.
  intros Hw Hh Hr.
  destruct (respawned_inside w h u1 u2 u3 p Hw Hh Hr) as (Hx & Hy & _).
  unfold lost_in_space. lra.
Qed.

(** A step that meets a respawn condition ends with one reset of the
    particle. *)
Lemma step_respawns w h mouse rng p :
  0 <= w -> 0 <= h -> unit_draws rng ->
  event_horizon w h p \/ lost_in_space w h (physics w h mouse p) ->
  step w h mouse rng p
  = Particle.reset w h rng (physics w h mouse p).
Proof.
  intros Hw Hh Hu Hcase. rewrite step_physics. cbv zeta.
  destruct (RMath.ltb (distance_to_center w h p) 10) eqn:Eh.
  - destruct (reset_respawned w h rng (physics w h mouse p) Hu)
      as (p' & Hreset & _ & Hresp).
    rewrite Hreset.
    destruct (_ || _) eqn:E; [|reflexivity].
    apply lost_in_space_test in E.
    now apply (respawned_not_lost w h _ _ _ p' Hw Hh Hresp) in E.
  - destruct Hcase as [Heh|Hlost].
    + apply ltb_false in Eh. contradiction.
    + apply lost_in_space_test in Hlost. now rewrite Hlost.
Qed.

Lemma step_draws w h mouse rng p :
  draws (fst (step w h mouse rng p)) = draws rng.
Proof.
  rewrite step_physics. cbv zeta.
  destruct (RMath.ltb _ 10).
  - pose proof (reset_draws w h rng (physics w h mouse p)) as H1.
    destruct (Particle.reset w h rng (physics w h mouse p)) as [r1 q1].
    cbn [fst] in H1.
    destruct (_ || _); [rewrite reset_draws | cbn [fst]]; exact H1.
  - destruct (_ || _); [apply reset_draws | reflexivity].
Qed.

(** After a step the particle is never more than 200 outside the surface. *)
Lemma step_not_lost w h mouse rng p :
  0 <= w -> 0 <= h -> unit_draws rng ->
  ~ lost_in_space w h (snd (step w h mouse rng p)).
Proof.
  intros Hw Hh Hu.
  destruct (Rlt_dec (distance_to_center w h p) 10) as [Heh|Heh].
  - rewrite step_respawns by (auto; now left).
    destruct (reset_respawned w h rng (physics w h mouse p) Hu)
      as (p' & -> & _ & Hresp).
    cbn [snd]. exact (respawned_not_lost w h _ _ _ p' Hw Hh Hresp).
  - rewrite step_physics. cbv zeta.
    apply ltb_false in Heh. rewrite Heh.
    destruct (_ || _) eqn:E.
    + destruct (reset_respawned w h rng (physics w h mouse p) Hu)
        as (p' & -> & _ & Hresp).
      cbn [snd]. exact (respawned_not_lost w h _ _ _ p' Hw Hh Hresp).
    + cbn [snd]. intros Hl. apply lost_in_space_test in Hl. congruence.
Qed.

(** One step keeps a particle's speed under any bound of at least 190, and
    keeps the particle out of reach of the pointer at its default position. *)
Lemma step_bounded w h rng p B :
  0 <= w -> 0 <= h -> unit_draws rng -> 190 <= B ->
  speed p <= B -> 200 <= distance_to_pointer default_mouse p ->
  speed (snd (step w h default_mouse rng p)) <= B /\
  200 <= distance_to_pointer default_mouse
           (snd (step w h default_mouse rng p)).
Proof.
  intros Hw Hh Hu HB Hv Hfar. split.
  - destruct (Rlt_dec (distance_to_center w h p) 10) as [Heh|Heh];
      [|destruct (RMath.ltb (Particle.x (physics w h default_mouse p)) (-200)
                  || RMath.gtb (Particle.x (physics w h default_mouse p)) (w + 200)
                  || RMath.ltb (Particle.y (physics w h default_mouse p)) (-200)
                  || RMath.gtb (Particle.y (physics w h default_mouse p)) (h + 200))
         eqn:E].
    + rewrite step_respawns by (auto; now left).
      destruct (reset_respawned w h rng (physics w h default_mouse p) Hu)
        as (p' & -> & _ & Hresp). cbn [snd].
      destruct (respawned_inside w h _ _ _ p' Hw Hh Hresp) as (_ & _ & Hs). lra.
    + apply lost_in_space_test in E.
      rewrite step_respawns by (auto; now right).
      destruct (reset_respawned w h rng (physics w h default_mouse p) Hu)
        as (p' & -> & _ & Hresp). cbn [snd].
      destruct (respawned_inside w h _ _ _ p' Hw Hh Hresp) as (_ & _ & Hs). lra.
    + rewrite step_physics. cbv zeta.
      apply ltb_false in Heh. rewrite Heh, E. cbn [snd]. unfold physics.
      rewrite repulsion_far by exact Hfar.
      change (speed (integrate (damping (gravity w h p))))
        with (speed (damping (gravity w h p))).
      pose proof (gravity_damping_contracts w h p). lra.
  - pose proof (step_not_lost w h default_mouse rng p Hw Hh Hu) as Hn.
    unfold lost_in_space in Hn. apply default_pointer_far; lra.
Qed.


Lemma unit_draws_zero c : unit_draws (mkRng (fun _ => 0%Q) c).
Proof. intros k. cbn [draws]. unfold Q2R. cbn. lra. Qed.

(** ** The field: [forEach] and [update] *)

Lemma update_state_cases w h mouse rng p :
  update_particle w h mouse rng p = as_numbers (step w h mouse rng p) \/
  update_particle w h mouse rng p = (rng, Particle.NaNs (Particle.size p)) /\
  distance_to_pointer mouse p = 0 /\ ~ event_horizon w h p.
Proof.
  destruct (Req_EM_T (distance_to_pointer mouse p) 0) as [E0|Hn0];
    [|left; apply update_particle_step; now left].
  destruct (Rlt_dec (distance_to_center w h p) 10) as [Heh|Heh].
  - left. apply update_particle_step. now right.
  - right. split; [now apply update_particle_NaN | auto].
Qed.

Lemma update_state_draws w h mouse rng s :
  draws (fst (update_state w h mouse rng s)) = draws rng.
Proof.
  destruct s as [p|r]; [|reflexivity]. cbn [update_state].
  destruct (update_state_cases w h mouse rng p) as [-> | [-> _]];
    [|reflexivity].
  unfold as_numbers. cbn [fst]. apply step_draws.
Qed.

Lemma forEach_draws w h mouse ps : forall rng,
  draws (fst (forEach (update_state w h mouse) rng ps)) = draws rng.
Proof.
  induction ps as [|s rest IH]; intros rng; [reflexivity|].
  cbn [forEach].
  pose proof (update_state_draws w h mouse rng s) as Hd.
  destruct (update_state w h mouse rng s) as [rng1 s']. cbn [fst] in Hd.
  specialize (IH rng1).
  destruct (forEach _ rng1 rest) as [rng2 rest']. cbn [fst] in *. congruence.
Qed.

Lemma forEach_length f ps : forall rng,
  length (snd (forEach f rng ps)) = length ps.
Proof.
  induction ps as [|s rest IH]; intros rng; [reflexivity|].
  cbn [forEach]. destruct (f rng s) as [rng1 s']. specialize (IH rng1).
  destruct (forEach f rng1 rest) as [rng2 rest']. cbn [snd length] in *.
  now rewrite IH.
Qed.

(** [forEach] at one index: the callback runs on the element found there,
    with the stream the elements before it have left. *)
Lemma forEach_nth f ps : forall rng i s,
  nth_error ps i = Some s ->
  nth_error (snd (forEach f rng ps)) i
  = Some (snd (f (fst (forEach f rng (firstn i ps))) s)) /\
  fst (forEach f rng (firstn (S i) ps))
  = fst (f (fst (forEach f rng (firstn i ps))) s).
Proof.
  induction ps as [|p rest IH]; intros rng i s Hi;
    [destruct i; discriminate|].
  destruct i as [|i]; cbn [nth_error] in Hi.
  - injection Hi as ->. cbn [firstn forEach fst].
    destruct (f rng s) as [r1 s'].
    destruct (forEach f r1 rest) as [r2 rest']. cbn [fst snd nth_error].
    split; reflexivity.
  - destruct (IH (fst (f rng p)) i s Hi) as [H1 H2].
    change (firstn (S (S i)) (p :: rest)) with (p :: firstn (S i) rest).
    change (firstn (S i) (p :: rest)) with (p :: firstn i rest).
    cbn [forEach]. destruct (f rng p) as [r1 p']. cbn [fst] in H1, H2.
    destruct (forEach f r1 rest) as [r2 rest'].
    destruct (forEach f r1 (firstn (S i) rest)) as [r3 l3].
    destruct (forEach f r1 (firstn i rest)) as [r4 l4].
    cbn [fst snd nth_error] in *. split; assumption.
Qed.

(** [update] at one index. *)
Lemma update_at rng a i s :
  particle a i = Some s ->
  particle (snd (update rng a)) i
  = Some (snd (update_state (IZR (width a)) (IZR (height a)) (mouse a)
                 (stream_at rng a i) s)) /\
  stream_at rng a (S i)
  = fst (update_state (IZR (width a)) (IZR (height a)) (mouse a)
           (stream_at rng a i) s).
Proof.
  intros Hi. unfold particle, stream_at, update in *.
  destruct (forEach_nth
              (update_state (IZR (width a)) (IZR (height a)) (mouse a))
              (particles a) rng i s Hi) as [H1 H2].
  destruct (forEach _ rng (particles a)) as [rng' ps].
  cbn [snd particles set_particles] in *. split; assumption.
Qed.

Lemma update_frame rng a :
  width (snd (update rng a)) = width a /\
  height (snd (update rng a)) = height a /\
  mouse (snd (update rng a)) = mouse a /\
  length (particles (snd (update rng a))) = length (particles a) /\
  draws (fst (update rng a)) = draws rng.
Proof.
  unfold update.
  pose proof (forEach_length
                (update_state (IZR (width a)) (IZR (height a)) (mouse a))
                (particles a) rng) as Hl.
  pose proof (forEach_draws (IZR (width a)) (IZR (height a)) (mouse a)
                (particles a) rng) as Hd.
  destruct (forEach _ rng (particles a)) as [rng' ps].
  cbn [fst snd width height mouse particles set_particles] in *. auto.
Qed.

Lemma stream_at_draws rng a i : draws (stream_at rng a i) = draws rng.
Proof. unfold stream_at. apply forEach_draws. Qed.


(** A step that meets a respawn condition: [update] leaves in the place of
    the particle one that is reset from the next three draws of the
    stream. *)
Lemma update_respawns a rng i p :
  (0 <= width a)%Z -> (0 <= height a)%Z -> unit_draws rng ->
  particle a i = Some (Particle.Numbers p) ->
  event_horizon (IZR (width a)) (IZR (height a)) p \/
  (distance_to_pointer (mouse a) p <> 0 /\
   lost_in_space (IZR (width a)) (IZR (height a))
     (physics (IZR (width a)) (IZR (height a)) (mouse a) p)) ->
  exists p',
    particle (snd (update rng a)) i = Some (Particle.Numbers p') /\
    stream_at rng a (S i)
    = mkRng (draws rng) (S (S (S (cursor (stream_at rng a i))))) /\
    respawned (IZR (width a)) (IZR (height a))
      (Q2R (draws rng (cursor (stream_at rng a i))))
      (Q2R (draws rng (S (cursor (stream_at rng a i)))))
      (Q2R (draws rng (S (S (cursor (stream_at rng a i)))))) p'.
Proof.
  intros Hw Hh Hu Hi Hcase.
  apply IZR_le in Hw, Hh.
  destruct (update_at rng a i _ Hi) as [-> ->]. cbn [update_state].
  pose proof (stream_at_draws rng a i) as Hd.
  assert (unit_draws (stream_at rng a i)) as Hu'
    by (unfold unit_draws; now rewrite Hd).
  rewrite update_particle_step by tauto.
  rewrite step_respawns by tauto.
  destruct (reset_respawned (IZR (width a)) (IZR (height a))
              (stream_at rng a i)
              (physics (IZR (width a)) (IZR (height a)) (mouse a) p) Hu')
    as (p' & -> & _ & Hresp).
  unfold as_numbers. cbn [fst snd]. rewrite Hd in *. eauto.
Qed.

(** C3. On a surface of non-negative size, with draws in [[0, 1)], for
    every particle of the field: if the call of [update] starts with the
    particle less than 10 from the centre, or moves it more than 200 beyond
    an edge, then [update] leaves in its place the particle reset from the
    next three draws [u1], [u2], [u3] of the stream: at the angle [2 PI u1] in
    [[0, 2 PI)] on the ring of radius [min(w, h) / 2 + 50 u2] around the
    centre, with the velocity [(- sin, cos)] of that angle times the speed
    [1 + 2 u3] in [[1, 3)]. A particle that [update] leaves less than 10 from
    the centre is reset so by the next call, wherever the pointer is then;
    and [update] leaves no particle more than 200 beyond an edge. *)
Theorem respawn_policy (a : t) (rng : Rng) (i : nat) (p : Particle.t) :
  (0 <= width a)%Z -> (0 <= height a)%Z -> unit_draws rng ->
  particle a i = Some (Particle.Numbers p) ->
  (event_horizon (IZR (width a)) (IZR (height a)) p \/
   (distance_to_pointer (mouse a) p <> 0 /\
    lost_in_space (IZR (width a)) (IZR (height a))
      (physics (IZR (width a)) (IZR (height a)) (mouse a) p)) ->
   exists p',
     particle (snd (update rng a)) i = Some (Particle.Numbers p') /\
     stream_at rng a (S i)
     = mkRng (draws rng) (S (S (S (cursor (stream_at rng a i))))) /\
     respawned (IZR (width a)) (IZR (height a))
       (Q2R (draws rng (cursor (stream_at rng a i))))
       (Q2R (draws rng (S (cursor (stream_at rng a i)))))
       (Q2R (draws rng (S (S (cursor (stream_at rng a i)))))) p') /\
  (forall p1 mouse',
     particle (snd (update rng a)) i = Some (Particle.Numbers p1) ->
     event_horizon (IZR (width a)) (IZR (height a)) p1 ->
     let rng1 := fst (update rng a) in
     let a1 := with_mouse (snd (update rng a)) mouse' in
     exists p2,
       particle (snd (update rng1 a1)) i = Some (Particle.Numbers p2) /\
       respawned (IZR (width a)) (IZR (height a))
         (Q2R (draws rng (cursor (stream_at rng1 a1 i))))
         (Q2R (draws rng (S (cursor (stream_at rng1 a1 i)))))
         (Q2R (draws rng (S (S (cursor (stream_at rng1 a1 i)))))) p2) /\
  (forall j q,
     particle (snd (update rng a)) j = Some (Particle.Numbers q) ->
     ~ lost_in_space (IZR (width a)) (IZR (height a)) q).
Proof.
  intros Hw Hh Hu Hi. split; [|split].
  - now apply update_respawns.
  - intros p1 mouse' Hi1 Heh rng1 a1.
    destruct (update_frame rng a) as (Ew & Eh & _ & _ & Ed).
    assert (unit_draws rng1) as Hu1
      by (unfold unit_draws, rng1; now rewrite Ed).
    destruct (update_respawns a1 rng1 i p1) as (p2 & H1 & _ & H2);
      try assumption.
    + unfold a1. cbn [width with_mouse]. now rewrite Ew.
    + unfold a1. cbn [height with_mouse]. now rewrite Eh.
    + left. unfold a1. cbn [width height with_mouse]. now rewrite Ew, Eh.
    + exists p2. split; [exact H1|].
      unfold a1 in H2 at 1 2. cbn [width height with_mouse] in H2.
      rewrite Ew, Eh in H2. unfold rng1 in H2 at 1 3 5. rewrite Ed in H2.
      exact H2.
  - intros j q Hj.
    assert (exists s, particle a j = Some s) as [s Hs].
    { unfold particle in *.
      destruct (nth_error (particles a) j) as [s|] eqn:E; [eauto|].
      apply nth_error_None in E.
      destruct (update_frame rng a) as (_ & _ & _ & El & _).
      assert (nth_error (particles (snd (update rng a))) j = None) as En
        by (apply nth_error_None; lia).
      congruence. }
    destruct (update_at rng a j s Hs) as [Hj' _]. rewrite Hj' in Hj.
    injection Hj as Hj. destruct s as [p0|r]; [|discriminate Hj].
    cbn [update_state] in Hj.
    assert (unit_draws (stream_at rng a j)) as Hu'
      by (unfold unit_draws; now rewrite stream_at_draws).
    destruct (update_state_cases (IZR (width a)) (IZR (height a)) (mouse a)
                (stream_at rng a j) p0) as [E | [E _]];
      rewrite E in Hj; [|discriminate Hj].
    unfold as_numbers in Hj. cbn [snd] in Hj. injection Hj as <-.
    apply step_not_lost; [now apply IZR_le | now apply IZR_le | exact Hu'].
Qed.

Lemma forEach_bounded w h B ps :
  0 <= w -> 0 <= h -> 190 <= B ->
  forall rng, unit_draws rng ->
  Forall (numbers (fun p => speed p <= B /\
                            200 <= distance_to_pointer default_mouse p)) ps ->
  draws (fst (forEach (update_state w h default_mouse) rng ps)) = draws rng /\
  Forall (numbers (fun p => speed p <= B /\
                            200 <= distance_to_pointer default_mouse p))
         (snd (forEach (update_state w h default_mouse) rng ps)).
Proof.
  intros Hw Hh HB. induction ps as [|s rest IH]; intros rng Hu Hall.
  - split; [reflexivity | constructor].
  - inversion Hall as [|? ? Hs Hrest]; subst. cbn [forEach].
    destruct s as [p|r]; [|contradiction]. cbn [numbers] in Hs.
    destruct Hs as [Hv Hfar]. cbn [update_state].
    rewrite update_particle_step by (left; lra).
    pose proof (step_bounded w h rng p B Hw Hh Hu HB Hv Hfar) as Hp.
    pose proof (step_draws w h default_mouse rng p) as Hd.
    destruct (step w h default_mouse rng p) as [rng1 p'].
    unfold as_numbers. cbn [fst snd] in *.
    assert (unit_draws rng1) as Hu1 by (unfold unit_draws; now rewrite Hd).
    destruct (IH rng1 Hu1 Hrest) as [Hd2 Hall2].
    destruct (forEach _ rng1 rest) as [rng2 rest']. cbn [fst snd] in *.
    split; [congruence | now constructor].
Qed.

(** C4. With the pointer at its default position and draws in [[0, 1)],
    every [update] keeps the speed of every particle, however large or small,
    under any bound [B >= 190] it starts under, whatever the number of frames
    (1000 or any other), provided no particle starts within reach of the
    pointer: the coordinates of every particle stay numbers, gravity adds at
    most [1000 / 50 * 0.5 = 10] to each velocity component, a step without
    respawn maps the speed [v] to at most [0.95 (v + 10)], and a respawn sets
    it below 3. *)
Theorem velocity_bounded (a : t) (rng : Rng) (B : R) (n : nat) :
  (0 <= width a)%Z -> (0 <= height a)%Z ->
  mouse a = default_mouse -> unit_draws rng -> 190 <= B ->
  Forall (numbers (fun p => speed p <= B /\
                            200 <= distance_to_pointer default_mouse p))
         (particles a) ->
  Forall (numbers (fun p => speed p <= B))
         (particles (snd (updates n rng a))) /\
  (forall p,
     Rabs (Particle.vx (gravity (IZR (width a)) (IZR (height a)) p)
           - Particle.vx p) <= 10 /\
     Rabs (Particle.vy (gravity (IZR (width a)) (IZR (height a)) p)
           - Particle.vy p) <= 10) /\
  (forall p,
     speed (damping (gravity (IZR (width a)) (IZR (height a)) p))
     <= 0.95 * (speed p + 10)).
Proof.
  intros Hw Hh Hm Hu HB Hall.
  split; [|split; [intros; apply gravity_increment
                  |intros; apply gravity_damping_contracts]].
  assert (Forall (numbers (fun p => speed p <= B /\
                           200 <= distance_to_pointer default_mouse p))
                 (particles (snd (updates n rng a)))) as Hinv.
  { revert a rng Hw Hh Hm Hu Hall.
    induction n as [|n IH]; intros a rng Hw Hh Hm Hu Hall; [exact Hall|].
    cbn [updates]. unfold update. rewrite Hm.
    destruct (forEach_bounded (IZR (width a)) (IZR (height a)) B (particles a)
                (IZR_le _ _ Hw) (IZR_le _ _ Hh) HB rng Hu Hall) as [Hd Hall'].
    destruct (forEach _ rng (particles a)) as [rng' ps]. cbn [fst snd] in *.
    apply IH; cbn [width height mouse particles set_particles]; auto.
    unfold unit_draws. now rewrite Hd. }
  eapply Forall_impl; [|exact Hinv].
  intros [p|r]; cbn [numbers]; tauto.
Qed.



(** A field of two particles on a 1000 x 1000 surface: the second one, at
    the centre, is inside the event horizon and is reset by the same call,
    from the first three draws, the first particle having read none. *)
Lemma respawn_policy_witness :
  let a := mk (Context2D 0) 1000 1000
              [Particle.Numbers (Particle.mk 500 600 0 0 1);
               Particle.Numbers (Particle.mk 500 500 0 0 1)]
              None "#8b5cf6" 2 default_mouse in
  exists p',
    particle (snd (update (mkRng (fun _ => 0%Q) 0) a)) 1
    = Some (Particle.Numbers p') /\
    respawned 1000 1000 (Q2R 0) (Q2R 0) (Q2R 0) p'.
Proof.
  intros a.
  destruct (proj1 (respawn_policy a (mkRng (fun _ => 0%Q) 0) 1
                     (Particle.mk 500 500 0 0 1)
                     ltac:(cbn; lia) ltac:(cbn; lia) (unit_draws_zero 0)
                     eq_refl)) as (p' & H1 & _ & H2).
  - left. change (IZR (width a)) with 1000. change (IZR (height a)) with 1000.
    unfold event_horizon, distance_to_center. cbn [Particle.x Particle.y].
    replace ((1000 / 2 - 500) * (1000 / 2 - 500)
             + (1000 / 2 - 500) * (1000 / 2 - 500)) with 0 by lra.
    rewrite sqrt_0. lra.
  - exists p'. split; [exact H1|]. exact H2.
Defined.

(** One particle at rest on a 1000 x 1000 surface: its speed stays under
    190 over 1000 frames. *)
Lemma velocity_bounded_witness :
  Forall (numbers (fun p => speed p <= 190))
    (particles
       (snd (updates 1000 (mkRng (fun _ => 0%Q) 0)
               (mk (Context2D 0) 1000 1000
                   [Particle.Numbers (Particle.mk 500 600 0 0 1)] None
                   "#8b5cf6" 1 default_mouse)))).
Proof.
  apply (velocity_bounded
           (mk (Context2D 0) 1000 1000
               [Particle.Numbers (Particle.mk 500 600 0 0 1)] None
               "#8b5cf6" 1 default_mouse)
           (mkRng (fun _ => 0%Q) 0) 190 1000).
  - cbn. lia.
  - cbn. lia.
  - reflexivity.
  - apply unit_draws_zero.
  - lra.
  - cbn [particles]. constructor; [|constructor]. cbn [numbers]. split.
    + unfold speed. cbn [Particle.vx Particle.vy].
      apply sqrt_le_bound; lra.
    + apply default_pointer_far; cbn [Particle.x Particle.y]; lra.
Defined.

End ParticleFacts.

(** ** The node graph *)

Module GraphFacts.

Import NetworkGraph.
Local Open Scope R_scope.

Lemma distance_sym x1 y1 x2 y2 : distance x1 y1 x2 y2 = distance x2 y2 x1 y1.
Proof. unfold distance. f_equal. ring. Qed.

(** The alpha of a peer line decreases strictly with the distance and is
    [0] at the threshold. *)
Lemma peer_alpha_decreasing cd d1 d2 :
  0 < cd -> d1 < d2 -> peer_alpha cd d2 < peer_alpha cd d1.
Proof.
  intros Hcd Hd. unfold peer_alpha, Rdiv.
  pose proof (Rinv_0_lt_compat cd Hcd) as Hinv. nra.
Qed.

Lemma peer_alpha_threshold cd : 0 < cd -> peer_alpha cd cd = 0.
Proof. intros Hcd. unfold peer_alpha. field. lra. Qed.

(** A peer line and a pointer line over the same segment differ in alpha
    unless the segment is shorter than the threshold. *)
Lemma alpha_separates cd d :
  0 < cd -> d < cd + 50 -> peer_alpha cd d = pointer_alpha cd d -> d < cd.
Proof.
  intros Hcd Hd E. unfold peer_alpha, pointer_alpha in E.
  destruct (Rlt_dec d cd) as [|Hge]; [assumption|]. exfalso.
  assert (d / cd * cd = d) as Hu by (field; lra).
  assert (d / (cd + 50) * (cd + 50) = d) as Hv by (field; lra).
  set (u := d / cd) in *. set (v := d / (cd + 50)) in *.
  assert (1 <= u) by nra. assert (v < 1) by nra. lra.
Qed.

Lemma connect_peers_in a p q rest :
  In q rest ->
  distance (Node.x p) (Node.y p) (Node.x q) (Node.y q) < connectionDistance a ->
  In (peer_line a p q) (connect_peers a p rest).
Proof.
  intros Hin Hd. induction rest as [|p2 rest IH]; [contradiction|].
  cbn [connect_peers]. apply in_or_app. destruct Hin as [->|Hin].
  - left. unfold RMath.ltb. destruct (Rlt_dec _ _); [|contradiction].
    left. unfold peer_line, peer_alpha, hexToRgba. reflexivity.
  - right. now apply IH.
Qed.

Lemma connect_mouse_in a p :
  distance (fst (mouse a)) (snd (mouse a)) (Node.x p) (Node.y p)
  < connectionDistance a + 50 ->
  In (pointer_line a p) (connect_mouse a p).
Proof.
  intros Hd. unfold connect_mouse, RMath.ltb.
  destruct (Rlt_dec _ _); [|contradiction].
  left. unfold pointer_line, pointer_alpha, hexToRgba. reflexivity.
Qed.

(** What [connect_peers] and [connect_mouse] stroke. *)
Lemma connect_peers_inv a p rest op :
  In op (connect_peers a p rest) ->
  exists q, In q rest /\ op = peer_line a p q /\
            distance (Node.x p) (Node.y p) (Node.x q) (Node.y q)
            < connectionDistance a.
Proof.
  induction rest as [|p2 rest IH]; [contradiction|].
  cbn [connect_peers]. intros Hin. apply in_app_or in Hin.
  destruct Hin as [Hin|Hin].
  - unfold RMath.ltb in Hin. destruct (Rlt_dec _ _) as [Hd|]; [|contradiction].
    destruct Hin as [<-|[]]. exists p2. repeat split; [now left | exact Hd].
  - destruct (IH Hin) as (q & Hq & -> & Hd). exists q.
    repeat split; [now right | exact Hd].
Qed.

Lemma connect_mouse_inv a p op :
  In op (connect_mouse a p) ->
  op = pointer_line a p /\
  distance (fst (mouse a)) (snd (mouse a)) (Node.x p) (Node.y p)
  < connectionDistance a + 50.
Proof.
  unfold connect_mouse, RMath.ltb.
  destruct (Rlt_dec _ _) as [Hd|]; [|contradiction].
  intros [<-|[]]. split; [reflexivity | exact Hd].
Qed.

Lemma connections_inv a ps op :
  In op (connections a ps) ->
  (exists p q, op = peer_line a p q /\
               distance (Node.x p) (Node.y p) (Node.x q) (Node.y q)
               < connectionDistance a) \/
  (exists p, op = pointer_line a p /\
             distance (fst (mouse a)) (snd (mouse a)) (Node.x p) (Node.y p)
             < connectionDistance a + 50).
Proof.
  induction ps as [|p1 rest IH]; [contradiction|].
  cbn [connections]. intros Hin.
  apply in_app_or in Hin. destruct Hin as [Hin|Hin].
  - destruct (connect_peers_inv a p1 rest op Hin) as (q & _ & -> & Hd).
    left. eauto.
  - apply in_app_or in Hin. destruct Hin as [Hin|Hin].
    + destruct (connect_mouse_inv a p1 op Hin) as [-> Hd]. right. eauto.
    + now apply IH.
Qed.

Lemma connections_peer a ps i j p q :
  (i < j)%nat -> nth_error ps i = Some p -> nth_error ps j = Some q ->
  distance (Node.x p) (Node.y p) (Node.x q) (Node.y q) < connectionDistance a ->
  In (peer_line a p q) (connections a ps).
Proof.
  revert i j. induction ps as [|p1 rest IH]; intros i j Hij Hi Hj Hd.
  - destruct i; discriminate.
  - destruct j as [|j]; [lia|]. cbn [nth_error] in Hj. cbn [connections].
    destruct i as [|i]; cbn [nth_error] in Hi.
    + injection Hi as ->. apply in_or_app. left.
      apply connect_peers_in; [eapply nth_error_In; eauto | exact Hd].
    + apply in_or_app. right. apply in_or_app. right.
      apply (IH i j); [lia | assumption..].
Qed.

Lemma connections_pointer a ps i p :
  nth_error ps i = Some p ->
  distance (fst (mouse a)) (snd (mouse a)) (Node.x p) (Node.y p)
  < connectionDistance a + 50 ->
  In (pointer_line a p) (connections a ps).
Proof.
  revert i. induction ps as [|p1 rest IH]; intros i Hi Hd.
  - destruct i; discriminate.
  - cbn [connections]. apply in_or_app. right. apply in_or_app.
    destruct i as [|i]; cbn [nth_error] in Hi.
    + injection Hi as ->. left. now apply connect_mouse_in.
    + right. now apply (IH i).
Qed.

Lemma connect_peers_lines a p rest : forall k,
  (forall j, nth_error (particles a) (k + j) = nth_error rest j) ->
  connect_peers a p rest
  = flat_map (fun j => match node a j with
                       | Some q => line_between a p q
                       | None => []
                       end)
             (seq k (length rest)).
Proof.
  induction rest as [|q rest IH]; intros k Hk; [reflexivity|].
  cbn [connect_peers length seq flat_map]. unfold node at 1.
  rewrite <- (Nat.add_0_r k) at 1. rewrite (Hk 0%nat). cbn [nth_error].
  f_equal. apply IH. intros j. pose proof (Hk (S j)) as H. cbn [nth_error] in H.
    rewrite <- H. f_equal. lia.
Qed.

Lemma connections_lines a l : forall k,
  (forall j, nth_error (particles a) (k + j) = nth_error l j) ->
  (k + length l = length (particles a))%nat ->
  connections a l = flat_map (lines_from a) (seq k (length l)).
Proof.
  induction l as [|p rest IH]; intros k Hk Hlen; [reflexivity|].
  cbn [connections length seq flat_map]. cbn [length] in Hlen.
  unfold lines_from at 1, node at 1.
  rewrite <- (Nat.add_0_r k) at 1. rewrite (Hk 0%nat). cbn [nth_error].
  replace (length (particles a) - S k)%nat with (length rest) by lia.
  rewrite <- app_assoc. f_equal.
  - apply connect_peers_lines. intros j. pose proof (Hk (S j)) as H. cbn [nth_error] in H.
    rewrite <- H. f_equal. lia.
  - f_equal. apply IH; [|lia].
    intros j. pose proof (Hk (S j)) as H. cbn [nth_error] in H.
    rewrite <- H. f_equal. lia.
Qed.

(** The lines of [draw], each with the indices of its nodes. *)
Lemma lines_inv a op :
  In op (lines a) ->
  (exists i j p q,
     (i < j)%nat /\ node a i = Some p /\ node a j = Some q /\
     distance (Node.x p) (Node.y p) (Node.x q) (Node.y q) < connectionDistance a /\
     op = peer_line a p q) \/
  (exists i p,
     node a i = Some p /\
     distance (fst (mouse a)) (snd (mouse a)) (Node.x p) (Node.y p)
     < connectionDistance a + 50 /\
     op = pointer_line a p).
Proof.
  unfold lines. intros Hin. apply in_flat_map in Hin.
  destruct Hin as (i & _ & Hin). unfold lines_from in Hin.
  destruct (node a i) as [p|] eqn:Ep; [|contradiction].
  apply in_app_or in Hin. destruct Hin as [Hin|Hin].
  - apply in_flat_map in Hin. destruct Hin as (j & Hj & Hin).
    apply in_seq in Hj. destruct (node a j) as [q|] eqn:Eq; [|contradiction].
    unfold line_between, RMath.ltb in Hin.
    destruct (Rlt_dec _ _) as [Hd|]; [|contradiction].
    destruct Hin as [<-|[]]. left. exists i, j, p, q.
    repeat split; try assumption. lia.
  - unfold line_to_pointer, RMath.ltb in Hin.
    destruct (Rlt_dec _ _) as [Hd|]; [|contradiction].
    destruct Hin as [<-|[]]. right. exists i, p. auto.
Qed.

(** C5. With a positive connection distance [cd]: for every two nodes at
    indices [i < j], [draw] strokes the line between them, with alpha
    [(1 - d / cd) * 0.5] for their distance [d], if and only if [d < cd]; that
    alpha decreases strictly as the distance grows and is [0] at the
    threshold; for every node at a distance [m < cd + 50] from the pointer,
    [draw] strokes the line from the node to the pointer with alpha
    [(1 - m / (cd + 50)) * 0.8]; [draw] strokes no other line, and strokes
    these once each, in the order of the indices: its calls are [clearRect],
    the line width, the lines so listed, the fill colour, and the node
    circles; so that all lines come before any node circle. *)
Theorem draw_connections (a : t) :
  0 < connectionDistance a ->
  (forall i j p q,
     (i < j)%nat -> node a i = Some p -> node a j = Some q ->
     let d := distance (Node.x p) (Node.y p) (Node.x q) (Node.y q) in
     In (StrokeLine (Rgba (color a) ((1 - d / connectionDistance a) * 0.5))
                    (Node.x p) (Node.y p) (Node.x q) (Node.y q))
        (draw a)
     <-> d < connectionDistance a) /\
  (forall d1 d2, d1 < d2 ->
     peer_alpha (connectionDistance a) d2 < peer_alpha (connectionDistance a) d1) /\
  peer_alpha (connectionDistance a) (connectionDistance a) = 0 /\
  (forall i p,
     node a i = Some p ->
     let m := distance (fst (mouse a)) (snd (mouse a)) (Node.x p) (Node.y p) in
     m < connectionDistance a + 50 ->
     In (StrokeLine
           (Rgba (color a) ((1 - m / (connectionDistance a + 50)) * 0.8))
           (Node.x p) (Node.y p) (fst (mouse a)) (snd (mouse a)))
        (draw a)) /\
  (forall op, In op (draw a) -> is_line op ->
     (exists i j p q,
        (i < j)%nat /\ node a i = Some p /\ node a j = Some q /\
        distance (Node.x p) (Node.y p) (Node.x q) (Node.y q)
        < connectionDistance a /\
        op = StrokeLine
               (Rgba (color a)
                  ((1 - distance (Node.x p) (Node.y p) (Node.x q) (Node.y q)
                        / connectionDistance a) * 0.5))
               (Node.x p) (Node.y p) (Node.x q) (Node.y q)) \/
     (exists i p,
        node a i = Some p /\
        distance (fst (mouse a)) (snd (mouse a)) (Node.x p) (Node.y p)
        < connectionDistance a + 50 /\
        op = StrokeLine
               (Rgba (color a)
                  ((1 - distance (fst (mouse a)) (snd (mouse a)) (Node.x p)
                          (Node.y p) / (connectionDistance a + 50)) * 0.8))
               (Node.x p) (Node.y p) (fst (mouse a)) (snd (mouse a)))) /\
  draw a
  = [ClearRect 0 0 (IZR (width a)) (IZR (height a)); SetLineWidth 1]
    ++ lines a
    ++ [SetFillStyle (Hex (color a))]
    ++ map (fun p => FillCircle (Node.x p) (Node.y p) (Node.size p))
           (particles a) /\
  (exists before after,
     draw a = before ++ after /\
     (forall op, In op before -> ~ is_circle op) /\
     (forall op, In op after -> ~ is_line op)).
Proof.
  intros Hcd.
  assert (connections a (particles a) = lines a) as Hlines.
  { unfold lines. apply connections_lines; [intros j; reflexivity | lia]. }
  split; [|split; [|split; [|split; [|split; [|split]]]]].
  - intros i j p q Hij Hp Hq d.
    change (StrokeLine (Rgba (color a) ((1 - d / connectionDistance a) * 0.5))
                       (Node.x p) (Node.y p) (Node.x q) (Node.y q))
      with (peer_line a p q).
    split.
    + intros Hin. unfold draw in Hin. cbn [app] in Hin.
      destruct Hin as [E|[E|Hin]]; [discriminate E | discriminate E |].
      apply in_app_or in Hin. destruct Hin as [Hin|Hin].
      * apply connections_inv in Hin.
        destruct Hin as [(p1 & p2 & E & Hd)|(p1 & E & Hd)].
        -- unfold peer_line in E. injection E as _ Ex Ey Ex2 Ey2.
           unfold d. now rewrite Ex, Ey, Ex2, Ey2.
        -- unfold peer_line, pointer_line in E.
           injection E as Ealpha Ex Ey Ex2 Ey2.
           assert (distance (fst (mouse a)) (snd (mouse a)) (Node.x p1)
                     (Node.y p1) = d) as Em.
           { rewrite <- Ex, <- Ey, <- Ex2, <- Ey2. apply distance_sym. }
           rewrite Em in Hd, Ealpha. fold d in Ealpha.
           now apply (alpha_separates (connectionDistance a) d).
      * destruct Hin as [E|Hin]; [discriminate E|].
        unfold nodes in Hin. apply in_map_iff in Hin.
        destruct Hin as (n & E & _). discriminate E.
    + intros Hd. unfold draw. cbn [app]. right. right. apply in_or_app. left.
      now apply (connections_peer a (particles a) i j).
  - intros d1 d2. now apply peer_alpha_decreasing.
  - now apply peer_alpha_threshold.
  - intros i p Hp m Hm. unfold draw. cbn [app]. right. right.
    apply in_or_app. left.
    now apply (connections_pointer a (particles a) i).
  - intros op Hin Hl. unfold draw in Hin. cbn [app] in Hin.
    destruct Hin as [<-|[<-|Hin]]; try contradiction.
    apply in_app_or in Hin. destruct Hin as [Hin|Hin].
    + rewrite Hlines in Hin. now apply lines_inv.
    + cbn [app] in Hin. destruct Hin as [<-|Hin]; [contradiction|].
      unfold nodes in Hin. apply in_map_iff in Hin.
      destruct Hin as (n & <- & _). contradiction.
  - unfold draw. now rewrite Hlines.
  - exists ([ClearRect 0 0 (IZR (width a)) (IZR (height a)); SetLineWidth 1]
            ++ connections a (particles a)),
           ([SetFillStyle (Hex (color a))] ++ nodes a).
    split; [unfold draw; now rewrite <- app_assoc|]. split.
    + intros op Hin Hc. cbn [app] in Hin.
      destruct Hin as [<-|[<-|Hin]]; [exact Hc | exact Hc |].
      apply connections_inv in Hin.
      destruct Hin as [(p1 & p2 & -> & _)|(p1 & -> & _)]; exact Hc.
    + intros op Hin Hl. cbn [app] in Hin.
      destruct Hin as [<-|Hin]; [exact Hl|].
      unfold nodes in Hin. apply in_map_iff in Hin.
      destruct Hin as (n & <- & _). exact Hl.
Qed.

(** Three nodes and the pointer at its default position, for the desktop
    threshold 180: the first two are 100 apart and joined by a line, the
    first and the third are 300 apart and are not. *)
Lemma draw_connections_witness :
  let a := mk (Context2D 0) 1000 1000
              [Node.mk 100 100 0 0 2; Node.mk 200 100 0 0 2;
               Node.mk 100 400 0 0 2]
              None "#8b5cf6" 20 default_mouse 180 in
  In (StrokeLine
        (Rgba "#8b5cf6" ((1 - distance 100 100 200 100 / 180) * 0.5))
        100 100 200 100) (draw a) /\
  ~ In (StrokeLine
          (Rgba "#8b5cf6" ((1 - distance 100 100 100 400 / 180) * 0.5))
          100 100 100 400) (draw a).
Proof.
  intros a.
  assert (0 < connectionDistance a) as Hcd
    by (change (connectionDistance a) with 180; lra).
  destruct (draw_connections a Hcd) as (Hiff & _).
  pose proof (Hiff 0%nat 1%nat (Node.mk 100 100 0 0 2) (Node.mk 200 100 0 0 2)
                ltac:(lia) eq_refl eq_refl) as H1.
  pose proof (Hiff 0%nat 2%nat (Node.mk 100 100 0 0 2) (Node.mk 100 400 0 0 2)
                ltac:(lia) eq_refl eq_refl) as H2.
  cbv zeta in H1, H2.
  change (connectionDistance a) with 180 in H1, H2.
  change (color a) with "#8b5cf6"%string in H1, H2.
  cbn [Node.x Node.y] in H1, H2.
  split.
  - apply H1. unfold distance.
    apply Rle_lt_trans with 100; [|lra].
    apply ParticleFacts.sqrt_le_bound; lra.
  - intros Hin. apply H2 in Hin. unfold distance in Hin.
    assert (300 <= sqrt ((100 - 100) * (100 - 100)
                         + (100 - 400) * (100 - 400)))
      by (apply ParticleFacts.sqrt_ge_bound; lra).
    lra.
Defined.

End GraphFacts.

(** ** The lifecycle *)

Module LifecycleFacts.

Import Visual.
Local Open Scope Z_scope.

Section Generic.

Context {T num : Type} {M : Methods T num}.
Variable valid : T -> Prop.
Hypothesis L : Laws valid.

Lemma addEventListener_frames ty l w :
  frames (addEventListener ty l w) = frames w /\
  frame_counter (addEventListener ty l w) = frame_counter w.
Proof. unfold addEventListener. now destruct (existsb _ _). Qed.

Lemma addEventListener_allowed ty l w :
  (ty, l) = (ev_resize, bound_resize) \/
  (ty, l) = (ev_mousemove, bound_handleMouseMove) ->
  Forall (fun l => l = (ev_resize, bound_resize) \/
                   l = (ev_mousemove, bound_handleMouseMove)) (listeners w) ->
  Forall (fun l => l = (ev_resize, bound_resize) \/
                   l = (ev_mousemove, bound_handleMouseMove))
         (listeners (addEventListener ty l w)).
Proof.
  intros Hl Hall. unfold addEventListener.
  destruct (existsb _ _); [exact Hall|]. cbn [listeners].
  apply Forall_app. split; [exact Hall | now constructor].
Qed.

(** Removing the two bound methods leaves nothing registered. *)
Lemma remove_both ls :
  Forall (fun l => l = (ev_resize, bound_resize) \/
                   l = (ev_mousemove, bound_handleMouseMove)) ls ->
  filter (fun k => negb (same_listener (ev_mousemove, bound_handleMouseMove) k))
    (filter (fun k => negb (same_listener (ev_resize, bound_resize) k)) ls)
  = [].
Proof.
  induction 1 as [|l ls [->| ->] _ IH]; [reflexivity | exact IH | exact IH].
Qed.

(** [loop], entered with no frame callback pending, runs one frame and
    leaves exactly one pending, whose handle it stores. *)
Lemma loop_consistent w :
  valid (self w) -> 0 <= frame_counter (window w) -> frames (window w) = [] ->
  Forall (fun l => l = (ev_resize, bound_resize) \/
                   l = (ev_mousemove, bound_handleMouseMove))
         (listeners (window w)) ->
  exists w', loop w = Some w' /\ consistent valid w'.
Proof.
  intros Hv Hc Hf Hl. unfold loop.
  destruct (update_ok valid L (rng w) (self w) Hv) as (r1 & s1 & -> & Hv1 & _).
  destruct (draw_ok valid L s1 Hv1) as [ops ->].
  unfold requestAnimationFrame. eexists. split; [reflexivity|].
  unfold consistent. cbn [self window frame_counter frames listeners].
  rewrite (get_set valid L), Hf.
  repeat split; [now apply (valid_set valid L) | lia | lia | lia | exact Hl].
Qed.

Lemma start_consistent w :
  consistent valid w -> exists w', start w = Some w' /\ consistent valid w'.
Proof.
  intros Hw. pose proof Hw as (Hv & Hc & Hh & Hl). unfold start.
  destruct (animationId (self w)) as [h|] eqn:Ea.
  - destruct Hh as [Hpos _]. unfold truthy.
    destruct (Z.eqb_spec h 0); [lia|]. cbn [negb]. eauto.
  - cbn [truthy negb]. now apply loop_consistent.
Qed.

Lemma stop_consistent w :
  consistent valid w ->
  consistent valid (stop w) /\ animationId (self (stop w)) = None /\
  frames (window (stop w)) = [] /\
  listeners (window (stop w)) = listeners (window w).
Proof.
  intros Hw. pose proof Hw as (Hv & Hc & Hh & Hl). unfold stop.
  destruct (animationId (self w)) as [h|] eqn:Ea.
  - destruct Hh as [Hpos Hf]. unfold truthy.
    destruct (Z.eqb_spec h 0); [lia|]. cbn [negb].
    unfold consistent, cancelAnimationFrame.
    cbn [self window frame_counter frames listeners].
    rewrite (get_set valid L), Hf. cbn [filter]. rewrite Z.eqb_refl. cbn [negb].
    repeat split; [now apply (valid_set valid L) | exact Hc | exact Hl].
  - repeat split; try assumption. unfold consistent. now rewrite Ea.
Qed.

Lemma destroy_consistent w :
  consistent valid w ->
  consistent valid (destroy w) /\ animationId (self (destroy w)) = None /\
  frames (window (destroy w)) = [] /\ listeners (window (destroy w)) = [].
Proof.
  intros Hw.
  destruct (stop_consistent w Hw) as ((Hv & Hc & Hh & Hl) & Ha & Hf & Hls).
  unfold destroy, removeEventListener, consistent.
  cbn [self window frame_counter frames listeners].
  rewrite Ha in *. rewrite (remove_both _ Hl).
  repeat split; try assumption. constructor.
Qed.

Lemma with_self_consistent w r s :
  consistent valid w -> valid s -> animationId s = animationId (self w) ->
  consistent valid (mkWorld r (window w) s (screen w)).
Proof.
  intros (Hv & Hc & Hh & Hl) Hs Ha. unfold consistent.
  cbn [self window]. rewrite Ha. auto.
Qed.

(** No event throws, and every event keeps the handle and the loop in
    agreement. *)
Lemma step_consistent e w :
  consistent valid w -> exists w', step e w = Some w' /\ consistent valid w'.
Proof.
  intros Hw. pose proof Hw as (Hv & Hc & Hh & Hl).
  destruct e as [dom| | | |h|dom|e dom]; cbn [step].
  - unfold init.
    destruct (setup_ok valid L dom (rng w) (self w) Hv)
      as (r1 & s1 & -> & Hv1 & Ha1).
    destruct (start_consistent (mkWorld r1 (window w) s1 (screen w))
                (with_self_consistent w r1 s1 Hw Hv1 Ha1))
      as (w1 & -> & (Hv2 & Hc2 & Hh2 & Hl2)).
    eexists. split; [reflexivity|]. unfold consistent. cbn [self window].
    destruct (addEventListener_frames ev_mousemove bound_handleMouseMove
                (addEventListener ev_resize bound_resize (window w1)))
      as [-> ->].
    destruct (addEventListener_frames ev_resize bound_resize (window w1))
      as [-> ->].
    repeat split; try assumption.
    apply addEventListener_allowed; [now right|].
    apply addEventListener_allowed; [now left | exact Hl2].
  - now apply start_consistent.
  - eexists. split; [reflexivity|]. now apply stop_consistent.
  - eexists. split; [reflexivity|]. now apply destroy_consistent.
  - destruct (existsb (Z.eqb h) (frames (window w))) eqn:Ex; [|eauto].
    apply loop_consistent; cbn [self window cancelAnimationFrame frame_counter
                                frames listeners]; try assumption.
    destruct (animationId (self w)) as [h'|].
    + destruct Hh as [_ Hf]. rewrite Hf in *. cbn [existsb orb] in Ex.
      rewrite orb_false_r in Ex. apply Z.eqb_eq in Ex. subst h'.
      cbn [filter]. now rewrite Z.eqb_refl.
    + rewrite Hh in Ex. discriminate.
  - destruct (listening ev_resize bound_resize w); [|eauto].
    destruct (resize_ok valid L dom (rng w) (self w) Hv)
      as (r1 & s1 & -> & Hv1 & Ha1).
    eexists. split; [reflexivity|]. now apply with_self_consistent.
  - destruct (listening ev_mousemove bound_handleMouseMove w); [|eauto].
    destruct (handleMouseMove_ok valid L e dom (rng w) (self w) Hv)
      as (r1 & s1 & -> & Hv1 & Ha1).
    eexists. split; [reflexivity|]. now apply with_self_consistent.
Qed.

Lemma reachable_consistent w : reachable valid w -> consistent valid w.
Proof.
  induction 1 as [w (Hv & Ha & Hc & Hf & Hl)|e w w' _ IH Hstep].
  - unfold consistent. rewrite Ha, Hl. repeat split; auto.
  - destruct (step_consistent e w IH) as (w'' & E & Hw''). congruence.
Qed.

(** C8. In every state an instance goes through: [animationId] is non-null
    exactly when a frame callback of the instance is pending, and at most one
    is; no event throws; [start] with a non-null handle and [stop] with a null
    handle change nothing; and after [destroy] the handle is null, no frame
    callback is pending, no listener is registered, and no frame or event of
    the host changes anything any more. A freshly constructed instance is such
    a state. *)
Theorem handle_tracks_loop (w : World T num) :
  reachable valid w ->
  (animationId (self w) <> None <-> frames (window w) <> []) /\
  (length (frames (window w)) <= 1)%nat /\
  (forall e, exists w', step e w = Some w') /\
  (animationId (self w) <> None -> start w = Some w) /\
  (animationId (self w) = None -> stop w = w) /\
  animationId (self (destroy w)) = None /\
  frames (window (destroy w)) = [] /\
  listeners (window (destroy w)) = [] /\
  (forall e, host_event e = true -> step e (destroy w) = Some (destroy w)).
Proof.
  intros Hr. apply reachable_consistent in Hr.
  pose proof Hr as (Hv & Hc & Hh & Hl).
  destruct (destroy_consistent w Hr) as (_ & Hda & Hdf & Hdl).
  repeat split.
  - intros Ha Hf. destruct (animationId (self w)) as [h|]; [|congruence].
    destruct Hh as [_ Hh]. congruence.
  - intros Hf Ha. rewrite Ha in Hh. contradiction.
  - destruct (animationId (self w)); [destruct Hh as [_ ->] | rewrite Hh];
      cbn; lia.
  - intros e. destruct (step_consistent e w Hr) as (w' & E & _). eauto.
  - intros Ha. unfold start.
    destruct (animationId (self w)) as [h|]; [|congruence].
    destruct Hh as [Hpos _]. unfold truthy.
    destruct (Z.eqb_spec h 0); [lia | reflexivity].
  - intros Ha. unfold stop. now rewrite Ha.
  - exact Hda.
  - exact Hdf.
  - exact Hdl.
  - intros e He. destruct e; try discriminate He; cbn [step].
    + now rewrite Hdf.
    + unfold listening. now rewrite Hdl.
    + unfold listening. now rewrite Hdl.
Qed.

End Generic.

Section Observation.

Context {T num : Type} {M : Methods T num} {X : Type}.
Variable obs : T -> X.
Hypothesis obs_set : forall a s, obs (set_animationId a s) = obs s.
Hypothesis obs_setup :
  forall dom r s r' s', setup dom r s = Some (r', s') -> obs s' = obs s.
Hypothesis obs_update :
  forall r s r' s', update r s = Some (r', s') -> obs s' = obs s.
Hypothesis obs_resize :
  forall dom r s r' s', resize dom r s = Some (r', s') -> obs s' = obs s.
Hypothesis obs_handleMouseMove :
  forall e dom r s r' s',
    handleMouseMove e dom r s = Some (r', s') -> obs s' = obs s.

Lemma loop_preserves w w' : loop w = Some w' -> obs (self w') = obs (self w).
Proof.
  unfold loop.
  destruct (update (rng w) (self w)) as [[r1 s1]|] eqn:Eu; [|discriminate].
  destruct (draw s1); [|discriminate].
  intros E. injection E as <-. cbn [self]. rewrite obs_set. eauto.
Qed.

Lemma start_preserves w w' : start w = Some w' -> obs (self w') = obs (self w).
Proof.
  unfold start. destruct (negb _); [apply loop_preserves|].
  intros E. now injection E as <-.
Qed.

Lemma stop_preserves w : obs (self (stop w)) = obs (self w).
Proof.
  unfold stop. destruct (animationId (self w)); [|reflexivity].
  destruct (truthy _); [|reflexivity]. cbn [self]. apply obs_set.
Qed.

(** What no method changes, no event changes. *)
Lemma step_preserves e w w' :
  step e w = Some w' -> obs (self w') = obs (self w).
Proof.
  destruct e as [dom| | | |h|dom|e dom]; cbn [step].
  - unfold init.
    destruct (setup dom (rng w) (self w)) as [[r1 s1]|] eqn:Es; [|discriminate].
    destruct (start _) as [w1|] eqn:E1; [|discriminate].
    intros E. injection E as <-. cbn [self].
    rewrite (start_preserves _ _ E1). cbn [self]. eauto.
  - apply start_preserves.
  - intros E. injection E as <-. apply stop_preserves.
  - intros E. injection E as <-. unfold destroy. cbn [self].
    apply stop_preserves.
  - destruct (existsb _ _).
    + intros E. now rewrite (loop_preserves _ _ E).
    + intros E. now injection E as <-.
  - destruct (listening _ _ _); [|intros E; now injection E as <-].
    unfold with_self.
    destruct (resize dom (rng w) (self w)) as [[r1 s1]|] eqn:Er; [|discriminate].
    intros E. injection E as <-. cbn [self]. eauto.
  - destruct (listening _ _ _); [|intros E; now injection E as <-].
    unfold with_self.
    destruct (handleMouseMove e dom (rng w) (self w)) as [[r1 s1]|] eqn:Er;
      [|discriminate].
    intros E. injection E as <-. cbn [self]. eauto.
Qed.

Lemma run_preserves es w w' :
  run es w = Some w' -> obs (self w') = obs (self w).
Proof.
  revert w. induction es as [|e rest IH]; intros w; cbn [run].
  - intros E. now injection E as <-.
  - destruct (step e w) as [w1|] eqn:E1; [|discriminate].
    intros E. rewrite (IH _ E). exact (step_preserves e w w1 E1).
Qed.

End Observation.

End LifecycleFacts.

(** ** The three classes obey the lifecycle *)

Module VisualsFacts.

Import Visual Visuals.
Local Open Scope Z_scope.

Lemma seed_inv rng g rng' g' :
  GameOfLife.seed rng g = Some (rng', g') ->
  exists gr, g' = GameOfLife.set_grid g gr.
Proof.
  unfold GameOfLife.seed. destruct (JS.forM _ _ _) as [[r gr]|]; [|discriminate].
  intros E. injection E as _ <-. eauto.
Qed.

Lemma update_inv g g' :
  GameOfLife.update g = Some g' -> exists gr, g' = GameOfLife.set_grid g gr.
Proof.
  unfold GameOfLife.update. destruct (JS.forM _ _ _) as [gr|]; [|discriminate].
  intros E. injection E as <-. eauto.
Qed.

Lemma handleMouseMove_inv e dom rng g rng' g' :
  GameOfLife.handleMouseMove e dom rng g = Some (rng', g') ->
  exists gr, g' = GameOfLife.set_grid g gr.
Proof.
  unfold GameOfLife.handleMouseMove.
  destruct (JS.forM _ _ _) as [[r gr]|]; [|discriminate].
  intros E. injection E as _ <-. eauto.
Qed.

Lemma resize_inv dom rng g rng' g' :
  GameOfLife.resize dom rng g = Some (rng', g') ->
  GameOfLife.ctx g' = GameOfLife.ctx g /\
  GameOfLife.animationId g' = GameOfLife.animationId g.
Proof.
  unfold GameOfLife.resize. destruct (surface_size dom) as [w h].
  intros E. apply seed_inv in E. destruct E as [gr ->]. split; reflexivity.
Qed.

(** [draw] reads every cell of a well-formed grid without failing. *)
Lemma draw_total g :
  GameOfLife.well_formed g -> exists ops, GameOfLife.draw g = Some ops.
Proof.
  intros (Hc & Hr & Hs). unfold GameOfLife.draw.
  assert (length (GameOfLife.grid g) = Z.to_nat (GameOfLife.cols g)) as Hl.
  { unfold GameOfLife.shape in Hs. apply (f_equal (@length nat)) in Hs.
    now rewrite length_map, repeat_length in Hs. }
  match goal with
  | |- context [JS.forM _ ?body ?init] =>
      destruct (JSFacts.forM_range (fun _ _ => True) body 0
                  (GameOfLife.cols g) init Hc I) as (ops & -> & _)
  end; [|eauto].
  intros i ops Hi _.
  apply (JSFacts.forM_range (fun _ _ => True)); [exact Hr | exact I |].
  intros j ops' Hj _.
  destruct (JSFacts.get_Some (GameOfLife.grid g) i ltac:(lia)) as [column ->].
  destruct (JS.get column j) as [[|[| |]|]|]; eauto.
Qed.

Lemma GameOfLife_laws : Laws (M := GameOfLife_methods) GameOfLife.well_formed.
Proof.
  constructor; cbn [animationId set_animationId setup update draw resize
                    handleMouseMove GameOfLife_methods].
  - reflexivity.
  - intros a s Hs. exact Hs.
  - intros dom r s (Hc & Hr & Hs).
    destruct (GridFacts.seed_samples r (GameOfLife.createGrid s)
                (GridFacts.createGrid_well_formed s Hc Hr))
      as (r' & gr' & E & _ & _ & Hsh & _).
    exists r', (GameOfLife.set_grid (GameOfLife.createGrid s) gr').
    split; [exact E|]. split; [|reflexivity].
    destruct (GridFacts.createGrid_well_formed s Hc Hr) as (Hc' & Hr' & Hs').
    unfold GameOfLife.well_formed in *.
    cbn [GameOfLife.cols GameOfLife.rows GameOfLife.grid GameOfLife.set_grid
         GameOfLife.createGrid] in *.
    rewrite Hsh. auto.
  - intros r s Hs.
    destruct (GridFacts.update_rules s Hs) as (next & E & Hsh & _).
    rewrite E. exists r, (GameOfLife.set_grid s next).
    split; [reflexivity|]. split; [|reflexivity].
    destruct Hs as (Hc & Hr & Hs). unfold GameOfLife.well_formed.
    cbn [GameOfLife.cols GameOfLife.rows GameOfLife.grid GameOfLife.set_grid].
    rewrite Hsh. auto.
  - apply draw_total.
  - intros dom r s _.
    destruct (GridFacts.resize_well_formed dom r s) as (r' & g' & E & Hwf).
    exists r', g'. split; [exact E|]. split; [exact Hwf|].
    now apply resize_inv in E.
  - intros e dom r s (Hc & Hr & Hs).
    destruct (GridFacts.handleMouseMove_revives e dom r s)
      as (r' & gr' & E & Esh & _).
    exists r', (GameOfLife.set_grid s gr'). split; [exact E|].
    split; [|reflexivity]. unfold GameOfLife.well_formed.
    cbn [GameOfLife.cols GameOfLife.rows GameOfLife.grid GameOfLife.set_grid].
    rewrite Esh. auto.
Qed.

Lemma ParticleAttractor_resize_inv dom rng s :
  ParticleAttractor.ctx (snd (ParticleAttractor.resize dom rng s))
  = ParticleAttractor.ctx s /\
  ParticleAttractor.animationId (snd (ParticleAttractor.resize dom rng s))
  = ParticleAttractor.animationId s.
Proof.
  unfold ParticleAttractor.resize, ParticleAttractor.createParticles.
  destruct (surface_size dom) as [w h].
  destruct (ParticleAttractor.push_particles _ _ _ _ _) as [r ps].
  split; reflexivity.
Qed.

Lemma ParticleAttractor_update_inv rng s :
  ParticleAttractor.ctx (snd (ParticleAttractor.update rng s))
  = ParticleAttractor.ctx s /\
  ParticleAttractor.animationId (snd (ParticleAttractor.update rng s))
  = ParticleAttractor.animationId s.
Proof.
  unfold ParticleAttractor.update.
  destruct (ParticleAttractor.forEach _ _ _) as [r ps]. split; reflexivity.
Qed.

Lemma ParticleAttractor_laws :
  Laws (M := ParticleAttractor_methods) (fun _ => True).
Proof.
  constructor; cbn [animationId set_animationId setup update draw resize
                    handleMouseMove ParticleAttractor_methods]; auto.
  - intros dom r s _.
    destruct (ParticleAttractor_resize_inv dom r s) as [_ Ha].
    destruct (ParticleAttractor.resize dom r s) as [r' s']. eauto.
  - intros r s _.
    destruct (ParticleAttractor_update_inv r s) as [_ Ha].
    destruct (ParticleAttractor.update r s) as [r' s']. eauto.
  - intros s _. eauto.
  - intros dom r s _.
    destruct (ParticleAttractor_resize_inv dom r s) as [_ Ha].
    destruct (ParticleAttractor.resize dom r s) as [r' s']. eauto.
  - intros e dom r s _. eauto.
Qed.

Lemma NetworkGraph_resize_inv dom rng s :
  NetworkGraph.ctx (snd (NetworkGraph.resize dom rng s)) = NetworkGraph.ctx s /\
  NetworkGraph.animationId (snd (NetworkGraph.resize dom rng s))
  = NetworkGraph.animationId s /\
  (NetworkGraph.connectionDistance (snd (NetworkGraph.resize dom rng s)) = 120%R
   \/ NetworkGraph.connectionDistance (snd (NetworkGraph.resize dom rng s))
      = 180%R).
Proof.
  unfold NetworkGraph.resize, NetworkGraph.createParticles.
  destruct (surface_size dom) as [w h].
  destruct (w <? 768); destruct (_ <? 20);
    destruct (NetworkGraph.push_nodes _ _ _ _ _) as [r ps];
    repeat split; auto.
Qed.

(** Every constructed node graph has a positive connection distance. *)
Lemma NetworkGraph_constructed_distance canvas color dom rng rng' s :
  NetworkGraph.constructor canvas color dom rng = Instance (rng', s) ->
  (0 < NetworkGraph.connectionDistance s)%R.
Proof.
  unfold NetworkGraph.constructor.
  destruct (getContext2d canvas) as [c|]; [|discriminate].
  set (s0 := NetworkGraph.mk c _ _ _ _ _ _ _ _).
  destruct (NetworkGraph_resize_inv dom rng s0) as (_ & _ & Hd).
  intros E. injection E as E. rewrite E in Hd. cbn [snd] in Hd.
  destruct Hd as [-> | ->]; lra.
Qed.

Lemma NetworkGraph_laws : Laws (M := NetworkGraph_methods) (fun _ => True).
Proof.
  constructor; cbn [animationId set_animationId setup update draw resize
                    handleMouseMove NetworkGraph_methods]; auto.
  - intros dom r s _.
    destruct (NetworkGraph_resize_inv dom r s) as (_ & Ha & _).
    destruct (NetworkGraph.resize dom r s) as [r' s']. eauto.
  - intros r s _. eauto.
  - intros s _. eauto.
  - intros dom r s _.
    destruct (NetworkGraph_resize_inv dom r s) as (_ & Ha & _).
    destruct (NetworkGraph.resize dom r s) as [r' s']. eauto.
  - intros e dom r s _. eauto.
Qed.

(** A grid automaton on a 16 x 16 surface, freshly constructed and then
    attached; and a freshly constructed particle field and node graph. *)
Lemma handle_tracks_loop_witness :
  let g := GameOfLife.mk (Context2D 0) 16 16 2 2 [[0; 1]; [1; 0]] None
                         "#8b5cf6" in
  let w := mkWorld (mkRng (fun _ => 0%Q) 0) (mkWindow 0 [] []) g [] in
  let wp := mkWorld (mkRng (fun _ => 0%Q) 0) (mkWindow 0 [] [])
              (ParticleAttractor.mk (Context2D 1) 16 16 [] None "#8b5cf6" 0
                 ParticleAttractor.default_mouse) [] in
  let wn := mkWorld (mkRng (fun _ => 0%Q) 0) (mkWindow 0 [] [])
              (NetworkGraph.mk (Context2D 2) 16 16 [] None "#8b5cf6" 20
                 NetworkGraph.default_mouse 120) [] in
  (stop w = w /\ listeners (window (destroy w)) = []) /\
  (exists w1,
     step (CallInit (mkDom None 16 16 0 0)) w = Some w1 /\
     animationId (self w1) = Some 1 /\
     start w1 = Some w1 /\
     animationId (self (destroy w1)) = None /\
     frames (window (destroy w1)) = [] /\
     listeners (window (destroy w1)) = []) /\
  (stop wp = wp /\ listeners (window (destroy wp)) = []) /\
  (stop wn = wn /\ listeners (window (destroy wn)) = []).
Proof.
  intros g w wp wn.
  assert (reachable GameOfLife.well_formed w) as Hr.
  { apply reach_fresh. repeat split; cbn; lia. }
  destruct (LifecycleFacts.handle_tracks_loop GameOfLife.well_formed
              GameOfLife_laws w Hr)
    as (_ & _ & Hstep & _ & Hstop & _ & _ & Hl & _).
  split; [split; [now apply Hstop | exact Hl]|].
  split; [|split].
  - destruct (Hstep (CallInit (mkDom None 16 16 0 0))) as [w1 E1].
    exists w1. split; [exact E1|].
    assert (reachable GameOfLife.well_formed w1) as Hr1
      by (eapply reach_step; eauto).
    destruct (LifecycleFacts.handle_tracks_loop GameOfLife.well_formed
                GameOfLife_laws w1 Hr1)
      as (_ & _ & _ & Hstart1 & _ & Ha1 & Hf1 & Hl1 & _).
    assert (animationId (self w1) = Some 1) as Hid.
    { vm_compute in E1. injection E1 as <-. reflexivity. }
    split; [exact Hid|]. split; [apply Hstart1; congruence|]. auto.
  - assert (reachable (fun _ => True) wp) as Hp.
    { apply reach_fresh. repeat split; cbn; lia. }
    destruct (LifecycleFacts.handle_tracks_loop (fun _ => True)
                ParticleAttractor_laws wp Hp)
      as (_ & _ & _ & _ & Hstopp & _ & _ & Hlp & _).
    split; [now apply Hstopp | exact Hlp].
  - assert (reachable (fun _ => True) wn) as Hn.
    { apply reach_fresh. repeat split; cbn; lia. }
    destruct (LifecycleFacts.handle_tracks_loop (fun _ => True)
                NetworkGraph_laws wn Hn)
      as (_ & _ & _ & _ & Hstopn & _ & _ & Hln & _).
    split; [now apply Hstopn | exact Hln].
Defined.

(** A grid automaton constructed on a canvas whose parent is 160 x 80 and
    then attached: after the first frame the grid is 20 x 10 and holds only
    zeros and ones. *)
Example attach_160x80 :
  let dom := mkDom (Some (160%N, 80%N)) 1280 720 0 0 in
  let rng := mkRng (fun n => Z.of_nat (n mod 10) # 10) 0 in
  match GameOfLife.constructor (mkCanvas (Some (Context2D 0)) 300 150)
          "#8b5cf6" dom rng with
  | Some (Instance (rng', g)) =>
      match init dom (mkWorld rng' (mkWindow 0 [] []) g []) with
      | Some w =>
          GameOfLife.cols (self w) = 20 /\ GameOfLife.rows (self w) = 10 /\
          GameOfLife.shape (GameOfLife.grid (self w)) = repeat 10%nat 20 /\
          forallb (forallb (fun v => (v =? 0) || (v =? 1)))
                  (GameOfLife.grid (self w)) = true /\
          animationId (self w) = Some 1 /\ frames (window w) = [1]
      | None => False
      end
  | _ => False
  end.
Proof. vm_compute. repeat split. Qed.

(** C9. For each of the three classes, whatever the surface, the colour, the
    layout and the draws: the constructor throws its error exactly when
    [getContext('2d')] gives [null]; otherwise it returns an instance whose
    context is the one obtained, and no event of the instance's life changes
    that context. *)
Theorem constructor_context (canvas : Canvas) (color : string) (dom : Dom)
    (rng : Rng) :
  (((exists msg, GameOfLife.constructor canvas color dom rng = Some (Error msg))
    <-> getContext2d canvas = None) /\
   (forall c, getContext2d canvas = Some c ->
      exists rng' g,
        GameOfLife.constructor canvas color dom rng = Some (Instance (rng', g)) /\
        GameOfLife.ctx g = c /\
        forall es win scr w',
          run es (mkWorld rng' win g scr) = Some w' ->
          GameOfLife.ctx (self w') = c))
  /\
  (((exists msg, ParticleAttractor.constructor canvas color dom rng = Error msg)
    <-> getContext2d canvas = None) /\
   (forall c, getContext2d canvas = Some c ->
      exists rng' s,
        ParticleAttractor.constructor canvas color dom rng = Instance (rng', s) /\
        ParticleAttractor.ctx s = c /\
        forall es win scr w',
          run es (mkWorld rng' win s scr) = Some w' ->
          ParticleAttractor.ctx (self w') = c))
  /\
  (((exists msg, NetworkGraph.constructor canvas color dom rng = Error msg)
    <-> getContext2d canvas = None) /\
   (forall c, getContext2d canvas = Some c ->
      exists rng' s,
        NetworkGraph.constructor canvas color dom rng = Instance (rng', s) /\
        NetworkGraph.ctx s = c /\
        forall es win scr w',
          run es (mkWorld rng' win s scr) = Some w' ->
          NetworkGraph.ctx (self w') = c)).
Proof.
  split; [|split].
  - unfold GameOfLife.constructor. split.
    + destruct (getContext2d canvas) as [c|]; [|split; eauto].
      destruct (GridFacts.resize_well_formed dom rng
                  (GameOfLife.mk c (Z.of_N (canvas_width canvas))
                     (Z.of_N (canvas_height canvas)) 0 0 [] None color))
        as (rng' & g & -> & _).
      split; [intros [msg E]; discriminate E | discriminate].
    + intros c ->.
      destruct (GridFacts.resize_well_formed dom rng
                  (GameOfLife.mk c (Z.of_N (canvas_width canvas))
                     (Z.of_N (canvas_height canvas)) 0 0 [] None color))
        as (rng' & g & E & _).
      rewrite E. exists rng', g. split; [reflexivity|].
      apply resize_inv in E. destruct E as [Ec _]. cbn in Ec.
      split; [exact Ec|]. intros es win scr w' Hrun. rewrite <- Ec.
      apply (LifecycleFacts.run_preserves (M := GameOfLife_methods)
               GameOfLife.ctx) with (es := es) (w := mkWorld rng' win g scr);
        [reflexivity | | | | | exact Hrun];
        cbn [setup update resize handleMouseMove GameOfLife_methods].
      * intros d r s r' s' H. apply seed_inv in H. now destruct H as [gr ->].
      * intros r s r' s' H. destruct (GameOfLife.update s) as [g'|] eqn:Eu;
          [|discriminate]. injection H as _ <-.
        apply update_inv in Eu. now destruct Eu as [gr ->].
      * intros d r s r' s' H. now apply resize_inv in H.
      * intros e d r s r' s' H. apply handleMouseMove_inv in H.
        now destruct H as [gr ->].
  - unfold ParticleAttractor.constructor. split.
    + destruct (getContext2d canvas) as [c|]; [|split; eauto].
      split; [intros [msg E]; discriminate E | discriminate].
    + intros c ->.
      set (s0 := ParticleAttractor.mk c _ _ _ _ _ _ _).
      destruct (ParticleAttractor_resize_inv dom rng s0) as [Ec _].
      destruct (ParticleAttractor.resize dom rng s0) as [rng' s].
      cbn [snd] in Ec. change (ParticleAttractor.ctx s0) with c in Ec.
      exists rng', s. split; [reflexivity|].
      split; [exact Ec|]. intros es win scr w' Hrun. rewrite <- Ec.
      apply (LifecycleFacts.run_preserves (M := ParticleAttractor_methods)
               ParticleAttractor.ctx) with (es := es) (w := mkWorld rng' win s scr);
        [reflexivity | | | | | exact Hrun];
        cbn [setup update resize handleMouseMove ParticleAttractor_methods].
      * intros d r a r' a' H. injection H as H.
        rewrite <- (proj1 (ParticleAttractor_resize_inv d r a)). now rewrite H.
      * intros r a r' a' H. injection H as H.
        rewrite <- (proj1 (ParticleAttractor_update_inv r a)). now rewrite H.
      * intros d r a r' a' H. injection H as H.
        rewrite <- (proj1 (ParticleAttractor_resize_inv d r a)). now rewrite H.
      * intros e d r a r' a' H. now injection H as _ <-.
  - unfold NetworkGraph.constructor. split.
    + destruct (getContext2d canvas) as [c|]; [|split; eauto].
      split; [intros [msg E]; discriminate E | discriminate].
    + intros c ->.
      set (s0 := NetworkGraph.mk c _ _ _ _ _ _ _ _).
      destruct (NetworkGraph_resize_inv dom rng s0) as [Ec _].
      destruct (NetworkGraph.resize dom rng s0) as [rng' s].
      cbn [snd] in Ec. change (NetworkGraph.ctx s0) with c in Ec.
      exists rng', s. split; [reflexivity|].
      split; [exact Ec|]. intros es win scr w' Hrun. rewrite <- Ec.
      apply (LifecycleFacts.run_preserves (M := NetworkGraph_methods)
               NetworkGraph.ctx) with (es := es) (w := mkWorld rng' win s scr);
        [reflexivity | | | | | exact Hrun];
        cbn [setup update resize handleMouseMove NetworkGraph_methods].
      * intros d r a r' a' H. injection H as H.
        rewrite <- (proj1 (NetworkGraph_resize_inv d r a)). now rewrite H.
      * intros r a r' a' H. now injection H as _ <-.
      * intros d r a r' a' H. injection H as H.
        rewrite <- (proj1 (NetworkGraph_resize_inv d r a)). now rewrite H.
      * intros e d r a r' a' H. now injection H as _ <-.
Qed.

End VisualsFacts.

(** * Further properties of the code *)

(** ** The grid automaton: invariants of the grid *)

Module GridExtras.

Import GameOfLife.
Local Open Scope Z_scope.

Lemma get2_range gr (cols rows : Z) c r v :
  shape gr = repeat (Z.to_nat rows) (Z.to_nat cols) ->
  get2 gr c r = Some v -> 0 <= c < cols /\ 0 <= r < rows.
Proof.
  intros Hs. unfold get2.
  destruct (JS.get gr c) as [column|] eqn:Ec; [|discriminate].
  intros Er. apply JSFacts.get_range in Er.
  pose proof (JSFacts.get_range _ _ _ Ec) as Hc.
  assert (length gr = Z.to_nat cols) as Hl.
  { unfold shape in Hs. apply (f_equal (@length nat)) in Hs.
    now rewrite length_map, repeat_length in Hs. }
  unfold JS.get in Ec. destruct (c <? 0); [discriminate|].
  assert (nth_error (shape gr) (Z.to_nat c) = Some (length column)) as Hn.
  { unfold shape. now rewrite nth_error_map, Ec. }
  rewrite Hs in Hn. apply nth_error_In, repeat_spec in Hn. lia.
Qed.

Lemma get2_head column rest r :
  get2 (column :: rest) 0 r = JS.get column r.
Proof. reflexivity. Qed.

Lemma get2_tail column rest c r :
  0 <= c -> get2 (column :: rest) (c + 1) r = get2 rest c r.
Proof.
  intros Hc. unfold get2, JS.get.
  destruct (Z.ltb_spec (c + 1) 0); [lia|].
  destruct (Z.ltb_spec c 0); [lia|].
  replace (Z.to_nat (c + 1)) with (S (Z.to_nat c)) by lia. reflexivity.
Qed.

(** Two grids of the same shape with the same cells are the same grid. *)
Lemma grid_ext gr1 gr2 :
  (forall c r, get2 gr1 c r = get2 gr2 c r) -> shape gr1 = shape gr2 ->
  gr1 = gr2.
Proof.
  revert gr2. induction gr1 as [|col1 t1 IH]; intros [|col2 t2] Hget Hs;
    try discriminate Hs; [reflexivity|].
  injection Hs as Hl Hs. f_equal.
  - apply nth_error_ext. intros n.
    specialize (Hget 0 (Z.of_nat n)). rewrite !get2_head in Hget.
    unfold JS.get in Hget. destruct (Z.ltb_spec (Z.of_nat n) 0); [lia|].
    now rewrite Nat2Z.id in Hget.
  - apply IH; [|exact Hs]. intros c r.
    destruct (Z.ltb_spec c 0) as [Hneg|Hpos].
    + unfold get2, JS.get. destruct (Z.ltb_spec c 0); [reflexivity | lia].
    + specialize (Hget (c + 1) r). now rewrite !get2_tail in Hget by lia.
Qed.

Lemma rules_binary state n : state = 0 \/ state = 1 -> rules state n = 0 \/ rules state n = 1.
Proof.
  intros H. unfold rules.
  destruct ((state =? 0) && (n =? 3)); [now right|].
  destruct ((state =? 1) && ((n <? 2) || (n >? 3))); [now left | exact H].
Qed.

Lemma well_formed_set_grid g gr :
  well_formed g -> shape gr = shape (grid g) -> well_formed (set_grid g gr).
Proof.
  intros (Hc & Hr & Hs) Hsh. unfold well_formed.
  cbn [cols rows grid set_grid]. rewrite Hsh. auto.
Qed.

(** [update], [seed] and the pointer handler keep the cells in [{0, 1}]. *)
Lemma update_binary g next :
  well_formed g -> binary (grid g) -> update g = Some (set_grid g next) ->
  binary next.
Proof.
  intros Hwf Hb E. destruct (GridFacts.update_rules g Hwf)
    as (next' & E' & Hsh & Hcells).
  rewrite E' in E. injection E as ->.
  destruct Hwf as (Hc & Hr & Hs).
  intros c r v Hv.
  destruct (get2_range next (cols g) (rows g) c r v) as [Hcr Hrr];
    [congruence | exact Hv |].
  rewrite (Hcells c r Hcr Hrr) in Hv. injection Hv as <-.
  apply rules_binary.
  destruct (GridFacts.get2_inside (grid g) (cols g) (rows g) c r Hs Hcr Hrr)
    as [old Hold].
  rewrite (GridFacts.cell_get2 _ _ _ _ Hold). eapply Hb; eauto.
Qed.

Lemma seed_binary rng g rng' gr' :
  well_formed g -> seed rng g = Some (rng', set_grid g gr') -> binary gr'.
Proof.
  intros Hwf E. destruct (GridFacts.seed_samples rng g Hwf)
    as (rng2 & gr2 & E2 & _ & _ & Hsh & Hcells).
  rewrite E2 in E. injection E as _ ->.
  destruct Hwf as (Hc & Hr & Hs).
  intros c r v Hv.
  destruct (get2_range gr' (cols g) (rows g) c r v) as [Hcr Hrr];
    [congruence | exact Hv |].
  rewrite (Hcells c r Hcr Hrr) in Hv. injection Hv as <-.
  unfold sample. destruct (JS.ltb _ _); auto.
Qed.

Lemma only_revives_binary gr gr' :
  only_revives gr gr' -> binary gr -> binary gr'.
Proof.
  intros [_ Hcells] Hb c r v Hv.
  destruct (Hcells c r) as [E|[_ E]]; rewrite E in Hv.
  - eapply Hb; eauto.
  - injection Hv as <-. now right.
Qed.

Lemma resize_binary dom rng g :
  exists rng' g',
    resize dom rng g = Some (rng', g') /\ well_formed g' /\ binary (grid g') /\
    animationId g' = animationId g /\ ctx g' = ctx g.
Proof.
  unfold resize. destruct (surface_size dom) as [w h] eqn:Esz.
  assert (exists w' h' : N, w = Z.of_N w' /\ h = Z.of_N h') as (w' & h' & -> & ->).
  { unfold surface_size in Esz.
    destruct (parentElement dom) as [[a b]|]; injection Esz as <- <-; eauto. }
  set (g0 := mk _ _ _ _ _ _ _ _).
  assert (well_formed (createGrid g0)) as Hwf
    by (apply GridFacts.createGrid_well_formed; apply GridFacts.ceil_nonneg).
  destruct (GridFacts.seed_samples rng (createGrid g0) Hwf)
    as (rng' & gr' & E & _ & _ & Hsh & _).
  exists rng', (set_grid (createGrid g0) gr'). split; [exact E|].
  split; [now apply well_formed_set_grid|].
  split; [|split; reflexivity].
  eapply seed_binary; eauto.
Qed.

Lemma GameOfLife_binary_laws :
  Visual.Laws (M := Visuals.GameOfLife_methods)
       (fun g => well_formed g /\ binary (grid g)).
Proof.
  constructor;
    cbn [Visual.animationId Visual.set_animationId Visual.setup Visual.update
         Visual.draw Visual.resize Visual.handleMouseMove
         Visuals.GameOfLife_methods].
  - reflexivity.
  - intros a s Hs. exact Hs.
  - intros dom r s [(Hc & Hr & Hs) _].
    pose proof (GridFacts.createGrid_well_formed s Hc Hr) as Hwf.
    destruct (GridFacts.seed_samples r (createGrid s) Hwf)
      as (r' & gr' & E & _ & _ & Hsh & _).
    exists r', (set_grid (createGrid s) gr'). split; [exact E|].
    split; [|reflexivity].
    split; [now apply well_formed_set_grid | eapply seed_binary; eauto].
  - intros r s [Hwf Hb].
    destruct (GridFacts.update_rules s Hwf) as (next & E & Hsh & _).
    rewrite E. exists r, (set_grid s next). split; [reflexivity|].
    split; [|reflexivity].
    split; [now apply well_formed_set_grid | eapply update_binary; eauto].
  - intros s [Hwf _]. now apply VisualsFacts.draw_total.
  - intros dom r s _.
    destruct (resize_binary dom r s) as (r' & g' & E & Hwf & Hb & Ha & _).
    exists r', g'. auto.
  - intros e dom r s [Hwf Hb].
    destruct (GridFacts.handleMouseMove_revives e dom r s)
      as (r' & gr' & E & Hrev).
    exists r', (set_grid s gr'). split; [exact E|]. split; [|reflexivity].
    split; [apply well_formed_set_grid; [exact Hwf | apply Hrev]
           |eapply only_revives_binary; eauto].
Qed.

End GridExtras.

(** ** The lifecycle: attaching twice, frames, sequences of events *)

Module LifecycleExtras.

Import Visual.
Local Open Scope Z_scope.

Section Generic.

Context {T num : Type} {M : Methods T num}.
Variable valid : T -> Prop.
Hypothesis L : Laws valid.

(** No sequence of events throws. *)
Lemma run_consistent es w :
  consistent valid w -> exists w', run es w = Some w' /\ consistent valid w'.
Proof.
  revert w. induction es as [|e rest IH]; intros w Hw; cbn [run]; [eauto|].
  destruct (LifecycleFacts.step_consistent valid L e w Hw) as (w1 & -> & Hw1).
  now apply IH.
Qed.

Lemma fresh_consistent w : fresh valid w -> consistent valid w.
Proof.
  intros Hf. apply (LifecycleFacts.reachable_consistent valid L).
  now apply reach_fresh.
Qed.

Lemma loop_window w w' :
  loop w = Some w' ->
  listeners (window w') = listeners (window w) /\
  animationId (self w') = Some (frame_counter (window w) + 1) /\
  frames (window w') = frames (window w) ++ [frame_counter (window w) + 1] /\
  frame_counter (window w') = frame_counter (window w) + 1 /\
  exists r1 s1, update (rng w) (self w) = Some (r1, s1) /\
                rng w' = r1 /\
                self w' = set_animationId (Some (frame_counter (window w) + 1)) s1.
Proof.
  unfold loop.
  destruct (update (rng w) (self w)) as [[r1 s1]|]; [|discriminate].
  destruct (draw s1); [|discriminate].
  unfold requestAnimationFrame. intros E. injection E as <-.
  cbn [self window listeners frames frame_counter rng].
  rewrite (get_set valid L). repeat split. eauto.
Qed.

(** [loop] draws the state that [update] leaves. *)
Lemma loop_screen w w' :
  loop w = Some w' ->
  exists r1 s1 ops,
    update (rng w) (self w) = Some (r1, s1) /\ draw s1 = Some ops /\
    screen w' = screen w ++ ops /\ rng w' = r1 /\
    self w' = set_animationId (Some (frame_counter (window w) + 1)) s1.
Proof.
  unfold loop.
  destruct (update (rng w) (self w)) as [[r1 s1]|]; [|discriminate].
  destruct (draw s1) as [ops|] eqn:Ed; [|discriminate].
  unfold requestAnimationFrame. intros E. injection E as <-.
  cbn [self screen rng]. exists r1, s1, ops. repeat split. exact Ed.
Qed.






(** The pending frame callback, when the host runs it, does one [update],
    then one [draw] of the state that [update] leaves, whose calls are added
    to the canvas, and requests the next frame, which gets a larger handle and
    is then the only one pending; a handle that is not pending does nothing
    and draws nothing. *)
Theorem frame_reschedules (w : World T num) (h : Z) :
  reachable valid w -> animationId (self w) = Some h ->
  (exists w' h' r1 s1 ops,
     step (AnimationFrame h) w = Some w' /\
     update (rng w) (self w) = Some (r1, s1) /\
     draw s1 = Some ops /\ screen w' = screen w ++ ops /\
     rng w' = r1 /\ self w' = set_animationId (Some h') s1 /\
     h < h' /\ frames (window w') = [h'] /\
     listeners (window w') = listeners (window w)) /\
  (forall k, k <> h -> step (AnimationFrame k) w = Some w).
Proof.
  intros Hr Ha.
  pose proof (LifecycleFacts.reachable_consistent valid L w Hr) as Hw.
  pose proof Hw as (Hv & Hc & Hh & Hl). rewrite Ha in Hh.
  destruct Hh as [Hpos Hf]. split.
  - destruct (LifecycleFacts.step_consistent valid L (AnimationFrame h) w Hw)
      as (w' & E & _).
    exists w'. pose proof E as E'. cbn [step] in E'. rewrite Hf in E'.
    cbn [existsb] in E'. rewrite Z.eqb_refl in E'. cbn [orb] in E'.
    pose proof (loop_screen _ _ E') as (r1 & s1 & ops & Eu & Ed & Esc & Er & Es).
    apply loop_window in E'.
    cbn [window self rng screen cancelAnimationFrame frame_counter frames
         listeners] in E', Eu, Esc, Es.
    rewrite Hf in E'. cbn [filter] in E'. rewrite Z.eqb_refl in E'.
    cbn [negb app] in E'.
    destruct E' as (El & _ & Ef & _).
    exists (frame_counter (window w) + 1), r1, s1, ops.
    repeat split; try assumption. lia.
  - intros k Hk. cbn [step]. rewrite Hf. cbn [existsb].
    destruct (Z.eqb_spec k h); [contradiction | reflexivity].
Qed.

Lemma stop_counter w :
  frame_counter (window (stop w)) = frame_counter (window w) /\
  rng (stop w) = rng w.
Proof.
  unfold stop. destruct (animationId (self w)) as [h|]; [|auto].
  destruct (truthy (Some h)); auto.
Qed.

(** [stop] pauses and nothing more: the pending frame callback is cancelled
    and the handle is null, but the listeners stay registered, so a resize of
    the window still reaches an attached instance while it is paused;
    [start] then resumes with one frame callback pending, under a handle that
    has not been used before. *)
Theorem stop_pauses (w : World T num) :
  reachable valid w ->
  animationId (self (stop w)) = None /\ frames (window (stop w)) = [] /\
  listeners (window (stop w)) = listeners (window w) /\
  (listeners (window w) = attached ->
   forall dom, exists r1 s1,
     resize dom (rng w) (self (stop w)) = Some (r1, s1) /\
     step (WindowResize dom) (stop w)
     = Some (mkWorld r1 (window (stop w)) s1 (screen (stop w)))) /\
  exists w1 h,
    start (stop w) = Some w1 /\ animationId (self w1) = Some h /\
    frames (window w1) = [h] /\ frame_counter (window w) < h /\
    listeners (window w1) = listeners (window w).
Proof.
  intros Hr.
  pose proof (LifecycleFacts.reachable_consistent valid L w Hr) as Hw.
  destruct (LifecycleFacts.stop_consistent valid L w Hw)
    as (Hs & Ha & Hf & Hl).
  destruct (stop_counter w) as [Hc Hrng].
  split; [exact Ha|]. split; [exact Hf|]. split; [exact Hl|]. split.
  - intros Hatt dom. pose proof Hs as (Hv & _).
    destruct (resize_ok valid L dom (rng w) (self (stop w)) Hv)
      as (r1 & s1 & E & _).
    exists r1, s1. split; [exact E|].
    cbn [step]. unfold listening. rewrite Hl, Hatt. cbn [attached existsb
      same_listener orb]. rewrite Hrng, E. reflexivity.
  - destruct (LifecycleFacts.start_consistent valid L (stop w) Hs)
      as (w1 & E & Hw1).
    exists w1, (frame_counter (window w) + 1).
    split; [exact E|]. unfold start in E. rewrite Ha in E.
    cbn [truthy negb] in E. apply loop_window in E.
    destruct E as (El & Ea' & Ef & _). rewrite Hc in Ea', Ef.
    rewrite Hf in Ef. cbn [app] in Ef.
    split; [exact Ea'|]. split; [exact Ef|]. split; [lia|]. congruence.
Qed.

End Generic.

End LifecycleExtras.

(** ** The grid automaton over its whole life *)

Module GridLife.

Import Visuals GameOfLife.
Local Open Scope Z_scope.

(** From its construction on, through every sequence of page calls, frames,
    resizes and pointer moves, no event of a grid automaton throws, the grid
    has [cols] columns of [rows] cells, and every cell holds [0] or [1]. *)
Theorem cells_stay_binary (canvas : Canvas) (color : string) (dom : Dom)
    (rng rng' : Rng) (g : t) (n : Z) (scr : list (CanvasOp Q))
    (es : list (Visual.Event)) :
  0 <= n ->
  constructor canvas color dom rng = Some (Instance (rng', g)) ->
  exists w,
    Visual.run es (Visual.mkWorld rng' (mkWindow n [] []) g scr) = Some w /\
    well_formed (Visual.self w) /\ binary (grid (Visual.self w)).
Proof.
  intros Hn Hc. unfold constructor in Hc.
  destruct (getContext2d canvas) as [c|]; [|discriminate].
  set (g0 := mk _ _ _ _ _ _ _ _) in Hc.
  destruct (GridExtras.resize_binary dom rng g0)
    as (r1 & g1 & E & Hwf & Hb & Ha & _).
  rewrite E in Hc. injection Hc as <- <-.
  destruct (LifecycleExtras.run_consistent _ GridExtras.GameOfLife_binary_laws
              es (Visual.mkWorld r1 (mkWindow n [] []) g1 scr))
    as (w & Hrun & (Hv & _)).
  - apply (LifecycleExtras.fresh_consistent _ GridExtras.GameOfLife_binary_laws).
    unfold Visual.fresh.
    cbn [Visual.self Visual.window frame_counter frames listeners
         Visual.animationId GameOfLife_methods].
    split; [split; assumption|]. split; [now rewrite Ha|]. auto.
  - exists w. split; [exact Hrun|]. exact Hv.
Qed.

(** A 16 x 16 canvas: attach, one frame, a pointer move, a resize to
    24 x 8, detach. *)
Lemma cells_stay_binary_witness :
  exists rng' g w,
    constructor (mkCanvas (Some (Context2D 0)) 300 150) "#8b5cf6"
      (mkDom (Some (16%N, 16%N)) 1280 720 0 0)
      (mkRng (fun k => Z.of_nat (k mod 10) # 10) 0)
    = Some (Instance (rng', g)) /\
    Visual.run
      [Visual.CallInit (mkDom (Some (16%N, 16%N)) 1280 720 0 0);
       Visual.AnimationFrame 1;
       Visual.MouseMove (mkMouseEvent 5 5)
         (mkDom (Some (16%N, 16%N)) 1280 720 0 0);
       Visual.WindowResize (mkDom (Some (24%N, 8%N)) 1280 720 0 0);
       Visual.CallDestroy]
      (Visual.mkWorld rng' (mkWindow 0 [] []) g []) = Some w /\
    well_formed (Visual.self w) /\ binary (grid (Visual.self w)).
Proof.
  destruct (constructor (mkCanvas (Some (Context2D 0)) 300 150) "#8b5cf6"
              (mkDom (Some (16%N, 16%N)) 1280 720 0 0)
              (mkRng (fun k => Z.of_nat (k mod 10) # 10) 0))
    as [[[rng' g]|m]|] eqn:E;
    [|vm_compute in E; discriminate E..].
  exists rng', g.
  destruct (cells_stay_binary _ _ _ _ rng' g 0 []
              [Visual.CallInit (mkDom (Some (16%N, 16%N)) 1280 720 0 0);
               Visual.AnimationFrame 1;
               Visual.MouseMove (mkMouseEvent 5 5)
                 (mkDom (Some (16%N, 16%N)) 1280 720 0 0);
               Visual.WindowResize (mkDom (Some (24%N, 8%N)) 1280 720 0 0);
               Visual.CallDestroy]
              ltac:(lia) E) as (w & Hrun & Hwf & Hb).
  exists w. auto.
Defined.

Lemma dead_cell gr c r : dead gr -> cell gr c r = 0.
Proof.
  intros Hd. unfold cell. destruct (get2 gr c r) as [v|] eqn:E; [|reflexivity].
  eapply Hd; eauto.
Qed.

(** A grid without a live cell is a fixed point of [update], whatever its
    size: alone, an extinct field never comes back to life. *)
Theorem dead_grid_stays_dead (g : t) (n : nat) :
  well_formed g -> dead (grid g) -> updates n g = Some g.
Proof.
  intros Hwf Hd. induction n as [|n IH]; [reflexivity|]. cbn [updates].
  destruct (GridFacts.update_rules g Hwf) as (next & -> & Hsh & Hcells).
  assert (next = grid g) as ->.
  { apply GridExtras.grid_ext; [|exact Hsh]. intros c r.
    destruct Hwf as (Hc & Hr & Hs).
    destruct (get2 (grid g) c r) as [v|] eqn:Eold.
    - destruct (GridExtras.get2_range _ _ _ _ _ _ Hs Eold) as [Hcr Hrr].
      rewrite (Hcells c r Hcr Hrr), (dead_cell _ c r Hd).
      unfold alive_neighbours, neighbourhood. cbn [map fold_right].
      rewrite !(dead_cell _ _ _ Hd). cbn. f_equal. symmetry. eapply Hd; eauto.
    - destruct (get2 next c r) as [v|] eqn:Enew; [|reflexivity].
      destruct (GridExtras.get2_range next (cols g) (rows g) c r v) as [Hcr Hrr];
        [congruence | exact Enew |].
      destruct (GridFacts.get2_inside (grid g) (cols g) (rows g) c r Hs Hcr Hrr)
        as [old Hold]. congruence. }
  replace (set_grid g (grid g)) with g by (now destruct g). exact IH.
Qed.

(** A 3 x 2 grid of dead cells, four frames. *)
Lemma dead_grid_stays_dead_witness :
  updates 4 (mk (Context2D 0) 24 16 3 2 [[0; 0]; [0; 0]; [0; 0]] None "#8b5cf6")
  = Some (mk (Context2D 0) 24 16 3 2 [[0; 0]; [0; 0]; [0; 0]] None "#8b5cf6").
Proof.
  apply (dead_grid_stays_dead
           (mk (Context2D 0) 24 16 3 2 [[0; 0]; [0; 0]; [0; 0]] None "#8b5cf6")
           4).
  - repeat split; cbn; lia.
  - intros c r v. cbn [grid]. unfold get2, JS.get.
    destruct (c <? 0); [discriminate|].
    destruct (Z.to_nat c) as [|[|[|k]]]; cbn [nth_error];
      try (destruct k; discriminate);
      (destruct (r <? 0); [discriminate|]);
      destruct (Z.to_nat r) as [|[|j]]; cbn [nth_error]; intros E;
      try (now injection E as <-); destruct j; discriminate.
Defined.


(** The same instance, attached: the frame with handle 1 is pending. *)
Lemma frame_reschedules_witness :
  let g := mk (Context2D 0) 16 16 2 2 [[0; 1]; [1; 0]] None "#8b5cf6" in
  let w := Visual.mkWorld (mkRng (fun _ => 0%Q) 0) (mkWindow 0 [] []) g [] in
  exists w1,
    Visual.step (Visual.CallInit (mkDom None 16 16 0 0)) w = Some w1 /\
    (exists w' h' r1 s1 ops,
       Visual.step (Visual.AnimationFrame 1) w1 = Some w' /\
       Visual.update (Visual.rng w1) (Visual.self w1) = Some (r1, s1) /\
       Visual.draw s1 = Some ops /\
       Visual.screen w' = Visual.screen w1 ++ ops /\
       Visual.rng w' = r1 /\
       Visual.self w' = Visual.set_animationId (Some h') s1 /\
       1 < h' /\ frames (Visual.window w') = [h'] /\
       listeners (Visual.window w') = listeners (Visual.window w1)) /\
    Visual.step (Visual.AnimationFrame 7) w1 = Some w1.
Proof.
  intros g w.
  assert (Visual.reachable well_formed w) as Hr.
  { apply Visual.reach_fresh. repeat split; cbn; lia. }
  destruct (LifecycleFacts.step_consistent well_formed
              VisualsFacts.GameOfLife_laws
              (Visual.CallInit (mkDom None 16 16 0 0)) w
              (LifecycleFacts.reachable_consistent well_formed
                 VisualsFacts.GameOfLife_laws w Hr)) as (w1 & E1 & _).
  exists w1. split; [exact E1|].
  assert (Visual.reachable well_formed w1) as Hr1
    by (eapply Visual.reach_step; eauto).
  assert (Visual.animationId (Visual.self w1) = Some 1) as Hid.
  { vm_compute in E1. injection E1 as <-. reflexivity. }
  destruct (LifecycleExtras.frame_reschedules well_formed
              VisualsFacts.GameOfLife_laws w1 1 Hr1 Hid) as [Hrun Hstale].
  split; [exact Hrun | apply Hstale; lia].
Defined.

(** An attached and running instance, frame 1 pending: paused, its frame
    is cancelled and its handle null while its two listeners stay, so that a
    resize of the window to 24 x 8 reaches it; started again, it has one
    frame pending under a handle above 1. *)
Lemma stop_pauses_witness :
  let g := mk (Context2D 0) 16 16 2 2 [[0; 1]; [1; 0]] None "#8b5cf6" in
  let w := Visual.mkWorld (mkRng (fun _ => 0%Q) 0) (mkWindow 0 [] []) g [] in
  let dom := mkDom (Some (24%N, 8%N)) 1280 720 0 0 in
  exists w1,
    Visual.step (Visual.CallInit (mkDom None 16 16 0 0)) w = Some w1 /\
    frames (Visual.window w1) = [1] /\
    listeners (Visual.window w1) = attached /\
    Visual.animationId (Visual.self (Visual.stop w1)) = None /\
    frames (Visual.window (Visual.stop w1)) = [] /\
    listeners (Visual.window (Visual.stop w1)) = attached /\
    (exists r1 s1,
       Visual.resize dom (Visual.rng w1) (Visual.self (Visual.stop w1))
       = Some (r1, s1) /\
       Visual.step (Visual.WindowResize dom) (Visual.stop w1)
       = Some (Visual.mkWorld r1 (Visual.window (Visual.stop w1)) s1
                 (Visual.screen (Visual.stop w1)))) /\
    exists w2 h,
      Visual.start (Visual.stop w1) = Some w2 /\
      Visual.animationId (Visual.self w2) = Some h /\
      frames (Visual.window w2) = [h] /\ 1 < h /\
      listeners (Visual.window w2) = attached.
Proof.
  intros g w dom.
  assert (Visual.reachable well_formed w) as Hr.
  { apply Visual.reach_fresh. repeat split; cbn; lia. }
  destruct (LifecycleFacts.step_consistent well_formed
              VisualsFacts.GameOfLife_laws
              (Visual.CallInit (mkDom None 16 16 0 0)) w
              (LifecycleFacts.reachable_consistent well_formed
                 VisualsFacts.GameOfLife_laws w Hr)) as (w1 & E1 & _).
  exists w1. split; [exact E1|].
  assert (Visual.reachable well_formed w1) as Hr1
    by (eapply Visual.reach_step; eauto).
  assert (frames (Visual.window w1) = [1] /\
          listeners (Visual.window w1) = attached /\
          frame_counter (Visual.window w1) = 1) as (Hf1 & Hl1 & Hc1).
  { vm_compute in E1. injection E1 as <-. repeat split. }
  destruct (LifecycleExtras.stop_pauses well_formed
              VisualsFacts.GameOfLife_laws w1 Hr1)
    as (Ha & Hf & Hl & Hresize & w2 & h & E & Ha2 & Hf2 & Hh & Hl2).
  rewrite Hl1 in Hl, Hl2. rewrite Hc1 in Hh.
  split; [exact Hf1|]. split; [exact Hl1|]. split; [exact Ha|].
  split; [exact Hf|]. split; [exact Hl|].
  split; [exact (Hresize Hl1 dom)|].
  exists w2, h. auto.
Defined.

End GridLife.

(** ** The grid automaton: rendering, the pointer on the surface, patterns *)

Module GridRender.

Import GameOfLife.
Local Open Scope Z_scope.




(** [Math.floor(x / 8)] of a coordinate over the grid is a column of the
    grid. *)
Lemma floor_on_grid (x : Q) (n : Z) :
  (0 <= x)%Q -> (x < inject_Z (8 * n))%Q -> 0 <= JS.floor (x / 8) < n.
Proof.
  intros H0 Hn. unfold JS.floor. split.
  - rewrite <- (Qfloor_Z 0). apply Qfloor_resp_le.
    apply Qle_shift_div_l; [reflexivity|]. now rewrite Qmult_0_l.
  - pose proof (Qfloor_le (x / 8)) as Hf.
    assert (x / 8 < inject_Z n)%Q as Hlt.
    { apply Qlt_shift_div_r; [reflexivity|].
      rewrite inject_Z_mult in Hn. rewrite Qmult_comm. exact Hn. }
    rewrite Zlt_Qlt. eapply Qle_lt_trans; eauto.
Qed.

(** The nine iterations where every wrap expression has a non-negative
    dividend: one draw each. *)
Lemma paint_each_draws g col row offsets :
  0 < cols g -> 0 < rows g -> 1 - cols g <= col -> 1 - rows g <= row ->
  Forall (fun o => -1 <= fst o /\ -1 <= snd o) offsets ->
  forall rng gr,
    shape gr = repeat (Z.to_nat (rows g)) (Z.to_nat (cols g)) ->
    exists gr',
      paint_each g col row offsets (rng, gr)
      = Some (mkRng (draws rng) (cursor rng + length offsets), gr') /\
      shape gr' = shape gr /\
      forall a b, 0 <= a < cols g -> 0 <= b < rows g ->
        get2 gr' a b
        = Some (if painted g col row (draws rng) (cursor rng) offsets a b
                then 1 else cell gr a b).
Proof.
  intros Hc Hr Hcol Hrow Hoff.
  induction Hoff as [|[i j] rest [Hi Hj] _ IH]; intros rng gr Hs.
  - exists gr. cbn [paint_each length]. rewrite Nat.add_0_r.
    split; [now destruct rng|]. split; [reflexivity|].
    intros a b Ha Hb. cbn [painted].
    destruct (GridFacts.get2_inside gr (cols g) (rows g) a b Hs Ha Hb) as [v Hv].
    now rewrite Hv, (GridFacts.cell_get2 _ _ _ _ Hv).
  - cbn [fst snd] in Hi, Hj. cbn [paint_each fst snd length].
    destruct (GridFacts.paint_wraps g col row i j rng gr Hc Hr Hs
                ltac:(lia) ltac:(lia)) as (gr1 & -> & Hs1 & Hcells1).
    destruct (IH (mkRng (draws rng) (S (cursor rng))) gr1 ltac:(congruence))
      as (gr' & -> & Hs' & Hcells').
    exists gr'. cbn [draws cursor]. rewrite Nat.add_succ_r.
    repeat split; [congruence|].
    intros a b Ha Hb. rewrite (Hcells' a b Ha Hb). cbn [painted draws cursor].
    rewrite (GridFacts.cell_get2 _ _ _ _ (Hcells1 a b Ha Hb)).
    destruct (same_cell _ _ && JS.gtb _ _); cbn [orb]; [|reflexivity].
    now destruct (painted _ _ _ _ _ _ _ _).
Qed.

(** With the pointer over the grid, the handler takes exactly nine draws;
    the cell under the pointer is a cell of the grid and is alive afterwards
    when the fifth draw exceeds [0.3]; and every cell that was alive still
    is. *)
Theorem pointer_over_grid (e : MouseEvent) (dom : Dom) (rng : Rng) (g : t) :
  well_formed g ->
  (0 <= clientX e - rect_left dom)%Q ->
  (clientX e - rect_left dom < inject_Z (8 * cols g))%Q ->
  (0 <= clientY e - rect_top dom)%Q ->
  (clientY e - rect_top dom < inject_Z (8 * rows g))%Q ->
  exists gr',
    handleMouseMove e dom rng g
    = Some (mkRng (draws rng) (cursor rng + 9), set_grid g gr') /\
    let col := JS.floor ((clientX e - rect_left dom) / 8) in
    let row := JS.floor ((clientY e - rect_top dom) / 8) in
    0 <= col < cols g /\ 0 <= row < rows g /\
    (JS.gtb (draws rng (cursor rng + 4)) (3 # 10) = true ->
     get2 gr' col row = Some 1) /\
    (forall a b, get2 (grid g) a b = Some 1 -> get2 gr' a b = Some 1).
Proof.
  intros (_ & _ & Hs) Hx0 Hx1 Hy0 Hy1.
  pose proof (floor_on_grid _ _ Hx0 Hx1) as Hcol.
  pose proof (floor_on_grid _ _ Hy0 Hy1) as Hrow.
  unfold handleMouseMove. change (inject_Z cellSize) with 8%Q.
  set (col := JS.floor ((clientX e - rect_left dom) / 8)) in *.
  set (row := JS.floor ((clientY e - rect_top dom) / 8)) in *.
  rewrite GridFacts.handleMouseMove_block.
  destruct (paint_each_draws g col row block ltac:(lia) ltac:(lia)
              ltac:(lia) ltac:(lia)) with (rng := rng) (gr := grid g)
    as (gr' & -> & Hs' & Hcells).
  - unfold block. repeat constructor; cbn; lia.
  - exact Hs.
  - exists gr'. split; [reflexivity|]. cbv zeta.
    split; [exact Hcol|]. split; [exact Hrow|]. split.
    + intros Hdraw. rewrite (Hcells col row Hcol Hrow).
      assert (painted g col row (draws rng) (cursor rng) block col row = true)
        as ->; [|reflexivity].
      unfold block. cbn [painted].
      replace (S (S (S (S (cursor rng))))) with (cursor rng + 4)%nat by lia.
      rewrite Hdraw.
      assert (same_cell (wrapped g col row (0, 0)) (col, row) = true) as ->.
      { unfold same_cell, wrapped. cbn [fst snd].
        rewrite !Z.add_0_r, !Z.mod_small by lia. now rewrite !Z.eqb_refl. }
      cbn [andb]. now rewrite !orb_true_r.
    + intros a b Ha.
      destruct (GridExtras.get2_range _ _ _ _ _ _ Hs Ha) as [Har Hbr].
      rewrite (Hcells a b Har Hbr), (GridFacts.cell_get2 _ _ _ _ Ha).
      now destruct (painted _ _ _ _ _ _ _ _).
Qed.

(** A pointer at [(12, 5)] on a 24 x 16 canvas at the origin, every draw at
    [0.9]: the cell [(1, 0)] under it comes alive. *)
Lemma pointer_over_grid_witness :
  exists gr',
    handleMouseMove (mkMouseEvent 12 5) (mkDom None 24 16 0 0)
      (mkRng (fun _ => 9 # 10) 0)
      (mk (Context2D 0) 24 16 3 2 [[0; 0]; [0; 0]; [0; 0]] None "#8b5cf6")
    = Some (mkRng (fun _ => 9 # 10) 9,
            set_grid
              (mk (Context2D 0) 24 16 3 2 [[0; 0]; [0; 0]; [0; 0]] None
                  "#8b5cf6") gr') /\
    get2 gr' 1 0 = Some 1.
Proof.
  destruct (pointer_over_grid (mkMouseEvent 12 5) (mkDom None 24 16 0 0)
              (mkRng (fun _ => 9 # 10) 0)
              (mk (Context2D 0) 24 16 3 2 [[0; 0]; [0; 0]; [0; 0]] None
                  "#8b5cf6"))
    as (gr' & E & _ & _ & Hcell & _).
  - repeat split; cbn; lia.
  - vm_compute. discriminate.
  - reflexivity.
  - vm_compute. discriminate.
  - reflexivity.
  - exists gr'. split; [exact E|]. apply Hcell. reflexivity.
Defined.

Lemma get_None {A : Type} (a : list A) i :
  Z.of_nat (length a) <= i -> JS.get a i = None.
Proof.
  intros H. unfold JS.get. destruct (Z.ltb_spec i 0); [reflexivity|].
  apply nth_error_None. lia.
Qed.

Lemma get_negative {A : Type} (a : list A) i : i < 0 -> JS.get a i = None.
Proof.
  intros H. unfold JS.get. destruct (Z.ltb_spec i 0); [reflexivity | lia].
Qed.

(** [placePattern] at a position [(x, y)] with [x >= 0] and [y >= 0] does
    not fail and keeps the dimensions of the grid; the cell [(x + i, y + j)]
    takes the value [pattern[i][j]] wherever the pattern has one and the cell
    is in the grid, the part of the pattern beyond the last column or row is
    dropped (it does not wrap), and every other cell is unchanged. *)
Theorem placePattern_clips (x y : Z) (pattern : list (list Z)) (g : t) :
  well_formed g -> 0 <= x -> 0 <= y ->
  exists gr',
    placePattern x y pattern g = JS.Returns (set_grid g gr') /\
    shape gr' = shape (grid g) /\
    forall a b, 0 <= a < cols g -> 0 <= b < rows g ->
      get2 gr' a b
      = Some (match pattern_cell pattern (a - x) (b - y) with
              | Some v => v
              | None => cell (grid g) a b
              end).
Proof.
  intros (Hc & Hr & Hs) Hx Hy.
  pose (M := fun a b => match pattern_cell pattern (a - x) (b - y) with
                        | Some v => v
                        | None => cell (grid g) a b
                        end).
  pose (I := fun (k : Z) (gr : Grid) =>
    shape gr = shape (grid g) /\
    forall a b, 0 <= a < cols g -> 0 <= b < rows g ->
      get2 gr a b = Some (if a - x <? k then M a b else cell (grid g) a b)).
  assert (exists gr',
            JS.forM (JS.range 0 (Z.of_nat (length pattern))) (fun i gr =>
              match JS.get pattern i with
              | None => None
              | Some line =>
                  JS.forM (JS.range 0 (Z.of_nat (length line))) (fun j gr =>
                    if (x + i <? cols g) && (y + j <? rows g) then
                      match JS.get line j with
                      | Some v => set2 gr (x + i) (y + j) v
                      | None => None
                      end
                    else Some gr) gr
              end) (grid g) = Some gr' /\ I (Z.of_nat (length pattern)) gr')
    as (gr' & Hrun & Hsh & Hcells).
  { apply (JSFacts.forM_range I); [lia | |].
    - split; [reflexivity|]. intros a b Ha Hb.
      destruct (GridFacts.get2_inside (grid g) (cols g) (rows g) a b Hs Ha Hb)
        as [v Hv].
      rewrite Hv, (GridFacts.cell_get2 _ _ _ _ Hv).
      destruct (Z.ltb_spec (a - x) 0); [|reflexivity].
      unfold M, pattern_cell. rewrite get_negative by lia.
      now rewrite (GridFacts.cell_get2 _ _ _ _ Hv).
    - intros k gr Hk [Hshk Hk_cells].
      destruct (JSFacts.get_Some pattern k Hk) as [line Hline]. rewrite Hline.
      pose (J := fun (r : Z) (gr1 : Grid) =>
        shape gr1 = shape (grid g) /\
        forall a b, 0 <= a < cols g -> 0 <= b < rows g ->
          get2 gr1 a b
          = Some (if a - x <? k then M a b
                  else if (a - x =? k) && (b - y <? r) then M a b
                  else cell (grid g) a b)).
      destruct (JSFacts.forM_range J
                  (fun j gr =>
                     if (x + k <? cols g) && (y + j <? rows g) then
                       match JS.get line j with
                       | Some v => set2 gr (x + k) (y + j) v
                       | None => None
                       end
                     else Some gr) 0 (Z.of_nat (length line)) gr)
        as (gr1 & Hrun1 & Hsh1 & Hcells1); [lia | | |].
      + split; [exact Hshk|]. intros a b Ha Hb. rewrite (Hk_cells a b Ha Hb).
        destruct (a - x <? k); [reflexivity|].
        destruct (Z.ltb_spec (b - y) 0); [|now rewrite andb_false_r].
        destruct (a - x =? k) eqn:Eak; [|reflexivity]. cbn [andb].
        apply Z.eqb_eq in Eak. unfold M, pattern_cell.
        rewrite Eak, Hline, get_negative by lia. reflexivity.
      + intros r gr2 Hrr [Hsh2 Hcells2].
        destruct ((x + k <? cols g) && (y + r <? rows g)) eqn:Eguard.
        * apply andb_prop in Eguard. destruct Eguard as [Eg1 Eg2].
          apply Z.ltb_lt in Eg1. apply Z.ltb_lt in Eg2.
          destruct (JSFacts.get_Some line r Hrr) as [v Hv]. rewrite Hv.
          destruct (GridFacts.get2_inside gr2 (cols g) (rows g) (x + k) (y + r))
            as [old Hold]; [congruence | lia | lia |].
          destruct (GridFacts.set2_Some gr2 (x + k) (y + r) v old Hold)
            as [gr3 Hset].
          exists gr3. split; [exact Hset|]. split.
          -- rewrite <- Hsh2. eapply GridFacts.set2_shape; eauto.
          -- intros a b Ha Hb.
             rewrite (GridFacts.get2_set2 _ _ _ _ _ a b Hset).
             destruct (Z.eqb_spec a (x + k)) as [->|Hne];
               [destruct (Z.eqb_spec b (y + r)) as [->|Hne]|]; cbn [andb].
             ++ destruct (Z.ltb_spec (x + k - x) k); [lia|].
                replace (x + k - x =? k) with true by (symmetry; lia).
                replace (y + r - y <? r + 1) with true by (symmetry; lia).
                cbn [andb]. unfold M, pattern_cell.
                replace (x + k - x) with k by lia.
                replace (y + r - y) with r by lia.
                now rewrite Hline, Hv.
             ++ rewrite (Hcells2 (x + k) b Ha Hb).
                destruct (x + k - x <? k); [reflexivity|].
                destruct (x + k - x =? k); [|reflexivity]. cbn [andb].
                destruct (Z.ltb_spec (b - y) r), (Z.ltb_spec (b - y) (r + 1));
                  try reflexivity; lia.
             ++ rewrite (Hcells2 a b Ha Hb).
                destruct (a - x <? k); [reflexivity|].
                destruct (Z.eqb_spec (a - x) k); [lia | reflexivity].
        * exists gr2. split; [reflexivity|]. split; [exact Hsh2|].
          intros a b Ha Hb. rewrite (Hcells2 a b Ha Hb).
          destruct (a - x <? k); [reflexivity|].
          destruct (Z.eqb_spec (a - x) k) as [Eak|]; [|reflexivity].
          cbn [andb].
          destruct (Z.ltb_spec (b - y) r), (Z.ltb_spec (b - y) (r + 1));
            try reflexivity; lia.
      + exists gr1. split; [exact Hrun1|]. split; [exact Hsh1|].
        intros a b Ha Hb. rewrite (Hcells1 a b Ha Hb).
        destruct (Z.ltb_spec (a - x) k), (Z.ltb_spec (a - x) (k + 1));
          try reflexivity; try lia.
        * replace (a - x =? k) with true by (symmetry; lia). cbn [andb].
          destruct (Z.ltb_spec (b - y) (Z.of_nat (length line)));
            [reflexivity|].
          unfold M, pattern_cell. replace (a - x) with k by lia.
          now rewrite Hline, get_None.
        * destruct (Z.eqb_spec (a - x) k); [lia | reflexivity]. }
  exists gr'. split; [|split; [exact Hsh|]].
  { unfold placePattern.
    rewrite <- (JSFacts.returned_forC _
                  (fun i gr =>
                     match JS.get pattern i with
                     | None => JS.Throws
                     | Some line =>
                         JS.forC (JS.range 0 (Z.of_nat (length line)))
                           (fun j gr =>
                              if (x + i <? cols g) && (y + j <? rows g) then
                                match JS.get line j with
                                | Some v => assign2 gr (x + i) (y + j) v
                                | None => JS.Unrepresented
                                end
                              else JS.Returns gr) gr
                     end)) in Hrun.
    - destruct (JS.forC _ _ _); [|discriminate Hrun..].
      cbn [JS.returned] in Hrun. now injection Hrun as ->.
    - intros i gr. destruct (JS.get pattern i) as [line|]; [|reflexivity].
      apply JSFacts.returned_forC. intros j gr1.
      destruct (_ && _); [|reflexivity].
      destruct (JS.get line j) as [v|]; [|reflexivity].
      unfold assign2, set2. destruct (JS.get gr1 (x + i)); [|reflexivity].
      destruct (JS.set _ _ _); [|reflexivity].
      now destruct (JS.set _ _ _). }
  intros a b Ha Hb. rewrite (Hcells a b Ha Hb). fold (M a b).
  destruct (Z.ltb_spec (a - x) (Z.of_nat (length pattern))); [reflexivity|].
  unfold M, pattern_cell. now rewrite get_None.
Qed.

(** The glider placed at [(2, 1)] on a 4 x 3 grid of live cells: its last
    column and row fall outside and are dropped. *)
Lemma placePattern_clips_witness :
  exists gr',
    placePattern 2 1 glider
      (mk (Context2D 0) 32 24 4 3 [[1; 1; 1]; [1; 1; 1]; [1; 1; 1]; [1; 1; 1]]
          None "#8b5cf6")
    = JS.Returns
        (set_grid
           (mk (Context2D 0) 32 24 4 3
               [[1; 1; 1]; [1; 1; 1]; [1; 1; 1]; [1; 1; 1]] None "#8b5cf6")
           gr') /\
    get2 gr' 2 1 = Some 0 /\ get2 gr' 3 2 = Some 0 /\ get2 gr' 0 0 = Some 1.
Proof.
  destruct (placePattern_clips 2 1 glider
              (mk (Context2D 0) 32 24 4 3
                  [[1; 1; 1]; [1; 1; 1]; [1; 1; 1]; [1; 1; 1]] None "#8b5cf6"))
    as (gr' & E & _ & Hcells); [repeat split; cbn; lia | lia | lia |].
  exists gr'. split; [exact E|].
  rewrite (Hcells 2 1), (Hcells 3 2), (Hcells 0 0) by (cbn; lia).
  repeat split.
Defined.

(** [placePattern] guards the right and bottom edges only: left of the grid
    ([x < 0]) the first value of the pattern is to be written into the column
    [this.grid[x]], which is [undefined], and the call throws. *)
Theorem placePattern_left_throws (x y v : Z) (line : list Z)
    (rest : list (list Z)) (g : t) :
  0 <= cols g -> x < 0 -> y < rows g ->
  JS.get (grid g) x = None /\
  placePattern x y ((v :: line) :: rest) g = JS.Throws.
Proof.
  intros Hc Hx Hy. split; [now apply get_negative|]. unfold placePattern.
  rewrite JSFacts.range_cons by (cbn [length]; lia). cbn [JS.forC].
  change (JS.get ((v :: line) :: rest) 0) with (Some (v :: line)).
  cbv iota.
  rewrite (JSFacts.range_cons 0 (Z.of_nat (length (v :: line))))
    by (cbn [length]; lia).
  cbn [JS.forC].
  rewrite !Z.add_0_r.
  destruct (Z.ltb_spec x (cols g)); [|lia].
  destruct (Z.ltb_spec y (rows g)); [|lia]. cbn [andb].
  change (JS.get (v :: line) 0) with (Some v).
  unfold assign2. now rewrite get_negative.
Qed.

(** The glider placed one column left of a 3 x 2 grid. *)
Lemma placePattern_left_throws_witness :
  placePattern (-1) 0 glider
    (mk (Context2D 0) 24 16 3 2 [[0; 0]; [0; 0]; [0; 0]] None "#8b5cf6")
  = JS.Throws.
Proof.
  apply (placePattern_left_throws (-1) 0 0 [1; 0] [[0; 0; 1]; [1; 1; 1]]);
    cbn; lia.
Defined.

End GridRender.

(** ** The grid automaton: symmetry of the torus *)

Module GridSymmetry.

Import GameOfLife.
Local Open Scope Z_scope.

Lemma shifted_wrapped a b g g' c r o :
  shifted a b g g' -> 0 < cols g -> 0 < rows g ->
  cell (grid g') (fst (wrapped g' c r o)) (snd (wrapped g' c r o))
  = cell (grid g)
      (fst (wrapped g ((c + a) mod cols g) ((r + b) mod rows g) o))
      (snd (wrapped g ((c + a) mod cols g) ((r + b) mod rows g) o)).
Proof.
  intros (Ec & Er & Hcells) Hc Hr. unfold wrapped. cbn [fst snd].
  rewrite Ec, Er, Hcells by (apply Z.mod_pos_bound; lia).
  rewrite !Z.add_mod_idemp_l by lia.
  f_equal; f_equal; lia.
Qed.

Lemma shifted_neighbours a b g g' c r :
  shifted a b g g' -> 0 < cols g -> 0 < rows g ->
  alive_neighbours g' c r
  = alive_neighbours g ((c + a) mod cols g) ((r + b) mod rows g).
Proof.
  intros Hs Hc Hr. unfold alive_neighbours. f_equal.
  apply map_ext. intros o. now apply shifted_wrapped.
Qed.

Lemma update_shifted a b g g' :
  well_formed g -> well_formed g' -> shifted a b g g' ->
  exists n n',
    update g = Some n /\ update g' = Some n' /\
    well_formed n /\ well_formed n' /\ shifted a b n n'.
Proof.
  intros Hwf Hwf' Hs. pose proof Hs as (Ec & Er & Hcells).
  destruct (GridFacts.update_rules g Hwf) as (next & E & Hsh & Hnext).
  destruct (GridFacts.update_rules g' Hwf') as (next' & E' & Hsh' & Hnext').
  exists (set_grid g next), (set_grid g' next').
  split; [exact E|]. split; [exact E'|].
  split; [now apply GridExtras.well_formed_set_grid|].
  split; [now apply GridExtras.well_formed_set_grid|].
  unfold shifted. cbn [cols rows grid set_grid].
  split; [exact Ec|]. split; [exact Er|]. intros c r Hc Hr.
  assert (0 <= (c + a) mod cols g < cols g) as Hc'
    by (apply Z.mod_pos_bound; lia).
  assert (0 <= (r + b) mod rows g < rows g) as Hr'
    by (apply Z.mod_pos_bound; lia).
  unfold cell at 1 2.
  rewrite Hnext' by lia. rewrite Hnext by assumption.
  rewrite (Hcells c r Hc Hr).
  now rewrite (shifted_neighbours a b g g' c r Hs) by lia.
Qed.

(** [update] treats every cell of the torus alike: if one grid is another
    moved by [(a, b)] with wrap-around, then after any number of frames the
    one is still the other moved by [(a, b)]. No edge or corner of the grid
    is special. *)
Theorem updates_commute_with_shift (a b : Z) (k : nat) (g g' : t) :
  well_formed g -> well_formed g' -> shifted a b g g' ->
  exists n n',
    updates k g = Some n /\ updates k g' = Some n' /\ shifted a b n n'.
Proof.
  revert g g'. induction k as [|k IH]; intros g g' Hwf Hwf' Hs.
  - exists g, g'. auto.
  - destruct (update_shifted a b g g' Hwf Hwf' Hs)
      as (n & n' & E & E' & Hn & Hn' & Hs').
    cbn [updates]. rewrite E, E'. now apply IH.
Qed.

(** A blinker across the left edge of a 4 x 3 torus, and the same blinker
    one column to the left. *)
Lemma updates_commute_with_shift_witness :
  let g := mk (Context2D 0) 32 24 4 3
              [[0; 1; 0]; [0; 1; 0]; [0; 0; 0]; [0; 1; 0]] None "#8b5cf6" in
  let g' := mk (Context2D 0) 32 24 4 3
               [[0; 1; 0]; [0; 0; 0]; [0; 1; 0]; [0; 1; 0]] None "#8b5cf6" in
  exists n n',
    updates 5 g = Some n /\ updates 5 g' = Some n' /\ shifted 1 0 n n'.
Proof.
  intros g g'.
  apply (updates_commute_with_shift 1 0 5 g g').
  - repeat split; cbn; lia.
  - repeat split; cbn; lia.
  - split; [reflexivity|]. split; [reflexivity|]. intros c r Hc Hr.
    change (cols g) with 4 in *. change (rows g) with 3 in *.
    assert (c = 0 \/ c = 1 \/ c = 2 \/ c = 3) as Hc' by lia.
    assert (r = 0 \/ r = 1 \/ r = 2) as Hr' by lia.
    destruct Hc' as [-> | [-> | [-> | ->]]];
      destruct Hr' as [-> | [-> | ->]];
      reflexivity.
Defined.

End GridSymmetry.

(** ** The node graph: population, bounces and lines *)

Module GraphExtras.

Import NetworkGraph.
Local Open Scope R_scope.

(** What [new Node(w, h)] makes of five draws in [[0, 1)]. *)
Lemma Node_constructor_fresh w h rng :
  ParticleAttractor.unit_draws rng -> 0 <= w -> 0 <= h ->
  exists p,
    Node.constructor w h rng
    = (mkRng (draws rng) (5 + cursor rng), p) /\
    inside w h p /\ Rabs (Node.vx p) <= 0.25 /\ Rabs (Node.vy p) <= 0.25 /\
    1.5 <= Node.size p < 3.5.
Proof.
  intros Hu Hw Hh. unfold Node.constructor, RMath.randomR, random.
  cbn [draws cursor]. eexists. split; [reflexivity|].
  pose proof (Hu (cursor rng)) as H1. pose proof (Hu (S (cursor rng))) as H2.
  pose proof (Hu (S (S (cursor rng)))) as H3.
  pose proof (Hu (S (S (S (cursor rng))))) as H4.
  pose proof (Hu (S (S (S (S (cursor rng)))))) as H5.
  unfold inside. cbn [Node.x Node.y Node.vx Node.vy Node.size].
  repeat split; try (apply Rabs_le; split); nra.
Qed.

Lemma push_nodes_fresh n w h rng ps :
  ParticleAttractor.unit_draws rng -> 0 <= w -> 0 <= h ->
  Forall (fun p => inside w h p /\ Rabs (Node.vx p) <= 0.25 /\
                   Rabs (Node.vy p) <= 0.25 /\ 1.5 <= Node.size p < 3.5) ps ->
  draws (fst (push_nodes n w h rng ps)) = draws rng /\
  cursor (fst (push_nodes n w h rng ps)) = (5 * n + cursor rng)%nat /\
  length (snd (push_nodes n w h rng ps)) = (length ps + n)%nat /\
  Forall (fun p => inside w h p /\ Rabs (Node.vx p) <= 0.25 /\
                   Rabs (Node.vy p) <= 0.25 /\ 1.5 <= Node.size p < 3.5)
         (snd (push_nodes n w h rng ps)).
Proof.
  intros Hu Hw Hh. revert rng ps Hu.
  induction n as [|n IH]; intros rng ps Hu Hps.
  - cbn. repeat split; [lia | exact Hps].
  - cbn [push_nodes].
    destruct (Node_constructor_fresh w h rng Hu Hw Hh) as (p & -> & Hp).
    cbv beta iota.
    destruct (IH (mkRng (draws rng) (5 + cursor rng)) (ps ++ [p]))
      as (Hd & Hc & Hl & Hf).
    + exact Hu.
    + apply Forall_app. split; [exact Hps | now constructor].
    + cbn [draws cursor] in Hd, Hc. rewrite length_app in Hl. cbn [length] in Hl.
      repeat split; [exact Hd | lia | lia | exact Hf].
Qed.

Lemma surface_size_nonneg dom :
  (0 <= fst (surface_size dom))%Z /\ (0 <= snd (surface_size dom))%Z.
Proof.
  unfold surface_size. destruct (parentElement dom) as [[w h]|]; cbn; lia.
Qed.

(** [resize] spelled out: the count and the connection distance it picks,
    and the pushes of [createParticles]. *)
Lemma resize_shape dom rng a :
  exists count distance,
    (20 <= count <= 150)%Z /\
    ((fst (surface_size dom) < 768)%Z -> (count <= 50)%Z /\ distance = 120) /\
    ((768 <= fst (surface_size dom))%Z -> distance = 180) /\
    resize dom rng a
    = (fst (push_nodes (Z.to_nat count) (IZR (fst (surface_size dom)))
              (IZR (snd (surface_size dom))) rng []),
       mk (ctx a) (fst (surface_size dom)) (snd (surface_size dom))
          (snd (push_nodes (Z.to_nat count) (IZR (fst (surface_size dom)))
                  (IZR (snd (surface_size dom))) rng []))
          (animationId a) (color a) count (mouse a) distance).
Proof.
  unfold resize, createParticles.
  destruct (surface_size dom) as [w h]. cbn [fst snd].
  destruct (Z.ltb_spec w 768) as [Hw|Hw].
  - generalize (Z.min 50 (w * h / 10000)) (Z.le_min_l 50 (w * h / 10000)).
    intros c Hc.
    destruct (Z.ltb_spec c 20);
      [exists 20%Z, 120 | exists c, 120];
      (split; [lia|]); (split; [intros _; split; [lia | reflexivity]|]);
      (split; [intros H'; lia|]);
      cbn [particleCount width height];
      destruct (push_nodes _ _ _ _ _) as [r ps]; reflexivity.
  - generalize (Z.min 150 (w * h / 6000)) (Z.le_min_l 150 (w * h / 6000)).
    intros c Hc.
    destruct (Z.ltb_spec c 20);
      [exists 20%Z, 180 | exists c, 180];
      (split; [lia|]); (split; [intros H'; lia|]);
      (split; [intros _; reflexivity|]);
      cbn [particleCount width height];
      destruct (push_nodes _ _ _ _ _) as [r ps]; reflexivity.
Qed.

(** [resize] of the node graph, with draws in [[0, 1)]: the surface takes the
    size of the layout; the graph gets between 20 and 150 nodes, at most 50
    on a surface narrower than 768, where the connection distance is 120, and
    180 otherwise; every node is new, made of five draws of its own, on the
    surface, with each velocity component at most 0.25 in magnitude and a
    radius in [[1.5, 3.5)]. *)
Theorem resize_nodes (dom : Dom) (rng : Rng) (a : t) :
  ParticleAttractor.unit_draws rng ->
  let a' := snd (resize dom rng a) in
  let rng' := fst (resize dom rng a) in
  width a' = fst (surface_size dom) /\
  height a' = snd (surface_size dom) /\
  (20 <= particleCount a' <= 150)%Z /\
  ((width a' < 768)%Z ->
   (particleCount a' <= 50)%Z /\ connectionDistance a' = 120) /\
  ((768 <= width a')%Z -> connectionDistance a' = 180) /\
  length (particles a') = Z.to_nat (particleCount a') /\
  draws rng' = draws rng /\
  cursor rng' = (5 * length (particles a') + cursor rng)%nat /\
  Forall (fun p => inside (IZR (width a')) (IZR (height a')) p /\
                   Rabs (Node.vx p) <= 0.25 /\ Rabs (Node.vy p) <= 0.25 /\
                   1.5 <= Node.size p < 3.5) (particles a').
Proof.
  intros Hu. cbv zeta.
  destruct (resize_shape dom rng a) as (count & distance & Hn & Hm & Hd & ->).
  pose proof (surface_size_nonneg dom) as [Hw Hh].
  pose proof (push_nodes_fresh (Z.to_nat count) _ _ rng [] Hu
                (IZR_le _ _ Hw) (IZR_le _ _ Hh) (Forall_nil _))
    as (Ed & Ec & El & Hf).
  cbn [fst snd width height particleCount particles connectionDistance].
  cbn [length Nat.add] in El.
  split; [reflexivity|]. split; [reflexivity|]. split; [exact Hn|].
  split; [exact Hm|]. split; [exact Hd|]. split; [exact El|].
  split; [exact Ed|]. split; [now rewrite Ec, El | exact Hf].
Qed.

(** A 300 x 200 parent: a narrow surface. *)
Lemma resize_nodes_witness :
  let dom := mkDom (Some (300%N, 200%N)) 1280 720 0 0 in
  let rng := mkRng (fun _ => 0%Q) 0 in
  let a := mk (Context2D 0) 300 150 [] None "#8b5cf6" 60 default_mouse 150 in
  (20 <= particleCount (snd (resize dom rng a)) <= 50)%Z /\
  connectionDistance (snd (resize dom rng a)) = 120 /\
  cursor (fst (resize dom rng a))
  = (5 * Z.to_nat (particleCount (snd (resize dom rng a))))%nat.
Proof.
  intros dom rng a.
  destruct (resize_nodes dom rng a (ParticleFacts.unit_draws_zero 0))
    as (Ew & _ & Hn & Hm & _ & El & _ & Ec & _).
  change (fst (surface_size dom)) with 300%Z in Ew. rewrite Ew in Hm.
  change (cursor rng) with 0%nat in Ec. rewrite Nat.add_0_r in Ec.
  destruct Hm as [Hc Hd]; [lia|].
  split; [lia|]. split; [exact Hd|]. rewrite Ec, El. reflexivity.
Defined.

(** One axis of [update]: a coordinate on the surface, or off it and coming
    back, is so again after the step; the velocity keeps its magnitude. *)
Lemma axis_returning w x v :
  0 <= w -> returning w x v ->
  returning w (x + v)
    (if RMath.ltb (x + v) 0 || RMath.gtb (x + v) w then v * -1 else v) /\
  Rabs (if RMath.ltb (x + v) 0 || RMath.gtb (x + v) w then v * -1 else v)
  = Rabs v.
Proof.
  intros Hw Hr. unfold RMath.gtb, RMath.ltb, returning in *.
  destruct (Rlt_dec (x + v) 0), (Rlt_dec w (x + v)); cbn [orb];
    (split; [lra|]); try reflexivity;
    (replace (v * -1) with (- v) by ring); apply Rabs_Ropp.
Qed.

Lemma returning_near w x v m :
  0 <= w -> returning w x v -> Rabs v <= m -> - m <= x <= w + m.
Proof.
  intros Hw Hr Hv. apply ParticleFacts.Rabs_le_inv in Hv.
  unfold returning in Hr. lra.
Qed.

Lemma inside_in_flight w h m p :
  inside w h p -> Rabs (Node.vx p) <= m -> Rabs (Node.vy p) <= m ->
  in_flight w h m p.
Proof.
  intros [Hx Hy] Hvx Hvy. repeat split; try assumption; now left.
Qed.

Lemma in_flight_near w h m p :
  0 <= w -> 0 <= h -> in_flight w h m p -> near w h m p.
Proof.
  intros Hw Hh (Hx & Hy & Hvx & Hvy).
  split; eapply returning_near; eauto.
Qed.

Lemma update_node_in_flight w h m p :
  0 <= w -> 0 <= h -> in_flight w h m p -> in_flight w h m (update_node w h p).
Proof.
  intros Hw Hh (Hx & Hy & Hvx & Hvy).
  destruct (axis_returning w (Node.x p) (Node.vx p) Hw Hx) as [Hx' Ex].
  destruct (axis_returning h (Node.y p) (Node.vy p) Hh Hy) as [Hy' Ey].
  unfold in_flight, update_node.
  cbn [Node.x Node.y Node.vx Node.vy]. rewrite Ex, Ey. auto.
Qed.

Lemma Rabs_flip (b : bool) v : Rabs (if b then v * -1 else v) = Rabs v.
Proof.
  destruct b; [|reflexivity]. replace (v * -1) with (- v) by ring.
  apply Rabs_Ropp.
Qed.

Lemma update_node_magnitudes w h p :
  Rabs (Node.vx (update_node w h p)) = Rabs (Node.vx p) /\
  Rabs (Node.vy (update_node w h p)) = Rabs (Node.vy p) /\
  Node.size (update_node w h p) = Node.size p.
Proof.
  unfold update_node. cbn [Node.vx Node.vy Node.size].
  repeat split; apply Rabs_flip.
Qed.

Lemma iter_update_frame n a :
  width (Nat.iter n update a) = width a /\
  height (Nat.iter n update a) = height a /\
  mouse (Nat.iter n update a) = mouse a /\
  color (Nat.iter n update a) = color a /\
  connectionDistance (Nat.iter n update a) = connectionDistance a.
Proof.
  induction n as [|n IH]; [repeat split|]. rewrite Nat.iter_succ. exact IH.
Qed.

Lemma iter_update_in_flight n a m :
  (0 <= width a)%Z -> (0 <= height a)%Z ->
  Forall (in_flight (IZR (width a)) (IZR (height a)) m) (particles a) ->
  Forall (in_flight (IZR (width a)) (IZR (height a)) m)
         (particles (Nat.iter n update a)).
Proof.
  intros Hw Hh Hf. induction n as [|n IH]; [exact Hf|].
  rewrite Nat.iter_succ. unfold update at 1. cbn [particles set_particles].
  destruct (iter_update_frame n a) as (-> & -> & _).
  apply Forall_map. eapply Forall_impl; [|exact IH].
  intros p Hp. apply update_node_in_flight; [now apply IZR_le.. | exact Hp].
Qed.

Lemma iter_update_near n a m :
  (0 <= width a)%Z -> (0 <= height a)%Z ->
  Forall (fun p => inside (IZR (width a)) (IZR (height a)) p /\
                   Rabs (Node.vx p) <= m /\ Rabs (Node.vy p) <= m)
         (particles a) ->
  Forall (near (IZR (width a)) (IZR (height a)) m)
         (particles (Nat.iter n update a)).
Proof.
  intros Hw Hh Hf.
  eapply Forall_impl;
    [|apply (iter_update_in_flight n a m Hw Hh);
      eapply Forall_impl; [|exact Hf]].
  - intros p. apply in_flight_near; now apply IZR_le.
  - intros p (Hi & Hvx & Hvy). now apply inside_in_flight.
Qed.

(** [update] of the node graph, any number of times: no node is added or
    removed, and every node keeps its radius and the magnitude of both
    velocity components (a bounce only flips a sign); if the nodes start on
    the surface with velocity components of magnitude at most [m], no node is
    ever further than [m] outside the surface. *)
Theorem update_keeps_nodes_near (a : t) (m : R) (n : nat) :
  (0 <= width a)%Z -> (0 <= height a)%Z ->
  Forall (fun p => inside (IZR (width a)) (IZR (height a)) p /\
                   Rabs (Node.vx p) <= m /\ Rabs (Node.vy p) <= m)
         (particles a) ->
  map (fun p => (Rabs (Node.vx p), Rabs (Node.vy p), Node.size p))
      (particles (Nat.iter n update a))
  = map (fun p => (Rabs (Node.vx p), Rabs (Node.vy p), Node.size p))
        (particles a) /\
  Forall (near (IZR (width a)) (IZR (height a)) m)
         (particles (Nat.iter n update a)).
Proof.
  intros Hw Hh Hf. split.
  - clear. induction n as [|n IH]; [reflexivity|].
    rewrite Nat.iter_succ. unfold update at 1. cbn [particles set_particles].
    rewrite map_map, <- IH. apply map_ext. intros p.
    destruct (update_node_magnitudes
                (IZR (width (Nat.iter n update a)))
                (IZR (height (Nat.iter n update a))) p) as (-> & -> & ->).
    reflexivity.
  - now apply iter_update_near.
Qed.

(** A run of nodes that are on the surface and slow. *)
Lemma update_keeps_nodes_near_witness :
  let a := mk (Context2D 0) 100 50 [Node.mk 99.9 0.1 0.2 (-0.2) 2] None
              "#8b5cf6" 20 default_mouse 120 in
  Forall (near 100 50 0.25) (particles (Nat.iter 7 update a)).
Proof.
  intros a.
  apply (update_keeps_nodes_near a 0.25 7);
    [change (0 <= 100)%Z; lia | change (0 <= 50)%Z; lia |].
  change (particles a) with [Node.mk 99.9 0.1 0.2 (-0.2) 2].
  change (IZR (width a)) with 100. change (IZR (height a)) with 50.
  constructor; [|constructor]. unfold inside.
  cbn [Node.x Node.y Node.vx Node.vy].
  repeat split; try lra; apply Rabs_le; lra.
Defined.

Lemma connections_nodes a ps op :
  In op (connections a ps) ->
  (exists p q, In p ps /\ In q ps /\ op = peer_line a p q) \/
  (exists p, In p ps /\ op = pointer_line a p /\
             distance (fst (mouse a)) (snd (mouse a)) (Node.x p) (Node.y p)
             < connectionDistance a + 50).
Proof.
  induction ps as [|p1 rest IH]; [contradiction|].
  cbn [connections]. intros Hin.
  apply in_app_or in Hin. destruct Hin as [Hin|Hin].
  - destruct (GraphFacts.connect_peers_inv a p1 rest op Hin) as (q & Hq & -> & _).
    left. exists p1, q. repeat split; [now left | now right].
  - apply in_app_or in Hin. destruct Hin as [Hin|Hin].
    + destruct (GraphFacts.connect_mouse_inv a p1 op Hin) as [-> Hd].
      right. exists p1. repeat split; [now left | exact Hd].
    + destruct (IH Hin) as [(p & q & Hp & Hq & E)|(p & Hp & E)].
      * left. exists p, q. repeat split; [now right | now right | exact E].
      * right. exists p. split; [now right | exact E].
Qed.

(** The pointer before its first move is out of reach of every node that is
    less than 0.25 off the surface. *)
Lemma default_pointer_out_of_reach w h cd p :
  near w h 0.25 p -> cd <= 180 ->
  ~ distance (fst default_mouse) (snd default_mouse) (Node.x p) (Node.y p)
    < cd + 50.
Proof.
  intros [Hx Hy] Hcd. unfold distance, default_mouse. cbn [fst snd].
  apply Rle_not_lt. apply Rle_trans with 230; [lra|].
  apply ParticleFacts.sqrt_ge_bound; [lra | nra].
Qed.

(** Until the pointer has moved over the page, no line goes to it: from a
    [resize] on (so from construction on) and through any number of frames,
    every line [draw] strokes joins two nodes of the graph. *)
Theorem lines_join_nodes_before_pointer (dom : Dom) (rng : Rng) (a : t)
    (n : nat) :
  ParticleAttractor.unit_draws rng -> mouse a = default_mouse ->
  let a' := Nat.iter n update (snd (resize dom rng a)) in
  forall op, In op (draw a') -> is_line op ->
    exists p q, In p (particles a') /\ In q (particles a') /\
                op = peer_line a' p q.
Proof.
  intros Hu Hm a' op Hin Hline.
  destruct (resize_shape dom rng a) as (count & distance & Hn & Hmob & Hd & E).
  pose proof (surface_size_nonneg dom) as [Hw Hh].
  pose proof (push_nodes_fresh (Z.to_nat count) _ _ rng [] Hu
                (IZR_le _ _ Hw) (IZR_le _ _ Hh) (Forall_nil _))
    as (_ & _ & _ & Hf).
  set (a0 := snd (resize dom rng a)) in *.
  assert (width a0 = fst (surface_size dom) /\
          height a0 = snd (surface_size dom) /\
          particles a0
          = snd (push_nodes (Z.to_nat count) (IZR (fst (surface_size dom)))
                   (IZR (snd (surface_size dom))) rng []) /\
          mouse a0 = default_mouse /\ connectionDistance a0 = distance)
    as (Ew & Eh & Ep & Em & Ed).
  { unfold a0. rewrite E. cbn [snd width height particles mouse
                               connectionDistance]. auto. }
  assert (connectionDistance a0 <= 180) as Hcd.
  { rewrite Ed. destruct (Z.lt_ge_cases (fst (surface_size dom)) 768) as [H|H];
      [destruct (Hmob H) as [_ ->] | rewrite (Hd H)]; lra. }
  assert (Forall (near (IZR (width a0)) (IZR (height a0)) 0.25)
                 (particles (Nat.iter n update a0))) as Hnear.
  { apply iter_update_near; [now rewrite Ew | now rewrite Eh |].
    rewrite Ew, Eh, Ep. eapply Forall_impl; [|exact Hf].
    intros p (Hi & Hvx & Hvy & _). auto. }
  fold a' in Hnear.
  destruct (iter_update_frame n a0) as (_ & _ & Em' & _ & Ed').
  fold a' in Em', Ed'.
  unfold draw in Hin. cbn [app] in Hin.
  destruct Hin as [<-|[<-|Hin]]; try contradiction.
  apply in_app_or in Hin. destruct Hin as [Hin|Hin].
  - destruct (connections_nodes a' (particles a') op Hin)
      as [H|(p & Hp & _ & Hreach)]; [exact H|].
    exfalso. rewrite Em', Em in Hreach.
    rewrite Forall_forall in Hnear.
    apply (default_pointer_out_of_reach _ _ (connectionDistance a') p
             (Hnear p Hp)); [rewrite Ed'; exact Hcd | exact Hreach].
  - cbn [app] in Hin. destruct Hin as [<-|Hin]; [contradiction|].
    unfold nodes in Hin. apply in_map_iff in Hin.
    destruct Hin as (p & <- & _). contradiction.
Qed.

(** A graph made on a 300 x 200 surface, three frames later. *)
Lemma lines_join_nodes_before_pointer_witness :
  let dom := mkDom (Some (300%N, 200%N)) 1280 720 0 0 in
  let rng := mkRng (fun _ => 0%Q) 0 in
  let a := mk (Context2D 0) 300 150 [] None "#8b5cf6" 60 default_mouse 150 in
  let a' := Nat.iter 3 update (snd (resize dom rng a)) in
  mouse a = default_mouse /\
  forall op, In op (draw a') -> is_line op ->
    exists p q, In p (particles a') /\ In q (particles a') /\
                op = peer_line a' p q.
Proof.
  intros dom rng a. split; [reflexivity|].
  apply (lines_join_nodes_before_pointer dom rng a 3
           (ParticleFacts.unit_draws_zero 0)).
  reflexivity.
Defined.

End GraphExtras.

(** ** The particle field: population, conservation and the pull *)

Module FieldExtras.

Import ParticleAttractor.
Local Open Scope R_scope.

(** What [new Particle(w, h)] makes of six draws in [[0, 1)]: the radius comes
    from the first, the velocity from the [reset] in the middle, the position
    from the last two. *)
Lemma Particle_constructor_fresh w h rng :
  unit_draws rng -> 0 <= w -> 0 <= h ->
  exists p,
    Particle.constructor w h rng = (mkRng (draws rng) (6 + cursor rng), p) /\
    0 <= Particle.x p <= w /\ 0 <= Particle.y p <= h /\
    1 <= Particle.size p < 3 /\ 1 <= speed p < 3.
Proof.
  intros Hu Hw Hh.
  unfold Particle.constructor, Particle.reset, RMath.randomR, random.
  cbn [draws cursor]. eexists. split; [reflexivity|].
  pose proof (Hu (cursor rng)) as H0.
  pose proof (Hu (S (S (S (cursor rng))))) as H3.
  pose proof (Hu (S (S (S (S (cursor rng)))))) as H4.
  pose proof (Hu (S (S (S (S (S (cursor rng))))))) as H5.
  unfold speed.
  cbn [Particle.x Particle.y Particle.vx Particle.vy Particle.size].
  set (angle := _ * PI * 2).
  set (s := Q2R (draws rng (S (S (S (cursor rng))))) * 2 + 1) in *.
  replace (- sin angle * s * (- sin angle * s) + cos angle * s * (cos angle * s))
    with (s * s * (cos angle * cos angle + sin angle * sin angle)) by ring.
  rewrite ParticleFacts.cos_sin_unit, Rmult_1_r, sqrt_square by (unfold s; lra).
  unfold s. repeat split; nra.
Qed.

Lemma push_particles_fresh n w h rng ps :
  unit_draws rng -> 0 <= w -> 0 <= h ->
  Forall (numbers
            (fun p => 0 <= Particle.x p <= w /\ 0 <= Particle.y p <= h /\
                      1 <= Particle.size p < 3 /\ 1 <= speed p < 3)) ps ->
  draws (fst (push_particles n w h rng ps)) = draws rng /\
  cursor (fst (push_particles n w h rng ps)) = (6 * n + cursor rng)%nat /\
  length (snd (push_particles n w h rng ps)) = (length ps + n)%nat /\
  Forall (numbers
            (fun p => 0 <= Particle.x p <= w /\ 0 <= Particle.y p <= h /\
                      1 <= Particle.size p < 3 /\ 1 <= speed p < 3))
         (snd (push_particles n w h rng ps)).
Proof.
  intros Hu Hw Hh. revert rng ps Hu.
  induction n as [|n IH]; intros rng ps Hu Hps.
  - cbn. repeat split; [lia | exact Hps].
  - cbn [push_particles].
    destruct (Particle_constructor_fresh w h rng Hu Hw Hh) as (p & -> & Hp).
    cbv beta iota.
    destruct (IH (mkRng (draws rng) (6 + cursor rng))
                 (ps ++ [Particle.Numbers p]))
      as (Hd & Hc & Hl & Hf).
    + exact Hu.
    + apply Forall_app. split; [exact Hps | now constructor].
    + cbn [draws cursor] in Hd, Hc. rewrite length_app in Hl.
      cbn [length] in Hl.
      repeat split; [exact Hd | lia | lia | exact Hf].
Qed.

(** [resize] of the particle field, with draws in [[0, 1)]: the surface takes
    the size of the layout; the particles it held are dropped and replaced by
    at most 600 new ones, at most one per 2000 units of area, each made of six
    draws of its own: on the surface, with a radius in [[1, 3)] and a speed in
    [[1, 3)]. *)
Theorem resize_particles (dom : Dom) (rng : Rng) (a : t) :
  unit_draws rng ->
  let a' := snd (resize dom rng a) in
  let rng' := fst (resize dom rng a) in
  width a' = fst (surface_size dom) /\
  height a' = snd (surface_size dom) /\
  (0 <= particleCount a' <= 600)%Z /\
  (2000 * particleCount a' <= width a' * height a')%Z /\
  length (particles a') = Z.to_nat (particleCount a') /\
  draws rng' = draws rng /\
  cursor rng' = (6 * length (particles a') + cursor rng)%nat /\
  Forall (numbers
            (fun p => 0 <= Particle.x p <= IZR (width a') /\
                      0 <= Particle.y p <= IZR (height a') /\
                      1 <= Particle.size p < 3 /\ 1 <= speed p < 3))
         (particles a').
Proof.
  intros Hu. cbv zeta. unfold resize, createParticles.
  pose proof (GraphExtras.surface_size_nonneg dom) as [Hw Hh].
  destruct (surface_size dom) as [w h]. cbn [fst snd] in Hw, Hh.
  cbn [particleCount width height].
  pose proof (push_particles_fresh (Z.to_nat (Z.min 600 (w * h / 2000)))
                (IZR w) (IZR h) rng [] Hu
                (IZR_le _ _ Hw) (IZR_le _ _ Hh) (Forall_nil _))
    as (Hd & Hc & Hl & Hf).
  destruct (push_particles _ _ _ _ _) as [r ps]. cbn [fst snd] in *.
  cbn [set_particles width height particleCount particles].
  cbn [length Nat.add] in Hl.
  assert (0 <= w * h / 2000)%Z as Hq by (apply Z.div_pos; nia).
  assert (2000 * (w * h / 2000) <= w * h)%Z as Hfl
    by (apply Z.mul_div_le; lia).
  split; [reflexivity|]. split; [reflexivity|]. split; [lia|]. split; [lia|].
  split; [exact Hl|]. split; [exact Hd|]. split; [now rewrite Hc, Hl|].
  exact Hf.
Qed.

(** A 400 x 300 parent: 60 particles. *)
Lemma resize_particles_witness :
  let dom := mkDom (Some (400%N, 300%N)) 1280 720 0 0 in
  let rng := mkRng (fun _ => 0%Q) 0 in
  let a := mk (Context2D 0) 300 150 [] None "#8b5cf6" 200 default_mouse in
  (particleCount (snd (resize dom rng a)) <= 60)%Z /\
  cursor (fst (resize dom rng a))
  = (6 * Z.to_nat (particleCount (snd (resize dom rng a))))%nat.
Proof.
  intros dom rng a.
  destruct (resize_particles dom rng a (ParticleFacts.unit_draws_zero 0))
    as (Ew & Eh & Hn & Hm & El & _ & Ec & _).
  change (fst (surface_size dom)) with 400%Z in Ew.
  change (snd (surface_size dom)) with 300%Z in Eh. rewrite Ew, Eh in Hm.
  change (cursor rng) with 0%nat in Ec. rewrite Nat.add_0_r in Ec.
  split; [lia|]. rewrite Ec, El. reflexivity.
Defined.

Lemma reset_state_radius w h rng s :
  Particle.radius (snd (Particle.reset_state w h rng s)) = Particle.radius s.
Proof. destruct s; reflexivity. Qed.

Lemma reset_state_cursor w h rng s :
  cursor (fst (Particle.reset_state w h rng s)) = (3 + cursor rng)%nat.
Proof. destruct s; reflexivity. Qed.

(** The callback keeps the radius of the particle, in either state and
    through both respawn tests, and reads the draws it needs forward in the
    stream: none, three or six. *)
Lemma update_state_radius w h mouse rng s :
  Particle.radius (snd (update_state w h mouse rng s)) = Particle.radius s /\
  (cursor rng <= cursor (fst (update_state w h mouse rng s)))%nat.
Proof.
  destruct s as [p|r]; [|split; [reflexivity | cbn; lia]].
  cbn [update_state Particle.radius].
  rewrite ParticleFacts.update_particle_tests. cbv zeta.
  set (s1 := if Req_EM_T _ 0 then _ else _).
  assert (Particle.radius s1 = Particle.size p) as E1.
  { unfold s1. destruct (Req_EM_T _ 0); cbn [Particle.radius];
      [reflexivity | apply ParticleFacts.physics_size]. }
  clearbody s1.
  destruct (RMath.ltb _ 10).
  - pose proof (reset_state_radius w h rng s1) as Hr.
    pose proof (reset_state_cursor w h rng s1) as Hc.
    destruct (Particle.reset_state w h rng s1) as [r1 s2].
    cbn [fst snd] in Hr, Hc. destruct s2 as [p2|r2]; [|cbn [fst snd]].
    + destruct (_ || _);
        [rewrite reset_state_radius, reset_state_cursor | cbn [fst snd]];
        split; try congruence; lia.
    + split; [congruence | lia].
  - destruct s1 as [p1|r1]; [|cbn [fst snd]; split; [congruence | lia]].
    destruct (_ || _);
      [rewrite reset_state_radius, reset_state_cursor | cbn [fst snd]];
      split; try congruence; lia.
Qed.

Lemma forEach_sizes w h mouse ps : forall rng,
  map Particle.radius (snd (forEach (update_state w h mouse) rng ps))
  = map Particle.radius ps /\
  draws (fst (forEach (update_state w h mouse) rng ps)) = draws rng /\
  (cursor rng <= cursor (fst (forEach (update_state w h mouse) rng ps)))%nat.
Proof.
  induction ps as [|p rest IH]; intros rng; [cbn; auto|].
  cbn [forEach].
  pose proof (update_state_radius w h mouse rng p) as [Hs Hc].
  pose proof (ParticleFacts.update_state_draws w h mouse rng p) as Hd.
  destruct (update_state w h mouse rng p) as [rng1 p'].
  cbn [fst snd] in Hs, Hd, Hc.
  destruct (IH rng1) as (IHs & IHd & IHc).
  destruct (forEach _ rng1 rest) as [rng2 rest']. cbn [fst snd] in *.
  cbn [map]. rewrite Hs, IHs. repeat split; [congruence | lia].
Qed.

(** [update] of the particle field, any number of times: no particle is added
    or removed, every particle keeps its radius (also across a respawn), the
    surface size and the pointer position are untouched, and the draws are
    read forward from the same stream. *)
Theorem updates_keep_particles (n : nat) (rng : Rng) (a : t) :
  map Particle.radius (particles (snd (updates n rng a)))
  = map Particle.radius (particles a) /\
  width (snd (updates n rng a)) = width a /\
  height (snd (updates n rng a)) = height a /\
  mouse (snd (updates n rng a)) = mouse a /\
  draws (fst (updates n rng a)) = draws rng /\
  (cursor rng <= cursor (fst (updates n rng a)))%nat.
Proof.
  revert rng a. induction n as [|n IH]; intros rng a; [cbn; auto 10|].
  cbn [updates]. unfold update.
  destruct (forEach_sizes (IZR (width a)) (IZR (height a)) (mouse a)
              (particles a) rng) as (Hs & Hd & Hc).
  destruct (forEach _ rng (particles a)) as [rng1 ps]. cbn [fst snd] in *.
  destruct (IH rng1 (set_particles a ps)) as (IHs & IHw & IHh & IHm & IHd & IHc).
  cbn [set_particles particles width height mouse] in *.
  repeat split; try congruence. lia.
Qed.

(** [Math.atan2] followed by [Math.cos] and [Math.sin] gives the unit
    vector along [(dx, dy)]. *)
Lemma hypot_factor dx dy :
  dx <> 0 ->
  sqrt (dx * dx + dy * dy) = Rabs dx * sqrt (1 + (dy / dx)²).
Proof.
  intros Hx. rewrite <- sqrt_Rsqr_abs, <- sqrt_mult.
  - f_equal. unfold Rsqr. field. exact Hx.
  - apply Rle_0_sqr.
  - pose proof (Rle_0_sqr (dy / dx)). lra.
Qed.

Lemma atan2_direction dy dx :
  0 < sqrt (dx * dx + dy * dy) ->
  cos (RMath.atan2 dy dx) = dx / sqrt (dx * dx + dy * dy) /\
  sin (RMath.atan2 dy dx) = dy / sqrt (dx * dx + dy * dy).
Proof.
  intros Hd. unfold RMath.atan2.
  assert (0 < sqrt (1 + (dy / dx)²)) as HS.
  { apply sqrt_lt_R0. pose proof (Rle_0_sqr (dy / dx)). lra. }
  destruct (Rlt_dec 0 dx) as [Hpos|Hnpos].
  - rewrite hypot_factor, Rabs_right by lra.
    rewrite cos_atan, sin_atan. split; field; lra.
  - destruct (Rlt_dec dx 0) as [Hneg|Hnneg].
    + rewrite hypot_factor, Rabs_left by lra.
      destruct (Rle_dec 0 dy).
      * rewrite neg_cos, neg_sin, cos_atan, sin_atan. split; field; lra.
      * rewrite cos_minus, sin_minus, cos_PI, sin_PI, cos_atan, sin_atan.
        split; field; lra.
    + assert (dx = 0) as -> by lra.
      replace (0 * 0 + dy * dy) with (dy * dy) in * by ring.
      destruct (Rlt_dec 0 dy) as [Hy|Hy].
      * rewrite cos_PI2, sin_PI2, sqrt_square by lra. split; field; lra.
      * destruct (Rlt_dec dy 0) as [Hy'|Hy'].
        -- rewrite cos_neg, sin_neg, cos_PI2, sin_PI2.
           replace (dy * dy) with (- dy * - dy) by ring.
           rewrite sqrt_square by lra. split; field; lra.
        -- assert (dy = 0) as -> by lra.
           rewrite Rmult_0_l, sqrt_0 in Hd. lra.
Qed.

(** A step away from the event horizon, with the pointer out of reach, that
    ends within 200 of the surface, in closed form: the particle is pulled
    along the line to the centre of the surface, at distance [d], by
    [500 / (d + 50)]; the velocity so changed is damped by 0.95, and the
    position advances by it. No draw is read. *)
Theorem update_particle_pull (w h : R) (mouse : R * R) (rng : Rng)
    (p : Particle.t) :
  let d := distance_to_center w h p in
  let vx' :=
    0.95 * (Particle.vx p + (w / 2 - Particle.x p) / d * (500 / (d + 50))) in
  let vy' :=
    0.95 * (Particle.vy p + (h / 2 - Particle.y p) / d * (500 / (d + 50))) in
  10 <= d -> 200 <= distance_to_pointer mouse p ->
  -200 <= Particle.x p + vx' <= w + 200 ->
  -200 <= Particle.y p + vy' <= h + 200 ->
  update_particle w h mouse rng p
  = (rng,
     Particle.Numbers
       (Particle.mk (Particle.x p + vx') (Particle.y p + vy') vx' vy'
                    (Particle.size p))).
Proof.
  intros d vx' vy' Hd Hfar Hx Hy.
  rewrite ParticleFacts.update_particle_step by (left; lra).
  rewrite ParticleFacts.step_physics. cbv zeta.
  assert (physics w h mouse p
          = Particle.mk (Particle.x p + vx') (Particle.y p + vy') vx' vy'
                        (Particle.size p)) as ->.
  { unfold physics. rewrite ParticleFacts.repulsion_far.
    - unfold integrate, damping, gravity.
      cbn [Particle.x Particle.y Particle.vx Particle.vy Particle.size].
      destruct (atan2_direction (h / 2 - Particle.y p) (w / 2 - Particle.x p))
        as [-> ->]; [fold (distance_to_center w h p); fold d; lra|].
      fold (distance_to_center w h p). fold d. unfold vx', vy'.
      clearbody d. unfold Rdiv. generalize (/ (d + 50)) (/ d). intros F D.
      f_equal; lra.
    - unfold distance_to_pointer, gravity in *.
      cbn [Particle.x Particle.y]. exact Hfar. }
  fold d.
  rewrite (proj2 (ParticleFacts.ltb_false d 10)) by lra.
  unfold as_numbers.
  destruct (RMath.ltb _ _ || _ || _ || _) eqn:E; [|reflexivity].
  apply ParticleFacts.lost_in_space_test in E. unfold lost_in_space in E.
  cbn [Particle.x Particle.y] in E. lra.
Qed.

(** A particle at rest on the left edge of a 200 x 200 surface, level with
    the centre, 100 away from it: it is pulled to the right by
    [0.95 * 500 / 150]. *)
Lemma update_particle_pull_witness :
  update_particle 200 200 default_mouse (mkRng (fun _ => 0%Q) 0)
    (Particle.mk 0 100 0 0 2)
  = (mkRng (fun _ => 0%Q) 0,
     Particle.Numbers
       (Particle.mk (0.95 * (500 / 150)) 100 (0.95 * (500 / 150)) 0 2)).
Proof.
  assert (distance_to_center 200 200 (Particle.mk 0 100 0 0 2) = 100) as Ed.
  { unfold distance_to_center. cbn [Particle.x Particle.y].
    replace ((200 / 2 - 0) * (200 / 2 - 0) + (200 / 2 - 100) * (200 / 2 - 100))
      with (100 * 100) by lra.
    apply sqrt_square. lra. }
  rewrite (update_particle_pull 200 200 default_mouse
             (mkRng (fun _ => 0%Q) 0) (Particle.mk 0 100 0 0 2));
    rewrite ?Ed; cbn [Particle.x Particle.y Particle.vx Particle.vy
                      Particle.size]; try lra.
  - f_equal. f_equal. f_equal; lra.
  - apply ParticleFacts.default_pointer_far; cbn [Particle.x Particle.y]; lra.
Defined.

(** [NaN] coordinates stay: whatever the field and the stream. *)
Lemma updates_NaN n : forall rng a i r,
  particle a i = Some (Particle.NaNs r) ->
  particle (snd (updates n rng a)) i = Some (Particle.NaNs r).
Proof.
  induction n as [|n IH]; intros rng a i r Hi; [exact Hi|].
  cbn [updates].
  destruct (ParticleFacts.update_at rng a i _ Hi) as [Hi' _].
  cbn [update_state snd] in Hi'.
  destruct (update rng a) as [rng' a']. cbn [snd] in Hi'. now apply IH.
Qed.

(** With the pointer exactly on a particle that is not within 10 of the
    centre, [update] divides zero by zero: it leaves the particle with [NaN]
    position and velocity, its radius kept, and reads no draw for it. A
    particle with [NaN] coordinates is never reset: every later [update]
    leaves it as it is, wherever the pointer then is. *)
Theorem pointer_on_particle (a : t) (rng : Rng) (i : nat) (p : Particle.t) :
  particle a i = Some (Particle.Numbers p) ->
  fst (mouse a) = Particle.x p -> snd (mouse a) = Particle.y p ->
  ~ event_horizon (IZR (width a)) (IZR (height a)) p ->
  particle (snd (update rng a)) i = Some (Particle.NaNs (Particle.size p)) /\
  stream_at rng a (S i) = stream_at rng a i /\
  (forall n rng' mouse',
     particle (snd (updates n rng' (with_mouse (snd (update rng a)) mouse'))) i
     = Some (Particle.NaNs (Particle.size p))).
Proof.
  intros Hi Ex Ey Heh.
  assert (distance_to_pointer (mouse a) p = 0) as E0.
  { unfold distance_to_pointer. rewrite Ex, Ey.
    replace ((Particle.x p - Particle.x p) * (Particle.x p - Particle.x p)
             + (Particle.y p - Particle.y p) * (Particle.y p - Particle.y p))
      with 0 by ring.
    apply sqrt_0. }
  destruct (ParticleFacts.update_at rng a i _ Hi) as [H1 H2].
  cbn [update_state] in H1, H2.
  rewrite ParticleFacts.update_particle_NaN in H1, H2 by assumption.
  cbn [fst snd] in H1, H2.
  split; [exact H1|]. split; [exact H2|].
  intros n rng' mouse'. apply updates_NaN. exact H1.
Qed.

(** On a 1000 x 1000 surface, a particle at [(300, 400)] with the pointer
    on it: after that frame and three more its coordinates are [NaN]. *)
Lemma pointer_on_particle_witness :
  let p := Particle.mk 300 400 1 0 2 in
  let a := mk (Context2D 0) 1000 1000 [Particle.Numbers p] None "#8b5cf6" 1
              (300, 400) in
  let rng := mkRng (fun _ => 0%Q) 0 in
  particle (snd (updates 3 rng (with_mouse (snd (update rng a)) (0, 0)))) 0
  = Some (Particle.NaNs 2).
Proof.
  intros p a rng.
  refine (proj2 (proj2 (pointer_on_particle a rng 0 p eq_refl eq_refl eq_refl
                          _)) 3%nat rng (0, 0)).
  change (IZR (width a)) with 1000. change (IZR (height a)) with 1000.
  unfold event_horizon, distance_to_center. cbn [Particle.x Particle.y p].
  assert (10 <= sqrt ((1000 / 2 - 300) * (1000 / 2 - 300)
                      + (1000 / 2 - 400) * (1000 / 2 - 400)))
    by (apply ParticleFacts.sqrt_ge_bound; lra).
  lra.
Defined.

End FieldExtras.

(** ** The factory *)

Module FactoryExtras.

Import VisualFactory.

Lemma ltb_lt (a b : Q) : JS.ltb a b = true <-> (a < b)%Q.
Proof.
  unfold JS.ltb. rewrite negb_true_iff, <- not_true_iff_false, Qle_bool_iff.
  split; [apply Qnot_le_lt | apply Qlt_not_le].
Qed.

Lemma ltb_ge (a b : Q) : JS.ltb a b = false <-> (b <= a)%Q.
Proof.
  unfold JS.ltb. rewrite negb_false_iff. apply Qle_bool_iff.
Qed.

(** [createRandomVisual] reads one draw [u] and then runs one constructor
    on the stream as that draw leaves it, that is on the draws that follow
    [u]: it throws the constructor's error exactly when the canvas gives no
    2D context, whatever [u]; otherwise it returns the instance that this
    constructor makes from those draws, together with the stream the
    constructor leaves; the instance holds the context of the canvas, and it
    is a grid automaton when [u < 0.33], a particle field when
    [0.33 <= u < 0.66] and a node graph when [0.66 <= u]. *)
Theorem createRandomVisual_picks (canvas : Canvas) (color : string)
    (dom : Dom) (rng : Rng) :
  let u := draws rng (cursor rng) in
  let rng1 := mkRng (draws rng) (S (cursor rng)) in
  match getContext2d canvas with
  | None =>
      createRandomVisual canvas color dom rng
      = Some (Error "Could not get canvas context")
  | Some c =>
      exists rng' v,
        createRandomVisual canvas color dom rng = Some (Instance (rng', v)) /\
        context v = c /\
        match v with
        | IsGameOfLife g =>
            (u < 33 # 100)%Q /\
            GameOfLife.constructor canvas color dom rng1
            = Some (Instance (rng', g))
        | IsParticleAttractor s =>
            (33 # 100 <= u)%Q /\ (u < 66 # 100)%Q /\
            ParticleAttractor.constructor canvas color dom rng1
            = Instance (rng', s)
        | IsNetworkGraph s =>
            (66 # 100 <= u)%Q /\
            NetworkGraph.constructor canvas color dom rng1 = Instance (rng', s)
        end
  end.
Proof.
  intros u rng1. unfold createRandomVisual, random. fold u. fold rng1.
  destruct (getContext2d canvas) as [c|] eqn:Ectx.
  - destruct (JS.ltb u (33 # 100)) eqn:E1;
      [|destruct (JS.ltb u (66 # 100)) eqn:E2].
    + assert (exists rng' g,
                GameOfLife.constructor canvas color dom rng1
                = Some (Instance (rng', g)) /\ GameOfLife.ctx g = c)
        as (rng' & g & E & Ec).
      { unfold GameOfLife.constructor. rewrite Ectx.
        set (g0 := GameOfLife.mk c _ _ _ _ _ _ _).
        destruct (GridFacts.resize_well_formed dom rng1 g0)
          as (rng' & g & E & _).
        rewrite E. exists rng', g. split; [reflexivity|].
        apply VisualsFacts.resize_inv in E. now destruct E as [Ec _]. }
      rewrite E. exists rng', (IsGameOfLife g).
      split; [reflexivity|]. split; [exact Ec|].
      split; [now apply ltb_lt | reflexivity].
    + assert (exists rng' s,
                ParticleAttractor.constructor canvas color dom rng1
                = Instance (rng', s) /\ ParticleAttractor.ctx s = c)
        as (rng' & s & E & Ec).
      { unfold ParticleAttractor.constructor. rewrite Ectx.
        set (s0 := ParticleAttractor.mk c _ _ _ _ _ _ _).
        destruct (VisualsFacts.ParticleAttractor_resize_inv dom rng1 s0)
          as [Ec _].
        destruct (ParticleAttractor.resize dom rng1 s0) as [rng' s].
        exists rng', s. split; [reflexivity | exact Ec]. }
      rewrite E. exists rng', (IsParticleAttractor s).
      split; [reflexivity|]. split; [exact Ec|].
      split; [now apply ltb_ge|]. split; [now apply ltb_lt | reflexivity].
    + assert (exists rng' s,
                NetworkGraph.constructor canvas color dom rng1
                = Instance (rng', s) /\ NetworkGraph.ctx s = c)
        as (rng' & s & E & Ec).
      { unfold NetworkGraph.constructor. rewrite Ectx.
        set (s0 := NetworkGraph.mk c _ _ _ _ _ _ _ _).
        destruct (VisualsFacts.NetworkGraph_resize_inv dom rng1 s0)
          as [Ec _].
        destruct (NetworkGraph.resize dom rng1 s0) as [rng' s].
        exists rng', s. split; [reflexivity | exact Ec]. }
      rewrite E. exists rng', (IsNetworkGraph s).
      split; [reflexivity|]. split; [exact Ec|].
      split; [now apply ltb_ge | reflexivity].
  - unfold GameOfLife.constructor, ParticleAttractor.constructor,
      NetworkGraph.constructor. rewrite Ectx.
    destruct (JS.ltb u (33 # 100)), (JS.ltb u (66 # 100)); reflexivity.
Qed.

End FactoryExtras.
